(** * antigravity-app: export pipeline and progress tracking of [App.tsx]

    A shallow embedding of the parts of [src/App.tsx] that drive the
    in-browser FFmpeg export: the time codec ([parseFfmpegTime]), the file
    selection handler ([handleFileChange]), the export handler
    ([handleExport]) with its progress logger, and the slow-processing
    monitor (the [useEffect] on [isProcessing] and [progress]).

    The repository holds two revisions of [App.tsx].  The embedding follows
    the newer one.  The older one has the same control flow and differs in
    the texts handed to [addLog], in the debug panel, in the logger installed
    at start-up (one that does nothing), and in two texts shown to the user:
    its export error reads
    ["書き出し中にエラーが発生しました。コンソールを確認してください。"], and its load
    error falls back to ['Unknown Error'] for a rejection without a message.
    [addLog] writes to the developer console (or, in the older revision, to
    a list shown in the debug panel), is never read back by the handlers,
    and is left out. *)

From Stdlib Require Import ZArith QArith Qcanon Qround Qpower.
From Stdlib Require Import SpecFloat.
From Stdlib Require Import Bool List String Ascii Lia Lqa Sorted.
Import ListNotations.

Local Open Scope Z_scope.

(** ** JavaScript numbers

    A JavaScript number is an IEEE 754 binary64 value.  Finite values are
    kept as canonical rationals, every arithmetic operation computes the
    exact rational result and rounds it to the nearest binary64 value, ties
    to even ([rnd]), the way ECMAScript defines [Number::add] and friends.
    The two zeros are identified: a zero divisor is taken to be the
    positive zero. *)

Inductive number : Type :=
| NaN : number
| NegInf : number
| Fin (q : Qc) : number
| PosInf : number.

Definition num_of_Z (z : Z) : number := Fin (Q2Qc (inject_Z z)).

Definition pow2 (k : Z) : Q := (2 ^ k)%Q.

(** [ilog2 q] is the binary exponent of a positive rational:
    [2^(ilog2 q) <= q < 2^(ilog2 q + 1)]. *)
Definition ilog2 (q : Q) : Z :=
  let e0 := Z.log2 (Qnum q) - Z.log2 (Zpos (Qden q)) in
  if Qle_bool (pow2 e0) q then e0 else e0 - 1.

(** Nearest integer, ties to the even one. *)
Definition rhe (x : Q) : Z :=
  let f := Qfloor x in
  match (x - inject_Z f ?= 1 # 2)%Q with
  | Lt => f
  | Gt => f + 1
  | Eq => if Z.even f then f else f + 1
  end.

(** Exponent of the last place of the binary64 format around [q]:
    53 significant bits, least exponent -1074. *)
Definition ulp_exp (q : Q) : Z := Z.max (ilog2 q - 52) (-1074).

(** The binary64 neighbour of a positive rational, before the overflow test. *)
Definition rnd_val (q : Q) : Q :=
  (inject_Z (rhe (q / pow2 (ulp_exp q))) * pow2 (ulp_exp q))%Q.

Definition rnd_pos (q : Q) : number :=
  let v := rnd_val q in
  if Qle_bool (pow2 1024) v then PosInf else Fin (Q2Qc v).

Definition num_neg (x : number) : number :=
  match x with
  | NaN => NaN
  | NegInf => PosInf
  | PosInf => NegInf
  | Fin q => Fin (- q)%Qc
  end.

(** Round an exact result to binary64. *)
Definition rnd (q : Q) : number :=
  match (q ?= 0)%Q with
  | Eq => Fin 0%Qc
  | Gt => rnd_pos q
  | Lt => num_neg (rnd_pos (- q)%Q)
  end.

(** Sign of a non-NaN number: -1, 0 or 1. *)
Definition num_sgn (x : number) : Z :=
  match x with
  | NaN => 0
  | NegInf => -1
  | PosInf => 1
  | Fin q => Z.sgn (Qnum q)
  end.

Definition inf_of_sgn (s : Z) : number :=
  match s with
  | Z0 => NaN
  | Zpos _ => PosInf
  | Zneg _ => NegInf
  end.

(** [x + y] *)
Definition num_add (x y : number) : number :=
  match x, y with
  | NaN, _ | _, NaN => NaN
  | PosInf, NegInf | NegInf, PosInf => NaN
  | PosInf, _ | _, PosInf => PosInf
  | NegInf, _ | _, NegInf => NegInf
  | Fin a, Fin b => rnd (a + b)%Q
  end.

(** [x - y] *)
Definition num_sub (x y : number) : number := num_add x (num_neg y).

(** [x * y] *)
Definition num_mul (x y : number) : number :=
  match x, y with
  | NaN, _ | _, NaN => NaN
  | Fin a, Fin b => rnd (a * b)%Q
  | _, _ => inf_of_sgn (num_sgn x * num_sgn y)
  end.

(** [x / y]; a finite non-zero number over zero is an infinity, zero over
    zero is NaN. *)
Definition num_div (x y : number) : number :=
  match x, y with
  | NaN, _ | _, NaN => NaN
  | Fin a, Fin b =>
      if Qeq_bool b 0 then inf_of_sgn (num_sgn x) else rnd (a / b)%Q
  | Fin _, _ => Fin 0%Qc
  | _, Fin b => if Qeq_bool b 0 then x else inf_of_sgn (num_sgn x * num_sgn y)
  | _, _ => NaN
  end.

(** [Math.round]: the closest integer, ties towards +Infinity. *)
Definition Math_round (x : number) : number :=
  match x with
  | Fin q => Fin (Q2Qc (inject_Z (Qfloor (q + (1 # 2))%Q)))
  | _ => x
  end.

(** [Math.min] of two arguments. *)
Definition Math_min (x y : number) : number :=
  match x, y with
  | NaN, _ | _, NaN => NaN
  | NegInf, _ | _, NegInf => NegInf
  | PosInf, z | z, PosInf => z
  | Fin a, Fin b => if Qle_bool a b then x else y
  end.

(** [x <= y], [x < y] and [x === y] on numbers; false when NaN is involved. *)
Definition num_leb (x y : number) : bool :=
  match x, y with
  | NaN, _ | _, NaN => false
  | NegInf, _ | _, PosInf => true
  | Fin a, Fin b => Qle_bool a b
  | _, _ => false
  end.

Definition num_ltb (x y : number) : bool :=
  match x, y with
  | NaN, _ | _, NaN => false
  | Fin a, Fin b => negb (Qle_bool b a)
  | NegInf, NegInf | PosInf, PosInf => false
  | NegInf, _ | _, PosInf => true
  | _, _ => false
  end.

Definition num_eqb (x y : number) : bool :=
  match x, y with
  | Fin a, Fin b => Qeq_bool a b
  | NegInf, NegInf | PosInf, PosInf => true
  | _, _ => false
  end.

(** Structural equality of numbers, decided through the rational values. *)
Definition num_same (x y : number) : bool :=
  match x, y with
  | NaN, NaN | NegInf, NegInf | PosInf, PosInf => true
  | Fin a, Fin b => Qeq_bool a b
  | _, _ => false
  end.

(** ** JavaScript strings

    Strings are sequences of bytes, the UTF-8 encoding of the JavaScript
    string.  Every pattern the program looks for ([time=], digits, [:] and
    [.]) is ASCII, so searching the UTF-8 bytes agrees with searching UTF-16
    code units. *)

Local Open Scope string_scope.

Definition is_digit (c : ascii) : bool :=
  let n := N_of_ascii c in ((48 <=? n) && (n <=? 57))%N.

Definition digit_val (c : ascii) : Z := Z.of_N (N_of_ascii c) - 48.

Definition lower_char (c : ascii) : ascii :=
  let n := N_of_ascii c in
  if ((65 <=? n) && (n <=? 90))%N then ascii_of_N (n + 32) else c.

(** [s.toLowerCase()] on ASCII text: the letters [A] to [Z] are lowered,
    every other byte is kept.  On a string of ASCII characters
    ([ascii_only]) this is what [String.prototype.toLowerCase] gives.  The
    cased letters beyond ASCII, which JavaScript lowers by the Unicode case
    mapping, are kept as they are: the properties of the lower-cased
    extension are stated for ASCII text. *)
Fixpoint toLowerCase (s : string) : string :=
  match s with
  | EmptyString => EmptyString
  | String c s' => String (lower_char c) (toLowerCase s')
  end.

(** [s.split(c)] for a one-character separator; the result is never empty. *)
Fixpoint split (c : ascii) (s : string) : list string :=
  match s with
  | EmptyString => [EmptyString]
  | String a s' =>
      if Ascii.eqb a c then EmptyString :: split c s'
      else match split c s' with
           | [] => [String a EmptyString]
           | p :: ps => String a p :: ps
           end
  end.

(** [arr.pop()]: the last element, [None] standing for [undefined]. *)
Fixpoint pop (l : list string) : option string :=
  match l with
  | [] => None
  | [x] => Some x
  | _ :: l' => pop l'
  end.

(** [v || d] on a string-or-undefined value: the empty string and
    [undefined] are falsy. *)
Definition or_default (v : option string) (d : string) : string :=
  match v with
  | None => d
  | Some EmptyString => d
  | Some s => s
  end.

(** [s.includes(p)] *)
Fixpoint includes (p s : string) : bool :=
  if prefix p s then true
  else match s with
       | EmptyString => false
       | String _ s' => includes p s'
       end.

(** The longest prefix of digits and what follows it. *)
Fixpoint take_digits (s : string) : string * string :=
  match s with
  | String c s' =>
      if is_digit c then let (d, r) := take_digits s' in (String c d, r)
      else (EmptyString, s)
  | EmptyString => (EmptyString, EmptyString)
  end.

(** The value of a digit string, most significant digit first. *)
Fixpoint digits_val (acc : Z) (s : string) : Z :=
  match s with
  | EmptyString => acc
  | String c s' => digits_val (10 * acc + digit_val c) s'
  end.

(** *** [parseFloat] *)

(** The ASCII white space: TAB, LF, VT, FF, CR and SP. *)
Definition is_space (c : ascii) : bool :=
  let n := N_of_ascii c in (((9 <=? n) && (n <=? 13)) || (n =? 32))%N.

(** The number of bytes of the white-space character ([StrWhiteSpaceChar])
    a string starts with, 0 when it starts with none.  Beside the ASCII
    ones these are, in UTF-8: U+00A0 ([C2 A0]), U+1680 ([E1 9A 80]), U+2000
    to U+200A ([E2 80 80] to [E2 80 8A]), U+2028 and U+2029 ([E2 80 A8],
    [E2 80 A9]), U+202F ([E2 80 AF]), U+205F ([E2 81 9F]), U+3000
    ([E3 80 80]) and U+FEFF ([EF BB BF]). *)
Definition space_bytes (s : string) : nat :=
  match s with
  | EmptyString => 0
  | String c1 r1 =>
      let n1 := N_of_ascii c1 in
      if is_space c1 then 1
      else if (n1 =? 194)%N then
        match r1 with
        | String c2 _ => if (N_of_ascii c2 =? 160)%N then 2 else 0
        | EmptyString => 0
        end
      else if ((n1 =? 225) || (n1 =? 226) || (n1 =? 227) || (n1 =? 239))%N then
        match r1 with
        | String c2 (String c3 _) =>
            let n2 := N_of_ascii c2 in
            let n3 := N_of_ascii c3 in
            if (((n1 =? 225) && (n2 =? 154) && (n3 =? 128))
                || ((n1 =? 226) && (n2 =? 128)
                    && (((128 <=? n3) && (n3 <=? 138))
                        || (n3 =? 168) || (n3 =? 169) || (n3 =? 175)))
                || ((n1 =? 226) && (n2 =? 129) && (n3 =? 159))
                || ((n1 =? 227) && (n2 =? 128) && (n3 =? 128))
                || ((n1 =? 239) && (n2 =? 187) && (n3 =? 191)))%N
            then 3 else 0
        | _ => 0
        end
      else 0
  end.

(** The string without its first [n] bytes. *)
Fixpoint skip (n : nat) (s : string) : string :=
  match n, s with
  | S n', String _ s' => skip n' s'
  | _, _ => s
  end.

Fixpoint trim_fuel (fuel : nat) (s : string) : string :=
  match fuel with
  | O => s
  | S f =>
      match space_bytes s with
      | O => s
      | S k => trim_fuel f (skip (S k) s)
      end
  end.

(** The string without its leading white space ([TrimString] at the
    start). *)
Definition trim_start (s : string) : string := trim_fuel (String.length s) s.

(** An optional exponent part [e[+-]digits]; absent when no digit follows. *)
Definition parse_exponent (s : string) : Z :=
  match s with
  | String c s' =>
      if (Ascii.eqb c "e" || Ascii.eqb c "E")%bool then
        match s' with
        | String "+" s'' =>
            let (d, _) := take_digits s'' in digits_val 0 d
        | String "-" s'' =>
            let (d, _) := take_digits s'' in - digits_val 0 d
        | _ => let (d, _) := take_digits s' in digits_val 0 d
        end
      else 0
  | EmptyString => 0
  end.

(** The exact value of the longest prefix that is an unsigned decimal
    literal: [digits], [digits.], [digits.digits] or [.digits], each with an
    optional exponent; [None] when there is no such prefix. *)
Definition parse_unsigned (s : string) : option Q :=
  let (ip, r1) := take_digits s in
  let '(fp, r2) :=
    match r1 with
    | String "." r =>
        let (f, r') := take_digits r in
        match ip, f with
        | EmptyString, EmptyString => (EmptyString, r1)
        | _, _ => (f, r')
        end
    | _ => (EmptyString, r1)
    end in
  match ip, fp with
  | EmptyString, EmptyString => None
  | _, _ =>
      let m := digits_val 0 (ip ++ fp) in
      let e := parse_exponent r2 - Z.of_nat (String.length fp) in
      Some (inject_Z m * 10 ^ e)%Q
  end.

Definition parse_magnitude (s : string) : number :=
  if prefix "Infinity" s then PosInf
  else match parse_unsigned s with
       | Some q => rnd q
       | None => NaN
       end.

(** [parseFloat(s)] *)
Definition parseFloat (s : string) : number :=
  match trim_start s with
  | String "+" s' => parse_magnitude s'
  | String "-" s' => num_neg (parse_magnitude s')
  | s' => parse_magnitude s'
  end.

(** ** Time codec *)

(** [parseFfmpegTime]: [HH:MM:SS.ms] to seconds. *)
Definition parseFfmpegTime (timeStr : string) : number :=
  match split ":" timeStr with
  | p0 :: p1 :: p2 :: _ =>
      let h := parseFloat p0 in
      let m := parseFloat p1 in
      let s := parseFloat p2 in
      num_add (num_add (num_mul h (num_of_Z 3600)) (num_mul m (num_of_Z 60))) s
  | _ => num_of_Z 0
  end.

(** ** The progress logger *)

(** One attempt of [/time=(\d{2}:\d{2}:\d{2}\.\d+)/] at the start of [s];
    the result is the first capture group. *)
Definition match_time_here (s : string) : option string :=
  match s with
  | String "t" (String "i" (String "m" (String "e" (String "="
      (String h1 (String h2 (String ":"
      (String m1 (String m2 (String ":"
      (String s1 (String s2 (String "." rest))))))))))))) =>
      if (is_digit h1 && is_digit h2 && is_digit m1 && is_digit m2
          && is_digit s1 && is_digit s2)%bool then
        match take_digits rest with
        | (EmptyString, _) => None
        | (frac, _) =>
            Some (String h1 (String h2 (String ":"
                 (String m1 (String m2 (String ":"
                 (String s1 (String s2 (String "." frac)))))))))
        end
      else None
  | _ => None
  end.

(** [message.match(/time=(\d{2}:\d{2}:\d{2}\.\d+)/)]: the leftmost match. *)
Fixpoint match_time (message : string) : option string :=
  match match_time_here message with
  | Some c => Some c
  | None =>
      match message with
      | EmptyString => None
      | String _ rest => match_time rest
      end
  end.

(** The percentage computed from a captured timestamp:
    [Math.min(Math.round((currentTime / durationTime) * 100), 100)]. *)
Definition percent_of (durationTime currentTime : number) : number :=
  Math_min (Math_round (num_mul (num_div currentTime durationTime) (num_of_Z 100)))
           (num_of_Z 100).

(** The logger installed by [handleExport]: the value handed to
    [setProgress] for one log line, if any. *)
Definition progress_of_line (durationTime : number) (message : string)
  : option number :=
  if includes "time=" message then
    match match_time message with
    | Some (String c1 rest) =>
        let currentTime := parseFfmpegTime (String c1 rest) in
        Some (percent_of durationTime currentTime)
    | _ => None
    end
  else None.

(** ** Component state, engine and event loop *)

Definition bytes : Type := list Byte.byte.

(** A browser [File]: the attributes the handlers read.  [size] is the
    attribute the browser reports; the bytes stay opaque to the handlers. *)
Record File : Type := mkFile {
  name : string;
  size : Z;
  content : bytes
}.

(** The React state of [App] that the handlers touch ([videoSrc] and
    [isPlaying] belong to the preview player and are left out), and the
    [progressRef] ref. *)
Record AppState : Type := mkAppState {
  ready : bool;
  videoFile : option File;
  duration : number;
  range : number * number;
  progress : number;
  isProcessing : bool;
  message : string;
  error : string;
  isSlow : bool;
  progressRef : number
}.

(** The logger installed in the engine by [ffmpeg.setLogger]. *)
Inductive Logger : Type :=
| LogOnly                                 (* ({ message }) => addLog(message) *)
| ProgressLogger (durationTime : number)  (* the closure of handleExport *)
| NoopLogger.                             (* () => { } *)

(** The virtual filesystem of the engine. *)
Definition FS : Type := list (string * bytes).

Fixpoint fs_unlink (n : string) (fs : FS) : FS :=
  match fs with
  | [] => []
  | (k, v) :: fs' =>
      if String.eqb k n then fs_unlink n fs' else (k, v) :: fs_unlink n fs'
  end.

Fixpoint fs_read (n : string) (fs : FS) : option bytes :=
  match fs with
  | [] => None
  | (k, v) :: fs' => if String.eqb k n then Some v else fs_read n fs'
  end.

Definition fs_write (n : string) (b : bytes) (fs : FS) : FS :=
  (n, b) :: fs_unlink n fs.

(** The module-level [ffmpeg] instance. *)
Record Engine : Type := mkEngine {
  loaded : bool;
  logger : Logger;
  fs : FS
}.

(** What one invocation of [handleExport] keeps in its closure. *)
Record Job : Type := mkJob {
  job_file : File;
  safeInputName : string;
  safeOutputName : string;
  startTime : number;
  endTime : number;
  durationTime : number
}.

(** The [await] at which the running [handleExport] is suspended. *)
Inductive Pending : Type :=
| PIdle
| PLoad (j : Job)    (* await ffmpeg.load() *)
| PFetch (j : Job)   (* await fetchFile(videoFile) *)
| PRun (j : Job).    (* await ffmpeg.run(...) *)

(** A download started by [a.click()]: the bytes and the two times that
    make the suggested name [split_<formatTime start>-<formatTime end>.mp4]. *)
Record Download : Type := mkDownload {
  dl_data : bytes;
  dl_start : number;
  dl_end : number
}.

Record World : Type := mkWorld {
  st : AppState;
  ffmpeg : Engine;
  init_load : bool;            (* the load started by loadFFmpeg is in flight *)
  pending : Pending;
  deps : bool * number;        (* [isProcessing, progress] at the last effect run *)
  slow_timer : option Z;       (* ms left of the 5000 ms timeout of the effect *)
  done_timers : list Z;        (* ms left of each 1000 ms timeout of finally *)
  published : list number;     (* every value handed to setProgress, oldest first *)
  downloads : list Download
}.

Definition MSG_SIZE_LIMIT : string := "ファイルサイズが大きすぎます (1GB制限)".
Definition MSG_LOAD_ERROR : string := "エンジンの読み込みエラー: ".
Definition MSG_PROCESSING : string := "処理中... (MP4変換 / 高速モード)".
Definition MSG_READING : string := "ファイルを読み込んでいます...".
Definition MSG_ENCODING : string := "エンコードを実行中...".
Definition MSG_GENERATING : string := "ファイルを生成中...".
Definition MSG_DONE : string := "完了しました！".
(** The export error of the newer revision; the older one appends
    ["コンソールを確認してください。"]. *)
Definition MSG_EXPORT_ERROR : string := "書き出し中にエラーが発生しました。".

Definition SIZE_LIMIT : Z := 1024 * 1024 * 1024.

(** *** State setters *)

Definition with_st (f : AppState -> AppState) (w : World) : World :=
  mkWorld (f (st w)) (ffmpeg w) (init_load w) (pending w) (deps w)
          (slow_timer w) (done_timers w) (published w) (downloads w).

Definition with_ffmpeg (f : Engine -> Engine) (w : World) : World :=
  mkWorld (st w) (f (ffmpeg w)) (init_load w) (pending w) (deps w)
          (slow_timer w) (done_timers w) (published w) (downloads w).

Definition set_init_load (b : bool) (w : World) : World :=
  mkWorld (st w) (ffmpeg w) b (pending w) (deps w)
          (slow_timer w) (done_timers w) (published w) (downloads w).

Definition set_pending (p : Pending) (w : World) : World :=
  mkWorld (st w) (ffmpeg w) (init_load w) p (deps w)
          (slow_timer w) (done_timers w) (published w) (downloads w).

Definition set_deps (d : bool * number) (w : World) : World :=
  mkWorld (st w) (ffmpeg w) (init_load w) (pending w) d
          (slow_timer w) (done_timers w) (published w) (downloads w).

Definition set_slow_timer (t : option Z) (w : World) : World :=
  mkWorld (st w) (ffmpeg w) (init_load w) (pending w) (deps w)
          t (done_timers w) (published w) (downloads w).

Definition set_done_timers (l : list Z) (w : World) : World :=
  mkWorld (st w) (ffmpeg w) (init_load w) (pending w) (deps w)
          (slow_timer w) l (published w) (downloads w).

Definition set_published (l : list number) (w : World) : World :=
  mkWorld (st w) (ffmpeg w) (init_load w) (pending w) (deps w)
          (slow_timer w) (done_timers w) l (downloads w).

Definition set_downloads (l : list Download) (w : World) : World :=
  mkWorld (st w) (ffmpeg w) (init_load w) (pending w) (deps w)
          (slow_timer w) (done_timers w) (published w) l.

Definition st_setReady (b : bool) (s : AppState) : AppState :=
  mkAppState b (videoFile s) (duration s) (range s) (progress s)
             (isProcessing s) (message s) (error s) (isSlow s) (progressRef s).

Definition st_setVideoFile (f : option File) (s : AppState) : AppState :=
  mkAppState (ready s) f (duration s) (range s) (progress s)
             (isProcessing s) (message s) (error s) (isSlow s) (progressRef s).

Definition st_setDuration (d : number) (s : AppState) : AppState :=
  mkAppState (ready s) (videoFile s) d (range s) (progress s)
             (isProcessing s) (message s) (error s) (isSlow s) (progressRef s).

Definition st_setRange (r : number * number) (s : AppState) : AppState :=
  mkAppState (ready s) (videoFile s) (duration s) r (progress s)
             (isProcessing s) (message s) (error s) (isSlow s) (progressRef s).

Definition st_setProgress (p : number) (s : AppState) : AppState :=
  mkAppState (ready s) (videoFile s) (duration s) (range s) p
             (isProcessing s) (message s) (error s) (isSlow s) (progressRef s).

Definition st_setIsProcessing (b : bool) (s : AppState) : AppState :=
  mkAppState (ready s) (videoFile s) (duration s) (range s) (progress s)
             b (message s) (error s) (isSlow s) (progressRef s).

Definition st_setMessage (m : string) (s : AppState) : AppState :=
  mkAppState (ready s) (videoFile s) (duration s) (range s) (progress s)
             (isProcessing s) m (error s) (isSlow s) (progressRef s).

Definition st_setError (e : string) (s : AppState) : AppState :=
  mkAppState (ready s) (videoFile s) (duration s) (range s) (progress s)
             (isProcessing s) (message s) e (isSlow s) (progressRef s).

Definition st_setIsSlow (b : bool) (s : AppState) : AppState :=
  mkAppState (ready s) (videoFile s) (duration s) (range s) (progress s)
             (isProcessing s) (message s) (error s) b (progressRef s).

Definition st_setProgressRef (p : number) (s : AppState) : AppState :=
  mkAppState (ready s) (videoFile s) (duration s) (range s) (progress s)
             (isProcessing s) (message s) (error s) (isSlow s) p.

Definition setReady b := with_st (st_setReady b).
Definition setVideoFile f := with_st (st_setVideoFile f).
Definition setDuration d := with_st (st_setDuration d).
Definition setRange r := with_st (st_setRange r).
Definition setIsProcessing b := with_st (st_setIsProcessing b).
Definition setMessage m := with_st (st_setMessage m).
Definition setError e := with_st (st_setError e).
Definition setIsSlow b := with_st (st_setIsSlow b).
Definition setProgressRef p := with_st (st_setProgressRef p).

(** [setProgress(p)]; the call is also recorded in [published]. *)
Definition setProgress (p : number) (w : World) : World :=
  set_published (published w ++ [p]) (with_st (st_setProgress p) w).

Definition eng_setLoaded (b : bool) (e : Engine) : Engine :=
  mkEngine b (logger e) (fs e).
Definition eng_setLogger (l : Logger) (e : Engine) : Engine :=
  mkEngine (loaded e) l (fs e).
Definition eng_setFS (f : FS) (e : Engine) : Engine :=
  mkEngine (loaded e) (logger e) f.

Definition setLogger l := with_ffmpeg (eng_setLogger l).

(** *** Handlers *)

(** [handleFileChange]; [file] is [e.target.files?.item(0)]. *)
Definition handleFileChange (file : option File) (w : World) : World :=
  match file with
  | Some f =>
      if (SIZE_LIMIT <? size f)%Z then setError MSG_SIZE_LIMIT w
      else
        let w := setError "" w in
        let w := setVideoFile (Some f) w in
        setRange (num_of_Z 0, num_of_Z 10) w
  | None => w
  end.

(** [handleLoadedMetadata]; [dur] is [videoRef.current.duration]. *)
Definition handleLoadedMetadata (dur : number) (w : World) : World :=
  let w := setDuration dur w in
  setRange (num_of_Z 0, Math_min dur (num_of_Z 10)) w.

(** [handleSliderChange] on an array argument. *)
Definition handleSliderChange (newRange : number * number) (w : World) : World :=
  setRange newRange w.

(** The names used on the virtual filesystem. *)
Definition extension_of (fileName : string) : string :=
  toLowerCase (or_default (pop (split "." fileName)) "mp4").

Definition safe_input_name (fileName : string) : string :=
  "input_source." ++ extension_of fileName.

Definition safe_output_name : string := "output_processed.mp4".

(** An argument of [ffmpeg.run]: a literal, or [String(n)] of a number,
    kept symbolic. *)
Inductive Arg : Type :=
| AStr (s : string)
| ANum (n : number).

Definition run_args (j : Job) : list Arg :=
  [ AStr "-ss"; ANum (startTime j);
    AStr "-i"; AStr (safeInputName j);
    AStr "-t"; ANum (durationTime j);
    AStr "-c:v"; AStr "libx264";
    AStr "-preset"; AStr "ultrafast";
    AStr "-pix_fmt"; AStr "yuv420p";
    AStr "-c:a"; AStr "aac";
    AStr "-movflags"; AStr "+faststart";
    AStr "-avoid_negative_ts"; AStr "make_zero";
    AStr (safeOutputName j) ].

(** The [finally] block of [handleExport]. *)
Definition export_finally (w : World) : World :=
  let w := setLogger NoopLogger w in
  let w := set_done_timers (done_timers w ++ [1000]) w in
  set_pending PIdle w.

(** The [catch] block of [handleExport], followed by [finally]. *)
Definition export_catch (w : World) : World :=
  let w := setError MSG_EXPORT_ERROR w in
  let w := setMessage "" w in
  export_finally w.

(** [handleExport] up to its first [await]. *)
Definition handleExport (w : World) : World :=
  match videoFile (st w) with
  | None => w
  | Some f =>
      let rng := range (st w) in
      let w := setIsProcessing true w in
      let w := setMessage MSG_PROCESSING w in
      let w := setProgress (num_of_Z 0) w in
      let w := setProgressRef (num_of_Z 0) w in
      let w := setIsSlow false w in
      let j := {| job_file := f;
                  safeInputName := safe_input_name (name f);
                  safeOutputName := safe_output_name;
                  startTime := fst rng;
                  endTime := snd rng;
                  durationTime := num_sub (snd rng) (fst rng) |} in
      let w := setLogger (ProgressLogger (durationTime j)) w in
      let w := setMessage MSG_READING w in
      if loaded (ffmpeg w) then set_pending (PFetch j) w
      else set_pending (PLoad j) w
  end.

(** [handleExport] resumed when [ffmpeg.load()] settles; [Some e] is a
    rejection. *)
Definition export_after_load (j : Job) (r : option string) (w : World) : World :=
  match r with
  | Some _ => export_catch w
  | None => set_pending (PFetch j) (with_ffmpeg (eng_setLoaded true) w)
  end.

(** [handleExport] resumed when [fetchFile(videoFile)] settles: the bytes
    are written under the safe input name and [ffmpeg.run] is started.
    [FS] throws when the engine is not loaded. *)
Definition export_after_fetch (j : Job) (r : option string) (w : World) : World :=
  match r with
  | Some _ => export_catch w
  | None =>
      if loaded (ffmpeg w) then
        let w := with_ffmpeg
                   (fun e => eng_setFS
                      (fs_write (safeInputName j) (content (job_file j)) (fs e)) e) w in
        let w := setMessage MSG_ENCODING w in
        set_pending (PRun j) w
      else export_catch w
  end.

(** The cleanup [try { unlink input; unlink output } catch { }]: an
    [unlink] of an absent file throws and the rest is skipped. *)
Definition export_cleanup (j : Job) (f : FS) : FS :=
  match fs_read (safeInputName j) f with
  | None => f
  | Some _ =>
      let f := fs_unlink (safeInputName j) f in
      match fs_read (safeOutputName j) f with
      | None => f
      | Some _ => fs_unlink (safeOutputName j) f
      end
  end.

(** [handleExport] resumed when [ffmpeg.run(...)] settles.  [output] is
    the file the engine left under the output name, if any. *)
Definition export_after_run (j : Job) (output : option bytes) (r : option string)
    (w : World) : World :=
  let w := match output with
           | Some b =>
               with_ffmpeg
                 (fun e => eng_setFS (fs_write (safeOutputName j) b (fs e)) e) w
           | None => w
           end in
  match r with
  | Some _ => export_catch w
  | None =>
      let w := setMessage MSG_GENERATING w in
      match fs_read (safeOutputName j) (fs (ffmpeg w)) with
      | None => export_catch w
      | Some data =>
          let w := set_downloads
                     (downloads w ++ [mkDownload data (startTime j) (endTime j)]) w in
          let w := with_ffmpeg
                     (fun e => eng_setFS (export_cleanup j (fs e)) e) w in
          let w := setMessage MSG_DONE w in
          let w := setProgress (num_of_Z 100) w in
          export_finally w
      end
  end.

(** A log line of the engine, handed to the installed logger. *)
Definition engine_log (line : string) (w : World) : World :=
  match logger (ffmpeg w) with
  | ProgressLogger d =>
      match progress_of_line d line with
      | Some percent => setProgressRef percent (setProgress percent w)
      | None => w
      end
  | LogOnly | NoopLogger => w
  end.

(** [loadFFmpeg] resumed when its [ffmpeg.load()] settles. *)
Definition init_load_settled (r : option string) (w : World) : World :=
  let w := set_init_load false w in
  match r with
  | None => setReady true (with_ffmpeg (eng_setLoaded true) w)
  | Some msg => setError (MSG_LOAD_ERROR ++ msg) w
  end.

(** *** The slow-processing effect *)

(** The body of the effect on [[isProcessing, progress]], preceded by the
    cleanup of its previous run ([clearTimeout]). *)
Definition slow_effect (w : World) : World :=
  let w := set_slow_timer None w in
  if (isProcessing (st w) && num_eqb (progress (st w)) (num_of_Z 0))%bool
  then set_slow_timer (Some 5000) w
  else setIsSlow false w.

Definition deps_same (a b : bool * number) : bool :=
  (Bool.eqb (fst a) (fst b) && num_same (snd a) (snd b))%bool.

(** A render commit: the effect runs when one of its dependencies changed. *)
Definition commit (w : World) : World :=
  let d := (isProcessing (st w), progress (st w)) in
  if deps_same (deps w) d then w else slow_effect (set_deps d w).

(** One millisecond passes for the 5000 ms timeout. *)
Definition tick_slow (w : World) : World :=
  match slow_timer w with
  | Some r =>
      if (r <=? 1)%Z then setIsSlow true (set_slow_timer None w)
      else set_slow_timer (Some (r - 1)) w
  | None => w
  end.

(** One millisecond passes for the 1000 ms timeouts. *)
Definition tick_done (w : World) : World :=
  let due := filter (fun r => (r <=? 1)%Z) (done_timers w) in
  let rest := map (fun r => r - 1) (filter (fun r => negb (r <=? 1)%Z) (done_timers w)) in
  let w := set_done_timers rest w in
  match due with
  | [] => w
  | _ :: _ => setIsProcessing false w
  end.

Definition tick (w : World) : World :=
  commit (tick_done (commit (tick_slow w))).

(** *** Events *)

Inductive Event : Type :=
| InitLoadSettled (r : option string)
| FileChange (file : option File)
| LoadedMetadata (dur : number)
| SliderChange (newRange : number * number)
| ClearFile
| ExportClick
| LoadSettled (r : option string)
| FetchSettled (r : option string)
| RunSettled (output : option bytes) (r : option string)
| EngineLog (line : string)
| Tick.

Definition has_file (w : World) : bool :=
  match videoFile (st w) with Some _ => true | None => false end.

(** What the handlers do on an event.  The guards are those of the
    markup: the file input exists while no file is selected and is disabled
    until [ready]; the editor exists while a file is selected; the export
    button is disabled while [isProcessing]. *)
Definition handle (e : Event) (w : World) : World :=
  match e with
  | InitLoadSettled r => if init_load w then init_load_settled r w else w
  | FileChange file =>
      if (ready (st w) && negb (has_file w))%bool then handleFileChange file w else w
  | LoadedMetadata dur => if has_file w then handleLoadedMetadata dur w else w
  | SliderChange r => if has_file w then handleSliderChange r w else w
  | ClearFile => if has_file w then setVideoFile None w else w
  | ExportClick =>
      if (has_file w && negb (isProcessing (st w)))%bool then handleExport w else w
  | LoadSettled r =>
      match pending w with PLoad j => export_after_load j r w | _ => w end
  | FetchSettled r =>
      match pending w with PFetch j => export_after_fetch j r w | _ => w end
  | RunSettled out r =>
      match pending w with PRun j => export_after_run j out r w | _ => w end
  | EngineLog line => engine_log line w
  | Tick => w
  end.

Definition step (w : World) (e : Event) : World :=
  match e with
  | Tick => tick w
  | _ => commit (handle e w)
  end.

Definition run (w : World) (es : list Event) : World := fold_left step es w.

Definition initial_state : AppState :=
  {| ready := false; videoFile := None; duration := num_of_Z 0;
     range := (num_of_Z 0, num_of_Z 10); progress := num_of_Z 0;
     isProcessing := false; message := ""; error := ""; isSlow := false;
     progressRef := num_of_Z 0 |}.

(** The component after mounting: the logger of the first effect is
    installed, [loadFFmpeg] awaits the engine, and the slow-processing
    effect has run once. *)
Definition initial_world : World :=
  {| st := initial_state;
     ffmpeg := {| loaded := false; logger := LogOnly; fs := [] |};
     init_load := true;
     pending := PIdle;
     deps := (false, num_of_Z 0);
     slow_timer := None;
     done_timers := [];
     published := [];
     downloads := [] |}.

(** ** Definitions used to state the properties *)

(** The extension in the words of the specification: the substring after
    the last dot of the file name, [None] when the name has no dot. *)
Fixpoint after_last_dot (s : string) : option string :=
  match s with
  | EmptyString => None
  | String c s' =>
      match after_last_dot s' with
      | Some e => Some e
      | None => if Ascii.eqb c "." then Some s' else None
      end
  end.


Definition pending_job (p : Pending) : option Job :=
  match p with
  | PIdle => None
  | PLoad j | PFetch j | PRun j => Some j
  end.

(** A world in which the engine is loaded and [f] is selected. *)
Definition world_with_file (f : File) : World :=
  setVideoFile (Some f)
    (setReady true (with_ffmpeg (eng_setLoaded true) (set_init_load false initial_world))).

(** The order [x <= y] as a proposition. *)
Definition num_le (x y : number) : Prop := num_leb x y = true.

(** A function on numbers that preserves the order. *)
Definition monotone (f : number -> number) : Prop :=
  forall x y : number, num_le x y -> num_le (f x) (f y).

(** The number denoted by a binary64 datum of the Standard Library's
    reference implementation of IEEE 754 ([SpecFloat]), and the datum of an
    integer. *)
Definition of_spec (x : spec_float) : number :=
  match x with
  | S754_zero _ => Fin 0%Qc
  | S754_infinity s => if s then NegInf else PosInf
  | S754_nan => NaN
  | S754_finite s m e =>
      Fin (Q2Qc ((if s then - inject_Z (Zpos m) else inject_Z (Zpos m)) * pow2 e)%Q)
  end.

Definition spec_of_Z (z : Z) : spec_float := binary_normalize 53 1024 z 0 false.

(** [Math.max] of two arguments. *)
Definition Math_max (x y : number) : number :=
  match x, y with
  | NaN, _ | _, NaN => NaN
  | PosInf, _ | _, PosInf => PosInf
  | NegInf, z | z, NegInf => z
  | Fin a, Fin b => if Qle_bool a b then y else x
  end.

(** The percentage in the words of the specification: the timestamp over
    the requested duration, as a percentage, clamped to [0,100], then
    rounded to the nearest integer. *)
Definition spec_percent (durationTime currentTime : number) : number :=
  Math_round
    (Math_max (num_of_Z 0)
       (Math_min (num_mul (num_div currentTime durationTime) (num_of_Z 100))
                 (num_of_Z 100))).

(** The elements of a list on which [f] is defined, in order. *)
Fixpoint collect {A B : Type} (f : A -> option B) (l : list A) : list B :=
  match l with
  | [] => []
  | x :: l' =>
      match f x with
      | Some y => y :: collect f l'
      | None => collect f l'
      end
  end.

Fixpoint all_digits (s : string) : bool :=
  match s with
  | EmptyString => true
  | String c s' => (is_digit c && all_digits s')%bool
  end.

(** The raw timestamp a log line carries, if the pattern matches. *)
Definition line_time (line : string) : option number :=
  option_map parseFfmpegTime (match_time line).

(** The values the progress logger publishes for a sequence of lines. *)
Definition sink_outputs (durationTime : number) (lines : list string) : list number :=
  collect (progress_of_line durationTime) lines.

Fixpoint nums_same (l1 l2 : list number) : bool :=
  match l1, l2 with
  | [], [] => true
  | x :: l1', y :: l2' => (num_same x y && nums_same l1' l2')%bool
  | _, _ => false
  end.

(** The condition under which the effect arms its timeout. *)
Definition stalled (w : World) : bool :=
  (isProcessing (st w) && num_eqb (progress (st w)) (num_of_Z 0))%bool.

(** The job is at [await ffmpeg.run(...)]. *)
Definition encoding (w : World) : bool :=
  match pending w with PRun _ => true | _ => false end.

Definition reachable (w : World) : Prop :=
  exists es : list Event, w = run initial_world es.

(** [p] holds in [w] and in every world met while [es] is processed. *)
Fixpoint always (p : World -> bool) (w : World) (es : list Event) : bool :=
  (p w && match es with
          | [] => true
          | e :: es' => always p (step w e) es'
          end)%bool.

(** The job is encoding and its progress is exactly 0. *)
Definition encoding_at_zero (w : World) : bool :=
  (encoding w && num_eqb (progress (st w)) (num_of_Z 0))%bool.

(** The milliseconds that pass in a sequence of events. *)
Fixpoint elapsed (es : list Event) : Z :=
  match es with
  | [] => 0
  | Tick :: es' => 1 + elapsed es'
  | _ :: es' => elapsed es'
  end.

(** The outcome a finished export shows: the success message with full
    progress and a download, or the export error (with the text of the
    newer revision). *)
Definition succeeded (w : World) : Prop :=
  message (st w) = MSG_DONE /\ progress (st w) = num_of_Z 100.

Definition failed (w : World) : Prop :=
  error (st w) = MSG_EXPORT_ERROR /\ message (st w) = "".

(** Milliseconds left of the pending 5000 ms timeout, 0 when none is
    pending. *)
Definition slow_left (w : World) : Z :=
  match slow_timer w with Some r => r | None => 0 end.

(** Two worlds that differ at most in the [isSlow] flag. *)
Definition same_but_slow (x y : World) : Prop :=
  setIsSlow false x = setIsSlow false y.

(** The slow-processing monitor is consistent with the state: the deps of
    the last effect run are the current ones; while [isProcessing] holds
    with progress 0 either the timeout is pending and the flag is down, or
    it has fired and the flag is up; otherwise no timeout is pending and the
    flag is down. *)
Definition monitor_inv (w : World) : Prop :=
  deps w = (isProcessing (st w), progress (st w))
  /\ if stalled w
     then (slow_timer w = None /\ isSlow (st w) = true)
          \/ (exists r : Z, slow_timer w = Some r /\ (1 <= r <= 5000)%Z
                            /\ isSlow (st w) = false)
     else slow_timer w = None /\ isSlow (st w) = false.

(** The phases of the export: a job is running; a job has finished and
    its 1000 ms timeout is pending; no job and no timeout. *)
Definition phase_inv (w : World) : Prop :=
  (pending w <> PIdle /\ isProcessing (st w) = true /\ done_timers w = [])
  \/ (pending w = PIdle /\ isProcessing (st w) = true
      /\ exists r : Z, done_timers w = [r] /\ (1 <= r <= 1000)%Z)
  \/ (pending w = PIdle /\ isProcessing (st w) = false /\ done_timers w = []).

Definition world_inv (w : World) : Prop := monitor_inv w /\ phase_inv w.

(** Text of ASCII characters only: every byte is below 128. *)
Definition is_ascii (c : ascii) : bool := (N_of_ascii c <? 128)%N.

Fixpoint ascii_only (s : string) : bool :=
  match s with
  | EmptyString => true
  | String c s' => (is_ascii c && ascii_only s')%bool
  end.

(** A finished export: no promise is awaited, an outcome is shown, the
    progress logger is replaced by the one that does nothing, the 1000 ms
    timeout of [finally] is pending, after 1000 ms the job is no longer
    marked as in progress and a click on the export button starts a new
    job. *)
Definition terminal (w : World) : Prop :=
  pending w = PIdle
  /\ (succeeded w \/ failed w)
  /\ logger (ffmpeg w) = NoopLogger
  /\ In 1000%Z (done_timers w)
  /\ isProcessing (st (run w (repeat Tick 1000))) = false
  /\ (forall f : File,
         videoFile (st w) = Some f ->
         exists j : Job,
           pending_job (pending (run w (repeat Tick 1000 ++ [ExportClick]))) = Some j).

(** ** The undo history of [hooks/useHistory.ts]

    The callbacks of the hook close over the history of the render that
    created them ([c] below) and hand the new history to [setHistory]; only
    the non-committing [setState] updates the history React holds at the
    time of the call ([prev] below).  [strict_eq] is [===] on [T]. *)

Module History.
Section Hook.

Variable T : Type.
Variable strict_eq : T -> T -> bool.

Record HistoryState : Type := mkHistory {
  past : list T;
  present : T;
  future : list T
}.

(** The history [useState] starts from. *)
Definition init (initialState : T) : HistoryState :=
  {| past := []; present := initialState; future := [] |}.

(** [past.length > 0] and [future.length > 0] *)
Definition canUndo (c : HistoryState) : bool :=
  (0 <? List.length (past c))%nat.

Definition canRedo (c : HistoryState) : bool :=
  (0 <? List.length (future c))%nat.

(** [undo]: [past[past.length - 1]] becomes the present,
    [past.slice(0, past.length - 1)] the past. *)
Definition undo (c prev : HistoryState) : HistoryState :=
  if canUndo c then
    {| past := removelast (past c);
       present := last (past c) (present c);
       future := present c :: future c |}
  else prev.

(** [redo]: [future[0]] becomes the present, [future.slice(1)] the future. *)
Definition redo (c prev : HistoryState) : HistoryState :=
  if canRedo c then
    {| past := past c ++ [present c];
       present := hd (present c) (future c);
       future := tl (future c) |}
  else prev.

(** [setState(newState, shouldCommit)] *)
Definition setState (newState : T) (shouldCommit : bool) (c prev : HistoryState)
  : HistoryState :=
  if strict_eq newState (present c) then prev
  else if shouldCommit then
    {| past := past c ++ [present c]; present := newState; future := [] |}
  else
    {| past := past prev; present := newState; future := future prev |}.

(** Everything the history holds, oldest first. *)
Definition timeline (h : HistoryState) : list T :=
  past h ++ present h :: future h.

End Hook.

Arguments mkHistory {T}.
Arguments past {T}.
Arguments present {T}.
Arguments future {T}.
Arguments init {T}.
Arguments canUndo {T}.
Arguments canRedo {T}.
Arguments undo {T}.
Arguments redo {T}.
Arguments setState {T}.
Arguments timeline {T}.

(** The callbacks of the current render, called one at a time. *)
Definition undo1 {T : Type} (h : HistoryState T) : HistoryState T := undo h h.
Definition redo1 {T : Type} (h : HistoryState T) : HistoryState T := redo h h.
Definition commit1 {T : Type} (strict_eq : T -> T -> bool) (h : HistoryState T) (x : T)
  : HistoryState T := setState strict_eq x true h h.
Definition transient1 {T : Type} (strict_eq : T -> T -> bool) (h : HistoryState T) (x : T)
  : HistoryState T := setState strict_eq x false h h.

(** No two neighbours of the list are [===]. *)
Fixpoint changes {T : Type} (strict_eq : T -> T -> bool) (cur : T) (xs : list T) : bool :=
  match xs with
  | [] => true
  | x :: xs' => (negb (strict_eq x cur) && changes strict_eq x xs')%bool
  end.

End History.

(** ** Invariants of the user interface, used to state further properties *)

(** The closure of a job is built from a file within the size limit. *)
Definition job_ok (j : Job) : Prop :=
  (size (job_file j) <= SIZE_LIMIT)%Z
  /\ safeInputName j = safe_input_name (name (job_file j))
  /\ safeOutputName j = safe_output_name.

(** A selected file is within the size limit and was selected with the
    engine ready; [ready] means the engine is loaded; the progress logger is
    installed exactly while [handleExport] is suspended; while the engine
    runs the input is on its filesystem. *)
Definition ui_inv (w : World) : Prop :=
  (forall f : File,
      videoFile (st w) = Some f -> (size f <= SIZE_LIMIT)%Z /\ ready (st w) = true)
  /\ (ready (st w) = true -> loaded (ffmpeg w) = true /\ init_load w = false)
  /\ match pending w with
     | PIdle => forall d : number, logger (ffmpeg w) <> ProgressLogger d
     | PLoad _ => False
     | PFetch j =>
         job_ok j /\ ready (st w) = true
         /\ logger (ffmpeg w) = ProgressLogger (durationTime j)
     | PRun j =>
         job_ok j /\ ready (st w) = true
         /\ logger (ffmpeg w) = ProgressLogger (durationTime j)
         /\ fs_read (safeInputName j) (fs (ffmpeg w)) = Some (content (job_file j))
     end.

(** The world after a failed load of the engine: nothing is selectable. *)
Definition load_failed (msg : string) (w : World) : Prop :=
  ready (st w) = false /\ init_load w = false /\ loaded (ffmpeg w) = false /\ logger (ffmpeg w) = LogOnly
  /\ videoFile (st w) = None /\ pending w = PIdle
  /\ isProcessing (st w) = false /\ error (st w) = MSG_LOAD_ERROR ++ msg
  /\ published w = [] /\ downloads w = [] /\ fs (ffmpeg w) = [].

(** The job that a click on the export button builds. *)
Definition job_of (w : World) (f : File) : Job :=
  {| job_file := f;
     safeInputName := safe_input_name (name f);
     safeOutputName := safe_output_name;
     startTime := fst (range (st w));
     endTime := snd (range (st w));
     durationTime := num_sub (snd (range (st w))) (fst (range (st w))) |}.


(** The stall flag is down and the pending timeout, if any, has at least
    [k] milliseconds left. *)
Definition quiet_for (k : Z) (w : World) : Prop :=
  isSlow (st w) = false /\ forall r : Z, slow_timer w = Some r -> (k <= r)%Z.

(** The whole seconds a capture [HH:MM:SS.frac] denotes. *)
Definition whole_seconds (cap : string) : Z :=
  3600 * digits_val 0 (substring 0 2 cap)
  + 60 * digits_val 0 (substring 3 2 cap)
  + digits_val 0 (substring 6 2 cap).

(** ** Numbers to strings *)

(** [Math.floor] *)
Definition Math_floor (x : number) : number :=
  match x with
  | Fin q => Fin (Q2Qc (inject_Z (Qfloor q)))
  | _ => x
  end.

(** The integer part of a rational: the quotient truncated towards zero. *)
Definition Qtrunc (q : Q) : Z := Z.quot (Qnum q) (Zpos (Qden q)).

(** [x % y]: what is left of [x] after the multiple of [y] given by the
    quotient truncated towards zero, rounded as [Number::remainder] says. *)
Definition num_rem (x y : number) : number :=
  match x, y with
  | NaN, _ | _, NaN => NaN
  | PosInf, _ | NegInf, _ => NaN
  | Fin _, PosInf | Fin _, NegInf => x
  | Fin a, Fin b =>
      if Qeq_bool b 0 then NaN
      else rnd (a - b * inject_Z (Qtrunc (a / b)))%Q
  end.

Definition digit_char (d : Z) : ascii := ascii_of_N (Z.to_N (48 + d)).

(** The [k] decimal digits of [s], most significant first, for
    [0 <= s < 10^k]. *)
Fixpoint digits_of (k : nat) (s : Z) : string :=
  match k with
  | O => EmptyString
  | S k' =>
      String (digit_char (s / 10 ^ Z.of_nat k'))
             (digits_of k' (s mod 10 ^ Z.of_nat k'))
  end.

(** Without the leading zeros, the last digit apart. *)
Fixpoint strip_zeros (s : string) : string :=
  match s with
  | String c s' =>
      if (Ascii.eqb c "0" && negb (String.eqb s' EmptyString))%bool
      then strip_zeros s' else s
  | EmptyString => EmptyString
  end.

(** The decimal representation of a natural number. *)
Definition decimal (n : Z) : string :=
  strip_zeros (digits_of (S (Z.to_nat (Z.log2 n))) n).

Fixpoint zeros (n : nat) : string :=
  match n with
  | O => EmptyString
  | S n' => String "0" (zeros n')
  end.

(** The decimal exponent of a positive rational:
    [10^(ilog10 q) <= q < 10^(ilog10 q + 1)]. *)
Fixpoint ilog10_up (fuel : nat) (q : Q) (e : Z) : Z :=
  match fuel with
  | O => e
  | S f => if Qle_bool (10 ^ (e + 1)) q then ilog10_up f q (e + 1) else e
  end.

Fixpoint ilog10_down (fuel : nat) (q : Q) (e : Z) : Z :=
  match fuel with
  | O => e
  | S f => if Qle_bool (10 ^ e) q then e else ilog10_down f q (e - 1)
  end.

Definition ilog10 (q : Q) : Z :=
  if Qle_bool 1 q then ilog10_up (S (Z.to_nat (Z.log2 (Qnum q)))) q 0
  else ilog10_down (S (Z.to_nat (Z.log2 (Zpos (Qden q))))) q (-1).

(** Step 5 of [Number::toString] for [k] digits: the integers [s] next to
    [q / 10^(n - k)], with [n = e + 1], for which [s * 10^(n - k)] rounds to
    [x]; of two, the one closer to [q], the even one when they are equally
    close.  The result is [(s, n)]. *)
Definition shortest_at (x : number) (q : Q) (e k : Z) : option (Z * Z) :=
  let p := e + 1 - k in
  let lo := Qfloor (q / 10 ^ p) in
  let hi := lo + 1 in
  let ok := fun s : Z => num_same (rnd (inject_Z s * 10 ^ p)) x in
  let pick := fun s : Z => if (s =? 10 ^ k)%Z then (10 ^ (k - 1), e + 2) else (s, e + 1) in
  match ok lo, ok hi with
  | true, true =>
      match (q / 10 ^ p - inject_Z lo ?= 1 # 2)%Q with
      | Lt => Some (pick lo)
      | Gt => Some (pick hi)
      | Eq => Some (pick (if Z.even lo then lo else hi))
      end
  | true, false => Some (pick lo)
  | false, true => Some (pick hi)
  | false, false => None
  end.

(** The least number of digits [k], with [s] and [n]. *)
Fixpoint shortest (fuel : nat) (x : number) (q : Q) (e k : Z) : Z * Z * Z :=
  match fuel with
  | O => (Qfloor (q / 10 ^ (e + 1 - k)), e + 1, k)
  | S f =>
      match shortest_at x q e k with
      | Some (s, n) => (s, n, k)
      | None => shortest f x q e (k + 1)
      end
  end.

(** Steps 5 to 10 of [Number::toString] for a positive number. *)
Definition pos_toString (q : Q) : string :=
  let '(s, n, k) := shortest 17 (Fin (Q2Qc q)) q (ilog10 q) 1 in
  let ds := digits_of (Z.to_nat k) s in
  if ((k <=? n)%Z && (n <=? 21)%Z)%bool then ds ++ zeros (Z.to_nat (n - k))
  else if ((0 <? n)%Z && (n <=? 21)%Z)%bool then
    substring 0 (Z.to_nat n) ds ++ "." ++ substring (Z.to_nat n) (Z.to_nat (k - n)) ds
  else if ((-6 <? n)%Z && (n <=? 0)%Z)%bool then "0." ++ zeros (Z.to_nat (- n)) ++ ds
  else
    let ex := (if (0 <=? n - 1)%Z then "+" else "-") ++ decimal (Z.abs (n - 1)) in
    if (k =? 1)%Z then ds ++ "e" ++ ex
    else substring 0 1 ds ++ "." ++ substring 1 (Z.to_nat (k - 1)) ds ++ "e" ++ ex.

(** [Number::toString(x)] in radix 10, also [String(x)] and [`${x}`]. *)
Definition Number_toString (x : number) : string :=
  match x with
  | NaN => "NaN"
  | PosInf => "Infinity"
  | NegInf => "-Infinity"
  | Fin q =>
      match (q ?= 0)%Q with
      | Eq => "0"
      | Gt => pos_toString q
      | Lt => "-" ++ pos_toString (- q)
      end
  end.

(** [s.padStart(n, c)] for a one-character filler. *)
Definition padStart (n : nat) (c : ascii) (s : string) : string :=
  string_of_list_ascii (repeat c (n - String.length s)) ++ s.

(** ** Time display *)

(** [formatTime]: seconds to [M:SS]. *)
Definition formatTime (seconds : number) : string :=
  let m := Math_floor (num_div seconds (num_of_Z 60)) in
  let s := Math_floor (num_rem seconds (num_of_Z 60)) in
  Number_toString m ++ ":" ++ padStart 2 "0" (Number_toString s).

(** A rational that is a binary64 value: rounding leaves it as it is. *)
Definition is_double (x : Qc) : Prop := rnd x = Fin x.

(** The events that resume a suspended [handleExport]. *)
Definition settles (e : Event) : bool :=
  match e with
  | LoadSettled _ | FetchSettled _ | RunSettled _ _ => true
  | _ => false
  end.
(** * Properties *)

(** ** Numbers: equality *)

Lemma num_same_eq (x y : number) : num_same x y = true -> x = y.
Proof.
  destruct x as [| |a|], y as [| |b|]; simpl; try discriminate; try reflexivity.
  intros H. apply Qeq_bool_iff in H. f_equal. now apply Qc_is_canon.
Qed.

Lemma num_same_refl (x : number) : num_same x x = true.
Proof.
  destruct x as [| |a|]; simpl; try reflexivity.
  apply Qeq_bool_iff. reflexivity.
Qed.

(** Equalities between closed numbers are settled by evaluation. *)
Ltac num_compute := apply num_same_eq; vm_compute; reflexivity.

(** ** Time codec *)

Lemma split_nonempty (c : ascii) (s : string) : split c s <> [].
Proof.
  destruct s as [|a s']; simpl; [discriminate|].
  destruct (Ascii.eqb a c); [discriminate|].
  destruct (split c s'); discriminate.
Qed.

(** C7: [parseFfmpegTime] turns [HH:MM:SS.frac] into [h*3600 + m*60 + s];
    ["00:01:30.50"] gives 90.5; fewer than three colon-delimited parts give
    0, so ["garbage"] gives 0. *)
Theorem parseFfmpegTime_spec :
  parseFfmpegTime "00:01:30.50" = Fin (Q2Qc (181 # 2))
  /\ parseFfmpegTime "garbage" = num_of_Z 0
  /\ (forall timeStr : string,
        (List.length (split ":" timeStr) < 3)%nat ->
        parseFfmpegTime timeStr = num_of_Z 0)
  /\ (forall (timeStr p0 p1 p2 : string) (rest : list string),
        split ":" timeStr = p0 :: p1 :: p2 :: rest ->
        parseFfmpegTime timeStr =
        num_add (num_add (num_mul (parseFloat p0) (num_of_Z 3600))
                         (num_mul (parseFloat p1) (num_of_Z 60)))
                (parseFloat p2)).
Proof.
  split; [num_compute|]. split; [num_compute|]. split.
  - intros timeStr H. unfold parseFfmpegTime.
    destruct (split ":" timeStr) as [|p0 [|p1 [|p2 rest]]]; try reflexivity.
    simpl in H. lia.
  - intros timeStr p0 p1 p2 rest H. unfold parseFfmpegTime. now rewrite H.
Qed.

Lemma parseFfmpegTime_spec_witness :
  parseFfmpegTime "12:34" = num_of_Z 0
  /\ parseFfmpegTime "01:02:03.5:tail" =
     num_add (num_add (num_mul (parseFloat "01") (num_of_Z 3600))
                      (num_mul (parseFloat "02") (num_of_Z 60)))
             (parseFloat "03.5").
Proof.
  destruct parseFfmpegTime_spec as (_ & _ & Hshort & Hlong). split.
  - apply Hshort. simpl. lia.
  - apply (Hlong _ "01" "02" "03.5" ["tail"]). reflexivity.
Defined.

(** C10: with three or more colon-delimited parts the parts are handed to
    [parseFloat] unchecked, so a part that is no numeral makes the result
    NaN, not 0: ["aa:bb:cc"] gives NaN. *)
Theorem parseFfmpegTime_nan :
  (3 <= List.length (split ":" "aa:bb:cc"))%nat
  /\ parseFloat "aa" = NaN
  /\ parseFfmpegTime "aa:bb:cc" = NaN
  /\ parseFfmpegTime "aa:bb:cc" <> num_of_Z 0
  /\ (forall (timeStr p0 p1 p2 : string) (rest : list string),
        split ":" timeStr = p0 :: p1 :: p2 :: rest ->
        parseFloat p0 = NaN \/ parseFloat p1 = NaN \/ parseFloat p2 = NaN ->
        parseFfmpegTime timeStr = NaN).
Proof.
  split; [simpl; lia|]. split; [reflexivity|]. split; [reflexivity|].
  split; [discriminate|].
  intros timeStr p0 p1 p2 rest H Hnan. unfold parseFfmpegTime. rewrite H.
  destruct Hnan as [-> | [-> | ->]].
  - reflexivity.
  - destruct (num_mul (parseFloat p0) (num_of_Z 3600)); reflexivity.
  - destruct (num_add (num_mul _ _) _); reflexivity.
Qed.

Lemma parseFfmpegTime_nan_witness : parseFfmpegTime "00:xx:30.5" = NaN.
Proof.
  destruct parseFfmpegTime_nan as (_ & _ & _ & _ & Hnan).
  apply (Hnan _ "00" "xx" "30.5" []); [reflexivity|]. right; left. reflexivity.
Defined.

(** ** Safe filesystem names *)

Lemma split_dot_shape (s : string) :
  (split "." s = [s] /\ after_last_dot s = None)
  \/ (exists p ps e, split "." s = p :: ps /\ ps <> []
                     /\ after_last_dot s = Some e /\ pop ps = Some e).
Proof.
  induction s as [|c s' IH]; simpl.
  - left. split; reflexivity.
  - destruct (Ascii.eqb c ".") eqn:Hc.
    + right. destruct IH as [[Hs Ha] | (p & ps & e & Hs & Hne & Ha & Hp)].
      * exists EmptyString, [s'], s'. rewrite Hs, Ha. repeat split. discriminate.
      * exists EmptyString, (p :: ps), e. rewrite Hs, Ha. repeat split.
        -- discriminate.
        -- destruct ps; [contradiction|exact Hp].
    + destruct IH as [[Hs Ha] | (p & ps & e & Hs & Hne & Ha & Hp)].
      * left. rewrite Hs, Ha. split; reflexivity.
      * right. exists (String c p), ps, e. rewrite Hs, Ha. repeat split; assumption.
Qed.

Lemma pop_split_dot (s : string) :
  pop (split "." s) =
  Some (match after_last_dot s with Some e => e | None => s end).
Proof.
  destruct (split_dot_shape s) as [[Hs Ha] | (p & ps & e & Hs & Hne & Ha & Hp)].
  - rewrite Hs, Ha. reflexivity.
  - rewrite Hs, Ha. destruct ps; [contradiction|exact Hp].
Qed.

Lemma handleExport_job (w : World) (f : File) :
  videoFile (st w) = Some f ->
  exists j, pending_job (pending (handleExport w)) = Some j
            /\ job_file j = f
            /\ safeInputName j = safe_input_name (name f)
            /\ safeOutputName j = safe_output_name
            /\ startTime j = fst (range (st w))
            /\ durationTime j = num_sub (snd (range (st w))) (fst (range (st w))).
Proof.
  intros Hf. unfold handleExport. rewrite Hf.
  destruct (loaded _); eexists; simpl; repeat split; reflexivity.
Qed.


Lemma lower_char_ascii (c : ascii) : is_ascii c = true -> is_ascii (lower_char c) = true.
Proof. destruct c as [[] [] [] [] [] [] [] []]; intros H; try discriminate H; reflexivity. Qed.

Lemma toLowerCase_ascii (s : string) :
  ascii_only s = true -> ascii_only (toLowerCase s) = true.
Proof.
  induction s as [|c s IH]; [reflexivity|]. cbn [ascii_only toLowerCase].
  intros H. apply andb_true_iff in H as [Hc Hs].
  now rewrite (lower_char_ascii c Hc), (IH Hs).
Qed.



(** ** Export without a source *)

(** C3, refuted as stated: with no file selected [handleExport] reports no
    failure; the error text stays empty and nothing changes. *)
Lemma no_source_counterexample :
  videoFile (st initial_world) = None
  /\ error (st (handleExport initial_world)) = ""
  /\ handleExport initial_world = initial_world.
Proof. repeat split. Qed.

(** C3, amended: an export requested while no file is selected returns at
    once and changes nothing: no failure is reported, no pipeline step
    runs. *)
Theorem no_source_returns (w : World) :
  videoFile (st w) = None ->
  handleExport w = w /\ handle ExportClick w = w.
Proof.
  intros H. unfold handle, has_file, handleExport. rewrite H. split; reflexivity.
Qed.

Lemma no_source_returns_witness :
  handleExport initial_world = initial_world
  /\ handle ExportClick initial_world = initial_world.
Proof. apply no_source_returns. reflexivity. Defined.

(** ** The size limit *)

(** C5: at selection a file of 1 GiB + 1 byte is refused with the size
    error, the selection and the engine stay as they were; a file of
    exactly 1 GiB is accepted. *)
Theorem size_limit_at_selection (w : World) (n : string) (c : bytes) :
  SIZE_LIMIT = 1024 ^ 3
  /\ handleFileChange (Some (mkFile n (1024 ^ 3 + 1) c)) w = setError MSG_SIZE_LIMIT w
  /\ videoFile (st (handleFileChange (Some (mkFile n (1024 ^ 3 + 1) c)) w)) = videoFile (st w)
  /\ ffmpeg (handleFileChange (Some (mkFile n (1024 ^ 3 + 1) c)) w) = ffmpeg w
  /\ pending (handleFileChange (Some (mkFile n (1024 ^ 3 + 1) c)) w) = pending w
  /\ videoFile (st (handleFileChange (Some (mkFile n (1024 ^ 3) c)) w))
     = Some (mkFile n (1024 ^ 3) c)
  /\ error (st (handleFileChange (Some (mkFile n (1024 ^ 3) c)) w)) = "".
Proof. repeat split. Qed.

(** ** Numbers: rounding to binary64 is monotone *)

Section Rounding.
Local Open Scope Q_scope.

Lemma pow2_pos (k : Z) : 0 < pow2 k.
Proof. apply Qpower_0_lt. reflexivity. Qed.

Lemma pow2_add (a b : Z) : pow2 (a + b) == pow2 a * pow2 b.
Proof. unfold pow2. apply Qpower_plus. discriminate. Qed.

Lemma pow2_le (a b : Z) : (a <= b)%Z -> pow2 a <= pow2 b.
Proof. intros H. apply Qpower_le_compat_l; [exact H|discriminate]. Qed.

Lemma pow2_lt (a b : Z) : (a < b)%Z -> pow2 a < pow2 b.
Proof. intros H. apply Qpower_lt_compat_l; [exact H|reflexivity]. Qed.

Lemma pow2_Z (k : Z) : (0 <= k)%Z -> inject_Z (2 ^ k) == pow2 k.
Proof. intros H. unfold pow2. now rewrite Zpower_Qpower. Qed.

Lemma pow2_sub (a b : Z) : pow2 (a - b) == pow2 a / pow2 b.
Proof.
  unfold Z.sub. rewrite pow2_add. unfold pow2 at 2. rewrite Qpower_opp. reflexivity.
Qed.

Lemma Q_num_pos (q : Q) : 0 < q -> (0 < Qnum q)%Z.
Proof. destruct q as [a b]. unfold Qlt. simpl. lia. Qed.

Lemma ilog2_bounds (q : Q) :
  0 < q ->
  let e0 := (Z.log2 (Qnum q) - Z.log2 (Zpos (Qden q)))%Z in
  pow2 (e0 - 1) < q /\ q < pow2 (e0 + 1).
Proof.
  intros Hq e0. subst e0. pose proof (Q_num_pos q Hq) as Ha.
  destruct q as [a b]. simpl in *.
  set (la := Z.log2 a) in *. set (lb := Z.log2 (Zpos b)) in *.
  set (e0 := (la - lb)%Z).
  assert (Hla : (0 <= la)%Z) by apply Z.log2_nonneg.
  assert (Hlb : (0 <= lb)%Z) by apply Z.log2_nonneg.
  destruct (Z.log2_spec a Ha) as [Ha1 Ha2]. fold la in Ha1, Ha2.
  destruct (Z.log2_spec (Zpos b) eq_refl) as [Hb1 Hb2]. fold lb in Hb1, Hb2.
  assert (Hb : 0 < inject_Z (Zpos b)) by reflexivity.
  assert (Hq' : a # b == inject_Z a / inject_Z (Zpos b)) by apply Qmake_Qdiv.
  rewrite Hq'. split.
  - apply Qlt_shift_div_l; [exact Hb|].
    apply Qlt_le_trans with (pow2 (e0 - 1) * pow2 (lb + 1)).
    + apply Qmult_lt_l; [apply pow2_pos|].
      rewrite <- pow2_Z by lia. rewrite <- Zlt_Qlt.
      replace (lb + 1)%Z with (Z.succ lb) by lia. exact Hb2.
    + rewrite <- pow2_add. replace (e0 - 1 + (lb + 1))%Z with la by (unfold e0; lia).
      rewrite <- pow2_Z by lia. rewrite <- Zle_Qle. exact Ha1.
  - apply Qlt_shift_div_r; [exact Hb|].
    apply Qlt_le_trans with (pow2 (e0 + 1) * pow2 lb).
    + rewrite <- pow2_add. replace (e0 + 1 + lb)%Z with (Z.succ la) by (unfold e0; lia).
      rewrite <- pow2_Z by lia. rewrite <- Zlt_Qlt. exact Ha2.
    + apply Qmult_le_l; [apply pow2_pos|].
      rewrite <- pow2_Z by lia. rewrite <- Zle_Qle. exact Hb1.
Qed.

Lemma ilog2_spec (q : Q) :
  0 < q -> pow2 (ilog2 q) <= q /\ q < pow2 (ilog2 q + 1).
Proof.
  intros Hq. destruct (ilog2_bounds q Hq) as [H1 H2]. unfold ilog2.
  destruct (Qle_bool _ q) eqn:Hc.
  - apply Qle_bool_iff in Hc. split; assumption.
  - split; [apply Qlt_le_weak; exact H1|].
    match goal with |- _ < pow2 ?k => replace k with (Z.log2 (Qnum q) - Z.log2 (Zpos (Qden q)))%Z by lia end.
    apply Qnot_le_lt. intros H. apply Qle_bool_iff in H. congruence.
Qed.

Lemma ilog2_unique (q : Q) (e : Z) :
  pow2 e <= q -> q < pow2 (e + 1) -> ilog2 q = e.
Proof.
  intros H1 H2.
  assert (Hq : 0 < q) by (eapply Qlt_le_trans; [apply pow2_pos|exact H1]).
  destruct (ilog2_spec q Hq) as [H3 H4].
  assert (A : (ilog2 q < e + 1)%Z).
  { apply (Qpower_lt_compat_l_inv 2); [|reflexivity].
    eapply Qle_lt_trans; [exact H3|exact H2]. }
  assert (B : (e < ilog2 q + 1)%Z).
  { apply (Qpower_lt_compat_l_inv 2); [|reflexivity].
    eapply Qle_lt_trans; [exact H1|exact H4]. }
  lia.
Qed.

Lemma ilog2_mono (a b : Q) : 0 < a -> a <= b -> (ilog2 a <= ilog2 b)%Z.
Proof.
  intros Ha Hab.
  assert (Hb : 0 < b) by (eapply Qlt_le_trans; eassumption).
  destruct (ilog2_spec a Ha) as [A1 A2]. destruct (ilog2_spec b Hb) as [B1 B2].
  assert (A : (ilog2 a < ilog2 b + 1)%Z).
  { apply (Qpower_lt_compat_l_inv 2); [|reflexivity].
    eapply Qle_lt_trans; [exact A1|]. eapply Qle_lt_trans; [exact Hab|exact B2]. }
  lia.
Qed.

Lemma rhe_comp (x y : Q) : x == y -> rhe x = rhe y.
Proof.
  intros H. unfold rhe. rewrite (Qfloor_comp x y H).
  assert (E : x - inject_Z (Qfloor y) == y - inject_Z (Qfloor y)) by (rewrite H; reflexivity).
  rewrite (Qcompare_comp _ _ E _ _ (Qeq_refl (1 # 2))). reflexivity.
Qed.

Lemma rhe_bounds (x : Q) : (Qfloor x <= rhe x <= Qfloor x + 1)%Z.
Proof.
  unfold rhe. destruct (_ ?= _); [destruct (Z.even _)| |]; lia.
Qed.

Lemma rhe_Z (n : Z) : rhe (inject_Z n) = n.
Proof.
  unfold rhe. rewrite Qfloor_Z.
  assert (E : inject_Z n - inject_Z n == 0) by ring.
  rewrite (Qcompare_comp _ _ E _ _ (Qeq_refl (1 # 2))). reflexivity.
Qed.

Lemma rhe_mono (x y : Q) : x <= y -> (rhe x <= rhe y)%Z.
Proof.
  intros H. pose proof (Qfloor_resp_le x y H) as Hf.
  pose proof (rhe_bounds x) as Bx. pose proof (rhe_bounds y) as By.
  destruct (Z.eq_dec (Qfloor x) (Qfloor y)) as [E|NE]; [|lia].
  unfold rhe in *. rewrite E in *.
  set (f := Qfloor y) in *.
  assert (D : x - inject_Z f <= y - inject_Z f) by lra.
  destruct (x - inject_Z f ?= 1 # 2) eqn:Cx; destruct (y - inject_Z f ?= 1 # 2) eqn:Cy;
    try rewrite <- Qeq_alt in *; try rewrite <- Qlt_alt in *; try rewrite <- Qgt_alt in *;
    try (destruct (Z.even f)); try lia; exfalso; lra.
Qed.

Lemma rhe_ge (n : Z) (x : Q) : inject_Z n <= x -> (n <= rhe x)%Z.
Proof. intros H. rewrite <- (rhe_Z n). now apply rhe_mono. Qed.

Lemma rhe_le (n : Z) (x : Q) : x <= inject_Z n -> (rhe x <= n)%Z.
Proof. intros H. rewrite <- (rhe_Z n). now apply rhe_mono. Qed.

Lemma ulp_exp_mono (a b : Q) : 0 < a -> a <= b -> (ulp_exp a <= ulp_exp b)%Z.
Proof.
  intros Ha Hab. unfold ulp_exp. pose proof (ilog2_mono a b Ha Hab). lia.
Qed.

Lemma div_pow2_le (a b : Q) (u : Z) : a <= b -> a / pow2 u <= b / pow2 u.
Proof.
  intros H. unfold Qdiv. apply Qmult_le_compat_r; [exact H|].
  apply Qlt_le_weak, Qinv_lt_0_compat, pow2_pos.
Qed.

Lemma rnd_val_nonneg (q : Q) : 0 < q -> 0 <= rnd_val q.
Proof.
  intros Hq. unfold rnd_val. apply Qmult_le_0_compat.
  - replace 0 with (inject_Z 0) by reflexivity. rewrite <- Zle_Qle. apply rhe_ge.
    apply Qle_shift_div_l; [apply pow2_pos|].
    change (inject_Z 0) with 0. rewrite Qmult_0_l. apply Qlt_le_weak, Hq.
  - apply Qlt_le_weak, pow2_pos.
Qed.

(** Upper bound: the rounded value stays within 53 bits above the ulp. *)
Lemma rnd_val_upper (q : Q) : 0 < q -> rnd_val q <= pow2 (ulp_exp q + 53).
Proof.
  intros Hq. unfold rnd_val. set (u := ulp_exp q).
  replace (u + 53)%Z with (53 + u)%Z by lia.
  rewrite pow2_add. apply Qmult_le_compat_r; [|apply Qlt_le_weak, pow2_pos].
  rewrite <- (pow2_Z 53) by lia. rewrite <- Zle_Qle. apply rhe_le.
  rewrite (pow2_Z 53) by lia.
  apply Qle_shift_div_r; [apply pow2_pos|]. rewrite <- pow2_add.
  destruct (ilog2_spec q Hq) as [_ H2].
  apply Qlt_le_weak. eapply Qlt_le_trans; [exact H2|]. apply pow2_le.
  unfold u, ulp_exp. lia.
Qed.

(** Lower bound, for values above the subnormal range. *)
Lemma rnd_val_lower (q : Q) :
  0 < q -> ulp_exp q = (ilog2 q - 52)%Z -> pow2 (ilog2 q) <= rnd_val q.
Proof.
  intros Hq Hu. unfold rnd_val. rewrite Hu.
  replace (ilog2 q) with (52 + (ilog2 q - 52))%Z at 1 by lia.
  rewrite pow2_add. apply Qmult_le_compat_r; [|apply Qlt_le_weak, pow2_pos].
  rewrite <- (pow2_Z 52) by lia. rewrite <- Zle_Qle. apply rhe_ge.
  rewrite (pow2_Z 52) by lia.
  apply Qle_shift_div_l; [apply pow2_pos|]. rewrite <- pow2_add.
  replace (52 + (ilog2 q - 52))%Z with (ilog2 q) by lia.
  apply (ilog2_spec q Hq).
Qed.

Lemma rnd_val_mono (a b : Q) : 0 < a -> a <= b -> rnd_val a <= rnd_val b.
Proof.
  intros Ha Hab.
  assert (Hb : 0 < b) by (eapply Qlt_le_trans; eassumption).
  pose proof (ulp_exp_mono a b Ha Hab) as Hu.
  destruct (Z.eq_dec (ulp_exp a) (ulp_exp b)) as [E|NE].
  - unfold rnd_val. rewrite E.
    apply Qmult_le_compat_r; [|apply Qlt_le_weak, pow2_pos].
    rewrite <- Zle_Qle. apply rhe_mono, div_pow2_le, Hab.
  - eapply Qle_trans; [apply (rnd_val_upper a Ha)|].
    assert (Hub : ulp_exp b = (ilog2 b - 52)%Z) by (unfold ulp_exp in *; lia).
    eapply Qle_trans; [|apply (rnd_val_lower b Hb Hub)].
    apply pow2_le. lia.
Qed.


Lemma num_le_Fin (a b : Qc) : num_le (Fin a) (Fin b) <-> a <= b.
Proof. unfold num_le. simpl. apply Qle_bool_iff. Qed.

Lemma num_le_trans (x y z : number) : num_le x y -> num_le y z -> num_le x z.
Proof.
  unfold num_le.
  destruct x as [| |a|], y as [| |b|], z as [| |c|]; simpl; try discriminate; try reflexivity.
  rewrite !Qle_bool_iff. apply Qle_trans.
Qed.

Lemma num_le_refl (x : number) : x <> NaN -> num_le x x.
Proof.
  unfold num_le. destruct x as [| |a|]; simpl; try reflexivity; [congruence|].
  intros _. apply Qle_bool_iff, Qle_refl.
Qed.

Lemma this_Q2Qc (q : Q) : this (Q2Qc q) == q.
Proof. simpl. apply Qred_correct. Qed.

Lemma num_neg_le (x y : number) : num_le x y -> num_le (num_neg y) (num_neg x).
Proof.
  unfold num_le.
  destruct x as [| |a|], y as [| |b|]; cbn [num_neg num_leb];
    try discriminate; try reflexivity.
  rewrite !Qle_bool_iff. unfold Qcopp. rewrite !this_Q2Qc. apply Qopp_le_compat.
Qed.

Lemma rnd_pos_not_nan (q : Q) : rnd_pos q <> NaN.
Proof. unfold rnd_pos. destruct (Qle_bool _ _); discriminate. Qed.

Lemma rnd_not_nan (q : Q) : rnd q <> NaN.
Proof.
  unfold rnd. destruct (q ?= 0); try discriminate; [|apply rnd_pos_not_nan].
  pose proof (rnd_pos_not_nan (- q)). destruct (rnd_pos (- q)); simpl; congruence.
Qed.

Lemma rnd_pos_mono (a b : Q) : 0 < a -> a <= b -> num_le (rnd_pos a) (rnd_pos b).
Proof.
  intros Ha Hab. pose proof (rnd_val_mono a b Ha Hab) as Hv. unfold rnd_pos.
  destruct (Qle_bool (pow2 1024) (rnd_val a)) eqn:Ca;
    destruct (Qle_bool (pow2 1024) (rnd_val b)) eqn:Cb; try reflexivity.
  - apply Qle_bool_iff in Ca.
    assert (Qle_bool (pow2 1024) (rnd_val b) = true)
      by (apply Qle_bool_iff; eapply Qle_trans; eassumption).
    congruence.
  - apply num_le_Fin. rewrite !this_Q2Qc. exact Hv.
Qed.

Lemma rnd_pos_nonneg (a : Q) : 0 < a -> num_le (Fin 0%Qc) (rnd_pos a).
Proof.
  intros Ha. unfold rnd_pos. destruct (Qle_bool _ _); [reflexivity|].
  apply num_le_Fin. rewrite (this_Q2Qc (rnd_val a)). apply rnd_val_nonneg, Ha.
Qed.

Lemma rnd_neg_nonpos (a : Q) : 0 < a -> num_le (num_neg (rnd_pos a)) (Fin 0%Qc).
Proof. intros Ha. apply (num_neg_le (Fin 0%Qc) (rnd_pos a)), rnd_pos_nonneg, Ha. Qed.

(** Rounding to binary64 is monotone. *)
Lemma rnd_mono (a b : Q) : a <= b -> num_le (rnd a) (rnd b).
Proof.
  intros Hab. unfold rnd.
  destruct (a ?= 0) eqn:Ca; destruct (b ?= 0) eqn:Cb;
    try rewrite <- Qeq_alt in *; try rewrite <- Qlt_alt in *; try rewrite <- Qgt_alt in *;
    try (exfalso; lra).
  - reflexivity.
  - apply rnd_pos_nonneg, Cb.
  - apply rnd_neg_nonpos. lra.
  - apply num_neg_le, rnd_pos_mono; lra.
  - eapply num_le_trans; [apply rnd_neg_nonpos|apply rnd_pos_nonneg]; lra.
  - apply rnd_pos_mono; lra.
Qed.

Lemma rnd_nonneg (q : Q) : 0 <= q -> num_le (Fin 0%Qc) (rnd q).
Proof. intros H. apply (rnd_mono 0 q H). Qed.

End Rounding.

(** On sample values the operations agree with the reference binary64
    operations of the Standard Library: correctly rounded quotients (which
    include the decimal numerals [12.48 = 1248/100] and [7.1 = 71/10]),
    products and sums. *)
Lemma rnd_conforms :
  num_div (num_of_Z 1) (num_of_Z 3)
  = of_spec (SFdiv 53 1024 (spec_of_Z 1) (spec_of_Z 3))
  /\ parseFloat "12.48" = of_spec (SFdiv 53 1024 (spec_of_Z 1248) (spec_of_Z 100))
  /\ parseFloat "07.10" = of_spec (SFdiv 53 1024 (spec_of_Z 71) (spec_of_Z 10))
  /\ num_mul (num_div (num_of_Z 1) (num_of_Z 3)) (num_of_Z 100)
     = of_spec (SFmul 53 1024 (SFdiv 53 1024 (spec_of_Z 1) (spec_of_Z 3)) (spec_of_Z 100))
  /\ num_mul (num_div (parseFloat "12.48") (num_of_Z 10)) (num_of_Z 100)
     = of_spec (SFmul 53 1024
                  (SFdiv 53 1024 (SFdiv 53 1024 (spec_of_Z 1248) (spec_of_Z 100))
                         (spec_of_Z 10))
                  (spec_of_Z 100))
  /\ num_add (num_of_Z 3660) (parseFloat "12.48")
     = of_spec (SFadd 53 1024 (spec_of_Z 3660)
                  (SFdiv 53 1024 (spec_of_Z 1248) (spec_of_Z 100)))
  /\ num_div (num_of_Z 1) (num_of_Z 0)
     = of_spec (SFdiv 53 1024 (spec_of_Z 1) (spec_of_Z 0))
  /\ num_div (num_of_Z 0) (num_of_Z 0)
     = of_spec (SFdiv 53 1024 (spec_of_Z 0) (spec_of_Z 0))
  /\ parseFloat "1e400" = of_spec (SFmul 53 1024 (spec_of_Z (10 ^ 200)) (spec_of_Z (10 ^ 200)))
  /\ parseFloat "5e-324" = of_spec (S754_finite false 1 (-1074))
  /\ parseFloat "2e-324" = of_spec (S754_zero false).
Proof. repeat split; apply num_same_eq; vm_compute; reflexivity. Qed.

(** ** The percentage *)

Section Percent.
Local Open Scope Q_scope.

Lemma num_le_antisym (x y : number) : num_le x y -> num_le y x -> x = y.
Proof.
  unfold num_le.
  destruct x as [| |a|], y as [| |b|]; simpl; try discriminate; try reflexivity.
  rewrite !Qle_bool_iff. intros H1 H2. f_equal.
  apply Qc_is_canon. now apply Qle_antisym.
Qed.

Lemma num_le_not_nan_l (x y : number) : num_le x y -> x <> NaN.
Proof. unfold num_le. destruct x; simpl; congruence. Qed.

Lemma num_le_not_nan_r (x y : number) : num_le x y -> y <> NaN.
Proof. unfold num_le. destruct x, y; simpl; congruence. Qed.

Lemma num_le_NegInf (x : number) : x <> NaN -> num_le NegInf x.
Proof. unfold num_le. destruct x; simpl; congruence. Qed.

Lemma num_le_PosInf (x : number) : x <> NaN -> num_le x PosInf.
Proof. unfold num_le. destruct x; simpl; congruence. Qed.

(** Rounding does not depend on the fraction that represents the value. *)
Lemma rnd_comp (a b : Q) : a == b -> rnd a = rnd b.
Proof.
  intros H. apply num_le_antisym; apply rnd_mono; rewrite H; apply Qle_refl.
Qed.

Lemma Qc_pos_sgn (b : Qc) : 0 < b -> Z.sgn (Qnum b) = 1%Z.
Proof. intros H. apply Z.sgn_pos, Q_num_pos, H. Qed.

Lemma Qc_pos_neq (b : Qc) : 0 < b -> Qeq_bool b 0 = false.
Proof.
  intros H. destruct (Qeq_bool b 0) eqn:E; [|reflexivity].
  apply Qeq_bool_iff in E. rewrite E in H. discriminate.
Qed.

Lemma div_monotone (b : Qc) : 0 < b -> monotone (fun t => num_div t (Fin b)).
Proof.
  intros Hb x y Hxy.
  pose proof (Qc_pos_neq b Hb) as Hne. pose proof (Qc_pos_sgn b Hb) as Hs.
  destruct x as [| |a1|], y as [| |a2|]; try discriminate Hxy;
    cbn [num_div num_sgn]; rewrite ?Hne, ?Hs; cbn [Z.mul Pos.mul inf_of_sgn];
    try reflexivity;
    try (apply num_le_NegInf, rnd_not_nan);
    try (apply num_le_PosInf, rnd_not_nan).
  apply rnd_mono. apply num_le_Fin in Hxy.
  unfold Qdiv. apply Qmult_le_compat_r; [exact Hxy|].
  apply Qlt_le_weak, Qinv_lt_0_compat, Hb.
Qed.

Lemma mul_monotone (c : Qc) : 0 < c -> monotone (fun x => num_mul x (Fin c)).
Proof.
  intros Hc x y Hxy. pose proof (Qc_pos_sgn c Hc) as Hs.
  destruct x as [| |a1|], y as [| |a2|]; try discriminate Hxy;
    cbn [num_mul num_sgn]; rewrite ?Hs; cbn [Z.mul Pos.mul inf_of_sgn];
    try reflexivity;
    try (apply num_le_NegInf, rnd_not_nan);
    try (apply num_le_PosInf, rnd_not_nan).
  apply rnd_mono. apply num_le_Fin in Hxy.
  apply Qmult_le_compat_r; [exact Hxy|apply Qlt_le_weak, Hc].
Qed.

Lemma round_monotone : monotone Math_round.
Proof.
  intros x y Hxy.
  destruct x as [| |a1|], y as [| |a2|]; try discriminate Hxy;
    cbn [Math_round]; try reflexivity.
  apply num_le_Fin in Hxy. apply num_le_Fin. rewrite !this_Q2Qc.
  rewrite <- Zle_Qle. apply Qfloor_resp_le. lra.
Qed.

Lemma Qle_bool_false (a c : Q) : Qle_bool a c = false -> c < a.
Proof.
  intros H. apply Qnot_le_lt. intros H'. apply Qle_bool_iff in H'. congruence.
Qed.

Lemma min_monotone (c : Qc) : monotone (fun x => Math_min x (Fin c)).
Proof.
  intros x y Hxy.
  destruct x as [| |a1|], y as [| |a2|]; try discriminate Hxy;
    cbn [Math_min]; try reflexivity.
  - destruct (Qle_bool a2 c); reflexivity.
  - apply num_le_Fin in Hxy.
    destruct (Qle_bool a1 c) eqn:C1; destruct (Qle_bool a2 c) eqn:C2;
      apply num_le_Fin;
      try apply Qle_bool_iff in C1; try apply Qle_bool_iff in C2;
      try apply Qle_bool_false in C1; try apply Qle_bool_false in C2; lra.
  - destruct (Qle_bool a1 c) eqn:C1; apply num_le_Fin.
    + now apply Qle_bool_iff.
    + apply Qle_refl.
  - apply num_le_refl. discriminate.
Qed.

Lemma num_of_Z_pos (n : Z) : (0 < n)%Z -> 0 < Q2Qc (inject_Z n).
Proof. intros H. rewrite this_Q2Qc. replace 0 with (inject_Z 0) by reflexivity. now rewrite <- Zlt_Qlt. Qed.

(** For a positive duration the percentage grows with the timestamp. *)
Lemma percent_of_monotone (b : Qc) : 0 < b -> monotone (percent_of (Fin b)).
Proof.
  intros Hb x y Hxy. unfold percent_of, num_of_Z.
  apply (min_monotone (Q2Qc (inject_Z 100))).
  apply round_monotone.
  apply (mul_monotone (Q2Qc (inject_Z 100))); [reflexivity|].
  apply (div_monotone b Hb). exact Hxy.
Qed.

End Percent.

Section PercentRange.
Local Open Scope Q_scope.

Lemma num_of_Z_le (n m : Z) : num_le (num_of_Z n) (num_of_Z m) <-> (n <= m)%Z.
Proof.
  unfold num_of_Z. rewrite num_le_Fin, !this_Q2Qc, <- Zle_Qle. reflexivity.
Qed.

Lemma ratio_zero (b : Qc) :
  0 < b -> num_mul (num_div (Fin 0%Qc) (Fin b)) (num_of_Z 100) = Fin 0%Qc.
Proof.
  intros Hb. cbn [num_div]. rewrite (Qc_pos_neq b Hb).
  rewrite (rnd_comp (0%Qc / b) 0) by (unfold Qdiv; apply Qmult_0_l).
  reflexivity.
Qed.

(** The ratio of a non-negative timestamp to a positive duration is
    non-negative, as a percentage too. *)
Lemma ratio_nonneg (b : Qc) (t : number) :
  0 < b -> num_le (Fin 0%Qc) t ->
  num_le (Fin 0%Qc) (num_mul (num_div t (Fin b)) (num_of_Z 100)).
Proof.
  intros Hb Ht. rewrite <- (ratio_zero b Hb).
  apply (mul_monotone (Q2Qc (inject_Z 100))); [reflexivity|].
  apply (div_monotone b Hb). exact Ht.
Qed.

Lemma round_100 : Math_round (num_of_Z 100) = num_of_Z 100.
Proof. apply num_same_eq. vm_compute. reflexivity. Qed.

Lemma floor_half_le (q : Q) (n : Z) : q <= inject_Z n -> (Qfloor (q + (1 # 2)) <= n)%Z.
Proof.
  intros H. assert (L : (Qfloor (q + (1 # 2)) < n + 1)%Z); [|lia].
  rewrite Zlt_Qlt. eapply Qle_lt_trans; [apply Qfloor_le|].
  rewrite inject_Z_plus. change (inject_Z 1) with 1. lra.
Qed.

Lemma floor_half_ge (q : Q) (n : Z) : inject_Z n <= q -> (n <= Qfloor (q + (1 # 2)))%Z.
Proof.
  intros H. rewrite <- (Qfloor_Z n). apply Qfloor_resp_le. lra.
Qed.

(** Rounding and then capping at 100 is clamping to [0,100] and then
    rounding, on non-negative numbers. *)
Lemma min_round_clamp (x : number) :
  num_le (Fin 0%Qc) x ->
  Math_min (Math_round x) (num_of_Z 100)
  = Math_round (Math_max (num_of_Z 0) (Math_min x (num_of_Z 100))).
Proof.
  intros Hx. destruct x as [| |q|]; try discriminate Hx.
  - apply num_le_Fin in Hx. change (this 0%Qc) with 0 in Hx.
    unfold num_of_Z at 2 3. cbn [Math_min].
    destruct (Qle_bool q (Q2Qc (inject_Z 100))) eqn:C.
    + apply Qle_bool_iff in C. rewrite this_Q2Qc in C.
      cbn [Math_max].
      assert (Z0 : Qle_bool (Q2Qc (inject_Z 0)) q = true)
        by (apply Qle_bool_iff; rewrite this_Q2Qc; exact Hx).
      rewrite Z0. cbn [Math_round]. unfold num_of_Z. cbn [Math_min].
      assert (R : Qle_bool (Q2Qc (inject_Z (Qfloor (q + (1 # 2))))) (Q2Qc (inject_Z 100)) = true).
      { apply Qle_bool_iff. rewrite !this_Q2Qc. rewrite <- Zle_Qle.
        apply floor_half_le, C. }
      rewrite R. reflexivity.
    + apply Qle_bool_false in C. rewrite this_Q2Qc in C.
      change (Math_max (Fin (Q2Qc (inject_Z 0))) (Fin (Q2Qc (inject_Z 100))))
        with (num_of_Z 100).
      rewrite round_100. cbn [Math_round]. unfold num_of_Z. cbn [Math_min].
      destruct (Qle_bool _ _) eqn:R; [|reflexivity].
      apply Qle_bool_iff in R. rewrite !this_Q2Qc in R. rewrite <- Zle_Qle in R.
      assert (G : (100 <= Qfloor (q + (1 # 2)))%Z) by (apply floor_half_ge; lra).
      replace (Qfloor (q + (1 # 2))) with 100%Z by lia. reflexivity.
  - change (Math_round (Math_max (num_of_Z 0) (Math_min PosInf (num_of_Z 100))))
      with (Math_round (num_of_Z 100)).
    rewrite round_100. reflexivity.
Qed.

(** On non-negative numbers, rounding and capping yields an integer
    between 0 and 100. *)
Lemma min_round_range (x : number) :
  num_le (Fin 0%Qc) x ->
  exists n : Z, (0 <= n <= 100)%Z /\ Math_min (Math_round x) (num_of_Z 100) = num_of_Z n.
Proof.
  intros Hx. destruct x as [| |q|]; try discriminate Hx.
  - apply num_le_Fin in Hx. change (this 0%Qc) with 0 in Hx.
    cbn [Math_round]. unfold num_of_Z at 1. cbn [Math_min].
    assert (G : (0 <= Qfloor (q + (1 # 2)))%Z) by (apply floor_half_ge; exact Hx).
    destruct (Qle_bool _ _) eqn:R.
    + apply Qle_bool_iff in R. rewrite !this_Q2Qc in R. rewrite <- Zle_Qle in R.
      exists (Qfloor (q + (1 # 2))). split; [lia|reflexivity].
    + exists 100%Z. split; [lia|reflexivity].
  - exists 100%Z. split; [lia|reflexivity].
Qed.

Lemma percent_of_self (b : Qc) : 0 < b -> percent_of (Fin b) (Fin b) = num_of_Z 100.
Proof.
  intros Hb. unfold percent_of. cbn [num_div]. rewrite (Qc_pos_neq b Hb).
  rewrite (rnd_comp (b / b) 1).
  - apply num_same_eq. vm_compute. reflexivity.
  - unfold Qdiv. apply Qmult_inv_r. intros E. rewrite E in Hb. discriminate.
Qed.

(** A timestamp that reaches the requested duration gives exactly 100. *)
Lemma percent_of_full (b : Qc) (t : number) :
  0 < b -> num_le (Fin b) t -> percent_of (Fin b) t = num_of_Z 100.
Proof.
  intros Hb Ht.
  pose proof (percent_of_monotone b Hb _ _ Ht) as Hm.
  rewrite (percent_of_self b Hb) in Hm.
  assert (H0 : num_le (Fin 0%Qc) t).
  { eapply num_le_trans; [|exact Ht]. apply num_le_Fin. apply Qlt_le_weak, Hb. }
  destruct (min_round_range _ (ratio_nonneg b t Hb H0)) as (n & Hn & E).
  fold (percent_of (Fin b) t) in E. rewrite E in *.
  apply num_of_Z_le in Hm. replace n with 100%Z by lia. reflexivity.
Qed.

End PercentRange.

(** ** Timestamps captured from log lines *)

Section Capture.
Local Open Scope Q_scope.

Lemma digit_cases (c : ascii) :
  is_digit c = true ->
  Ascii.eqb c ":" = false /\ Ascii.eqb c "." = false /\ is_space c = false
  /\ (forall s : string,
         parseFloat (String c s) =
         match parse_unsigned (String c s) with
         | Some q => rnd q
         | None => NaN
         end).
Proof.
  destruct c as [[] [] [] [] [] [] [] []]; intros H; try discriminate H;
    repeat split.
Qed.

Lemma take_digits_all (s : string) :
  all_digits (fst (take_digits s)) = true.
Proof.
  induction s as [|c s' IH]; simpl; [reflexivity|].
  destruct (is_digit c) eqn:Hc; [|reflexivity].
  destruct (take_digits s') as [d r]. simpl in *. now rewrite Hc, IH.
Qed.

Lemma all_digits_app (s1 s2 : string) :
  all_digits s1 = true -> all_digits s2 = true -> all_digits (s1 ++ s2) = true.
Proof.
  induction s1 as [|c s1' IH]; simpl; [auto|].
  intros H1 H2. apply andb_true_iff in H1 as [Hc H1]. now rewrite Hc, IH.
Qed.

Lemma digit_val_nonneg (c : ascii) : is_digit c = true -> (0 <= digit_val c)%Z.
Proof.
  unfold is_digit, digit_val. intros H. apply andb_true_iff in H as [H _].
  apply N.leb_le in H. lia.
Qed.

Lemma digits_val_nonneg (s : string) (acc : Z) :
  all_digits s = true -> (0 <= acc)%Z -> (0 <= digits_val acc s)%Z.
Proof.
  revert acc. induction s as [|c s' IH]; cbn [digits_val all_digits];
    intros acc H Hacc; [exact Hacc|].
  apply andb_true_iff in H as [Hc H]. apply IH; [exact H|].
  pose proof (digit_val_nonneg c Hc). lia.
Qed.

Lemma pow10_pos (e : Z) : 0 < 10 ^ e.
Proof. apply Qpower_0_lt. reflexivity. Qed.

Lemma parse_unsigned_digit (c : ascii) (s : string) :
  is_digit c = true ->
  exists q : Q, parse_unsigned (String c s) = Some q /\ 0 <= q.
Proof.
  intros Hc. unfold parse_unsigned.
  pose proof (take_digits_all (String c s)) as Hip.
  assert (Hne : exists d, fst (take_digits (String c s)) = String c d).
  { simpl. rewrite Hc. destruct (take_digits s). eexists. reflexivity. }
  destruct (take_digits (String c s)) as [ip r1]. simpl in Hip, Hne.
  destruct Hne as [d ->].
  set (sel := match r1 with
              | String "." r =>
                  let (f, r') := take_digits r in
                  match String c d, f with
                  | EmptyString, EmptyString => (EmptyString, r1)
                  | _, _ => (f, r')
                  end
              | _ => (EmptyString, r1)
              end).
  assert (Hfp : all_digits (fst sel) = true).
  { unfold sel. destruct r1 as [|a r]; [reflexivity|].
    destruct a as [[] [] [] [] [] [] [] []]; try reflexivity.
    pose proof (take_digits_all r) as H. destruct (take_digits r) as [f r']. exact H. }
  destruct sel as [fp r2]. simpl in Hfp.
  eexists. split; [reflexivity|].
  apply Qmult_le_0_compat; [|apply Qlt_le_weak, pow10_pos].
  replace 0 with (inject_Z 0) by reflexivity. rewrite <- Zle_Qle.
  apply digits_val_nonneg; [|lia]. now apply all_digits_app.
Qed.

(** A numeral that starts with a digit parses to a non-negative number. *)
Lemma parseFloat_digit_nonneg (c : ascii) (s : string) :
  is_digit c = true -> num_le (Fin 0%Qc) (parseFloat (String c s)).
Proof.
  intros Hc. destruct (digit_cases c Hc) as (_ & _ & _ & Hp). rewrite Hp.
  destruct (parse_unsigned_digit c s Hc) as (q & -> & Hq).
  apply rnd_nonneg, Hq.
Qed.

Lemma nonneg_mul (x : number) (k : Z) :
  (0 < k)%Z -> num_le (Fin 0%Qc) x -> num_le (Fin 0%Qc) (num_mul x (num_of_Z k)).
Proof.
  intros Hk Hx.
  assert (E : num_mul (Fin 0%Qc) (num_of_Z k) = Fin 0%Qc).
  { cbn [num_mul num_of_Z]. rewrite (rnd_comp _ 0); [reflexivity|apply Qmult_0_l]. }
  rewrite <- E. apply (mul_monotone (Q2Qc (inject_Z k))); [|exact Hx].
  apply num_of_Z_pos, Hk.
Qed.

Lemma nonneg_add (x y : number) :
  num_le (Fin 0%Qc) x -> num_le (Fin 0%Qc) y -> num_le (Fin 0%Qc) (num_add x y).
Proof.
  intros Hx Hy.
  destruct x as [| |a|], y as [| |b|]; try discriminate Hx; try discriminate Hy;
    cbn [num_add]; try reflexivity.
  apply num_le_Fin in Hx, Hy. change (this 0%Qc) with 0 in Hx, Hy.
  apply rnd_nonneg. lra.
Qed.

Lemma split_no_colon (s : string) :
  all_digits s = true -> split ":" s = [s].
Proof.
  induction s as [|c s' IH]; simpl; [reflexivity|].
  intros H. apply andb_true_iff in H as [Hc H].
  destruct (digit_cases c Hc) as (-> & _). now rewrite (IH H).
Qed.

(** What the pattern captures: two digits, two digits and a decimal
    numeral with two integer digits. *)
Lemma match_time_here_shape (s cap : string) :
  match_time_here s = Some cap ->
  exists (h1 h2 m1 m2 s1 s2 : ascii) (frac : string),
    cap = String h1 (String h2 (String ":" (String m1 (String m2 (String ":"
            (String s1 (String s2 (String "." frac))))))))
    /\ is_digit h1 = true /\ is_digit h2 = true
    /\ is_digit m1 = true /\ is_digit m2 = true
    /\ is_digit s1 = true /\ is_digit s2 = true
    /\ all_digits frac = true /\ frac <> EmptyString
    /\ prefix "time=" s = true.
Proof.
  unfold match_time_here.
  destruct s as [|c1 s]; [discriminate|].
  destruct c1 as [[] [] [] [] [] [] [] []]; try discriminate.
  destruct s as [|c2 s]; [discriminate|].
  destruct c2 as [[] [] [] [] [] [] [] []]; try discriminate.
  destruct s as [|c3 s]; [discriminate|].
  destruct c3 as [[] [] [] [] [] [] [] []]; try discriminate.
  destruct s as [|c4 s]; [discriminate|].
  destruct c4 as [[] [] [] [] [] [] [] []]; try discriminate.
  destruct s as [|c5 s]; [discriminate|].
  destruct c5 as [[] [] [] [] [] [] [] []]; try discriminate.
  destruct s as [|h1 s]; [discriminate|].
  destruct s as [|h2 s]; [discriminate|].
  destruct s as [|c6 s]; [discriminate|].
  destruct c6 as [[] [] [] [] [] [] [] []]; try discriminate.
  destruct s as [|m1 s]; [discriminate|].
  destruct s as [|m2 s]; [discriminate|].
  destruct s as [|c7 s]; [discriminate|].
  destruct c7 as [[] [] [] [] [] [] [] []]; try discriminate.
  destruct s as [|s1 s]; [discriminate|].
  destruct s as [|s2 s]; [discriminate|].
  destruct s as [|c8 s]; [discriminate|].
  destruct c8 as [[] [] [] [] [] [] [] []]; try discriminate.
  destruct (is_digit h1) eqn:H1; [|discriminate].
  destruct (is_digit h2) eqn:H2; [|discriminate].
  destruct (is_digit m1) eqn:H3; [|discriminate].
  destruct (is_digit m2) eqn:H4; [|discriminate].
  destruct (is_digit s1) eqn:H5; [|discriminate].
  destruct (is_digit s2) eqn:H6; [|discriminate].
  simpl. pose proof (take_digits_all s) as Hf.
  destruct (take_digits s) as [frac r]. simpl in Hf.
  destruct frac as [|f0 frac]; [discriminate|].
  intros E. injection E as <-.
  exists h1, h2, m1, m2, s1, s2, (String f0 frac).
  repeat split; try assumption. discriminate.
Qed.

Lemma match_time_shape (line cap : string) :
  match_time line = Some cap ->
  includes "time=" line = true
  /\ exists (h1 h2 m1 m2 s1 s2 : ascii) (frac : string),
       cap = String h1 (String h2 (String ":" (String m1 (String m2 (String ":"
               (String s1 (String s2 (String "." frac))))))))
       /\ is_digit h1 = true /\ is_digit h2 = true
       /\ is_digit m1 = true /\ is_digit m2 = true
       /\ is_digit s1 = true /\ is_digit s2 = true
       /\ all_digits frac = true /\ frac <> EmptyString.
Proof.
  induction line as [|c line' IH]; intros H.
  - discriminate H.
  - cbn [match_time] in H. cbn [includes].
    destruct (match_time_here (String c line')) eqn:Hh.
    + injection H as ->.
      destruct (match_time_here_shape _ _ Hh)
        as (h1 & h2 & m1 & m2 & s1 & s2 & frac & E & D1 & D2 & D3 & D4 & D5 & D6 & Df & Hn & Hp).
      rewrite Hp. split; [reflexivity|].
      exists h1, h2, m1, m2, s1, s2, frac. repeat split; assumption.
    + destruct (IH H) as [Hi Hs]. rewrite Hi.
      split; [destruct (prefix _ _); reflexivity|exact Hs].
Qed.

Lemma capture_split (h1 h2 m1 m2 s1 s2 : ascii) (frac : string) :
  is_digit h1 = true -> is_digit h2 = true ->
  is_digit m1 = true -> is_digit m2 = true ->
  is_digit s1 = true -> is_digit s2 = true ->
  all_digits frac = true ->
  split ":" (String h1 (String h2 (String ":" (String m1 (String m2 (String ":"
            (String s1 (String s2 (String "." frac)))))))))
  = [String h1 (String h2 EmptyString); String m1 (String m2 EmptyString);
     String s1 (String s2 (String "." frac))].
Proof.
  intros D1 D2 D3 D4 D5 D6 Df.
  destruct (digit_cases h1 D1) as (E1 & _). destruct (digit_cases h2 D2) as (E2 & _).
  destruct (digit_cases m1 D3) as (E3 & _). destruct (digit_cases m2 D4) as (E4 & _).
  destruct (digit_cases s1 D5) as (E5 & _). destruct (digit_cases s2 D6) as (E6 & _).
  cbn [split]. rewrite E1, E2, E3, E4, E5, E6.
  change (Ascii.eqb ":" ":") with true. change (Ascii.eqb "." ":") with false.
  cbv iota. rewrite (split_no_colon frac Df). reflexivity.
Qed.

(** The timestamp of a captured token is a non-negative number. *)
Lemma capture_time_nonneg (line cap : string) :
  match_time line = Some cap -> num_le (Fin 0%Qc) (parseFfmpegTime cap).
Proof.
  intros H. destruct (match_time_shape line cap H)
    as (_ & h1 & h2 & m1 & m2 & s1 & s2 & frac & -> & D1 & D2 & D3 & D4 & D5 & D6 & Df & _).
  unfold parseFfmpegTime. rewrite (capture_split _ _ _ _ _ _ _ D1 D2 D3 D4 D5 D6 Df).
  apply nonneg_add; [apply nonneg_add|].
  - apply nonneg_mul; [lia|]. apply parseFloat_digit_nonneg, D1.
  - apply nonneg_mul; [lia|]. apply parseFloat_digit_nonneg, D3.
  - apply parseFloat_digit_nonneg, D5.
Qed.

Lemma progress_of_line_match (d : number) (line cap : string) :
  match_time line = Some cap ->
  progress_of_line d line = Some (percent_of d (parseFfmpegTime cap)).
Proof.
  intros H. destruct (match_time_shape line cap H) as (Hi & h1 & h2 & m1 & m2 & s1 & s2 & frac & E & _).
  unfold progress_of_line. rewrite Hi, H. rewrite E. reflexivity.
Qed.

Lemma progress_of_line_none (d : number) (line : string) :
  match_time line = None -> progress_of_line d line = None.
Proof.
  intros H. unfold progress_of_line. rewrite H. destruct (includes _ _); reflexivity.
Qed.

End Capture.

(** ** The progress logger in the event loop *)

Lemma nums_same_eq (l1 l2 : list number) : nums_same l1 l2 = true -> l1 = l2.
Proof.
  revert l2. induction l1 as [|x l1 IH]; intros [|y l2]; simpl; try discriminate.
  - reflexivity.
  - intros H. apply andb_true_iff in H as [Hx Hl].
    now rewrite (num_same_eq x y Hx), (IH l2 Hl).
Qed.

Lemma commit_published (w : World) : published (commit w) = published w.
Proof.
  unfold commit. destruct (deps_same _ _); [reflexivity|].
  unfold slow_effect. destruct (_ && _)%bool; reflexivity.
Qed.

Lemma commit_ffmpeg (w : World) : ffmpeg (commit w) = ffmpeg w.
Proof.
  unfold commit. destruct (deps_same _ _); [reflexivity|].
  unfold slow_effect. destruct (_ && _)%bool; reflexivity.
Qed.

Lemma commit_pending (w : World) : pending (commit w) = pending w.
Proof.
  unfold commit. destruct (deps_same _ _); [reflexivity|].
  unfold slow_effect. destruct (_ && _)%bool; reflexivity.
Qed.

Lemma engine_log_published (d : number) (line : string) (w : World) :
  logger (ffmpeg w) = ProgressLogger d ->
  published (engine_log line w)
  = (published w ++ match progress_of_line d line with Some p => [p] | None => [] end)%list.
Proof.
  intros H. unfold engine_log. rewrite H.
  destruct (progress_of_line d line); simpl; [reflexivity|now rewrite app_nil_r].
Qed.

Lemma engine_log_ffmpeg (line : string) (w : World) :
  ffmpeg (engine_log line w) = ffmpeg w.
Proof.
  unfold engine_log. destruct (logger (ffmpeg w)); try reflexivity.
  destruct (progress_of_line _ _); reflexivity.
Qed.

(** The values published while a sequence of lines reaches the logger. *)
Lemma run_lines_published (d : number) (lines : list string) (w : World) :
  logger (ffmpeg w) = ProgressLogger d ->
  published (run w (map EngineLog lines)) = (published w ++ sink_outputs d lines)%list.
Proof.
  revert w. induction lines as [|l lines IH]; intros w H.
  - simpl. now rewrite app_nil_r.
  - cbn [map run fold_left]. fold (run (step w (EngineLog l)) (map EngineLog lines)).
    rewrite IH.
    + cbn [step handle]. rewrite commit_published, (engine_log_published d l w H).
      unfold sink_outputs. cbn [collect]. rewrite <- app_assoc.
      destruct (progress_of_line d l); reflexivity.
    + cbn [step handle]. now rewrite commit_ffmpeg, engine_log_ffmpeg.
Qed.

Lemma sink_outputs_map (d : number) (lines : list string) :
  sink_outputs d lines = map (percent_of d) (collect line_time lines).
Proof.
  unfold sink_outputs. induction lines as [|l lines IH]; [reflexivity|].
  cbn [collect]. unfold line_time at 1.
  destruct (match_time l) as [cap|] eqn:Hm.
  - rewrite (progress_of_line_match d l cap Hm). cbn [option_map map]. now rewrite IH.
  - rewrite (progress_of_line_none d l Hm). exact IH.
Qed.

Lemma Sorted_map_monotone (f : number -> number) (l : list number) :
  monotone f -> Sorted num_le l -> Sorted num_le (map f l).
Proof.
  intros Hf Hs. induction Hs as [|x l Hs IH Hd]; [constructor|].
  cbn [map]. constructor; [exact IH|].
  destruct Hd as [|y l' Hxy]; constructor. apply Hf, Hxy.
Qed.

(** C1, refuted as stated: a later log line with a smaller timestamp
    publishes a smaller progress value; with a requested duration of 10 s
    the lines at 5 s and 3 s publish 50 and then 30. *)
Lemma progress_monotone_counterexample :
  let w := run (world_with_file (mkFile "a.mp4" 1000 []))
               [ExportClick; FetchSettled None;
                EngineLog "frame=  120 fps= 30 time=00:00:05.00 bitrate= 419.4kbits/s";
                EngineLog "frame=  121 fps= 30 time=00:00:03.00 bitrate= 419.4kbits/s"] in
  published w = [num_of_Z 0; num_of_Z 50; num_of_Z 30]
  /\ progress (st w) = num_of_Z 30
  /\ num_ltb (num_of_Z 30) (num_of_Z 50) = true
  /\ ~ Sorted num_le (published w).
Proof.
  intros w.
  assert (E : published w = [num_of_Z 0; num_of_Z 50; num_of_Z 30])
    by (apply nums_same_eq; vm_compute; reflexivity).
  split; [exact E|].
  split; [apply num_same_eq; vm_compute; reflexivity|].
  split; [reflexivity|].
  rewrite E. intros H.
  apply Sorted_inv in H as [H _]. apply Sorted_inv in H as [_ H].
  apply HdRel_inv in H. discriminate H.
Qed.

(** C1, amended: for a job with a positive requested duration, the
    published values are those of the lines, each computed from the
    timestamp of its own line alone; they are non-decreasing over every
    sequence of log lines whose raw timestamps are non-decreasing; and of
    two lines the one with the smaller raw timestamp publishes a value that
    is not larger, whichever comes first. *)
Theorem progress_monotone_amended (b : Qc) (w : World) (lines : list string) :
  (0 < b)%Q ->
  logger (ffmpeg w) = ProgressLogger (Fin b) ->
  published (run w (map EngineLog lines)) = (published w ++ sink_outputs (Fin b) lines)%list
  /\ sink_outputs (Fin b) lines = map (percent_of (Fin b)) (collect line_time lines)
  /\ (Sorted num_le (collect line_time lines) ->
      Sorted num_le (sink_outputs (Fin b) lines))
  /\ (forall (l1 l2 : string) (t1 t2 : number),
         line_time l1 = Some t1 -> line_time l2 = Some t2 -> num_le t2 t1 ->
         exists p1 p2 : number,
           progress_of_line (Fin b) l1 = Some p1
           /\ progress_of_line (Fin b) l2 = Some p2
           /\ num_le p2 p1).
Proof.
  intros Hb Hl. split; [apply run_lines_published, Hl|].
  split; [apply sink_outputs_map|]. split.
  - intros Hs. rewrite sink_outputs_map. apply Sorted_map_monotone; [|exact Hs].
    apply percent_of_monotone, Hb.
  - intros l1 l2 t1 t2 H1 H2 Ht. unfold line_time in H1, H2.
    destruct (match_time l1) as [c1|] eqn:M1; [|discriminate H1].
    destruct (match_time l2) as [c2|] eqn:M2; [|discriminate H2].
    cbn [option_map] in H1, H2. injection H1 as <-. injection H2 as <-.
    exists (percent_of (Fin b) (parseFfmpegTime c1)),
           (percent_of (Fin b) (parseFfmpegTime c2)).
    split; [now apply progress_of_line_match|].
    split; [now apply progress_of_line_match|].
    apply (percent_of_monotone b Hb), Ht.
Qed.

Lemma progress_monotone_amended_witness :
  let w := setLogger (ProgressLogger (Fin (Q2Qc 10))) initial_world in
  let lines := ["time=00:00:02.50"; "size=   256kB"; "time=00:00:02.50"; "time=00:00:07.10"] in
  published (run w (map EngineLog lines))
  = (published w ++ sink_outputs (Fin (Q2Qc 10)) lines)%list
  /\ Sorted num_le (sink_outputs (Fin (Q2Qc 10)) lines).
Proof.
  intros w lines.
  destruct (progress_monotone_amended (Q2Qc 10) w lines) as (A & _ & S & _);
    [reflexivity|reflexivity|].
  split; [exact A|]. apply S. repeat constructor.
Defined.

(** C6, refuted as stated: the source can be trimmed to an empty range;
    the requested duration is then 0 and a line with the timestamp 0
    publishes NaN, which is no integer and lies outside [0,100]. *)
Lemma progress_value_counterexample :
  let w := run initial_world
               [InitLoadSettled None; FileChange (Some (mkFile "a.mp4" 1000 []));
                SliderChange (num_of_Z 3, num_of_Z 3); ExportClick; FetchSettled None] in
  let line := "frame=    0 fps=0.0 q=0.0 size=       0kB time=00:00:00.00 bitrate=N/A" in
  logger (ffmpeg w) = ProgressLogger (num_sub (num_of_Z 3) (num_of_Z 3))
  /\ match_time line = Some "00:00:00.00"
  /\ progress_of_line (num_sub (num_of_Z 3) (num_of_Z 3)) line = Some NaN
  /\ published (engine_log line w) = [num_of_Z 0; NaN]
  /\ progress (st (engine_log line w)) = NaN
  /\ num_leb (num_of_Z 0) NaN = false
  /\ num_leb NaN (num_of_Z 100) = false
  /\ (forall n : Z, NaN <> num_of_Z n).
Proof.
  intros w line.
  assert (P : progress_of_line (num_sub (num_of_Z 3) (num_of_Z 3)) line = Some NaN)
    by (vm_compute; reflexivity).
  assert (L : logger (ffmpeg w) = ProgressLogger (num_sub (num_of_Z 3) (num_of_Z 3)))
    by reflexivity.
  split; [exact L|]. split; [reflexivity|]. split; [exact P|].
  split; [|split; [|split; [reflexivity|split; [reflexivity|discriminate]]]].
  - rewrite (engine_log_published _ line w L), P.
    apply nums_same_eq. vm_compute. reflexivity.
  - unfold engine_log. rewrite L, P. reflexivity.
Qed.

(** C6, amended: for a log line with a well-formed [time=] token and a
    positive requested duration, the published value is the timestamp over the
    duration as a percentage, clamped to [0,100] and rounded to the nearest
    integer; it is an integer between 0 and 100, and exactly 100 when the
    timestamp reaches the duration. *)
Theorem progress_value_published (b : Qc) (line cap : string) (w : World) :
  (0 < b)%Q ->
  match_time line = Some cap ->
  logger (ffmpeg w) = ProgressLogger (Fin b) ->
  progress_of_line (Fin b) line = Some (spec_percent (Fin b) (parseFfmpegTime cap))
  /\ published (engine_log line w)
     = (published w ++ [spec_percent (Fin b) (parseFfmpegTime cap)])%list
  /\ progress (st (engine_log line w)) = spec_percent (Fin b) (parseFfmpegTime cap)
  /\ (exists n : Z,
         (0 <= n <= 100)%Z /\ spec_percent (Fin b) (parseFfmpegTime cap) = num_of_Z n)
  /\ (num_le (Fin b) (parseFfmpegTime cap) ->
      spec_percent (Fin b) (parseFfmpegTime cap) = num_of_Z 100).
Proof.
  intros Hb Hm Hl.
  pose proof (capture_time_nonneg line cap Hm) as Ht.
  pose proof (ratio_nonneg b _ Hb Ht) as Hr.
  assert (E : percent_of (Fin b) (parseFfmpegTime cap)
              = spec_percent (Fin b) (parseFfmpegTime cap))
    by apply (min_round_clamp _ Hr).
  pose proof (progress_of_line_match (Fin b) line cap Hm) as Hp. rewrite E in Hp.
  split; [exact Hp|]. split; [|split; [|split]].
  - rewrite (engine_log_published (Fin b) line w Hl), Hp. reflexivity.
  - unfold engine_log. rewrite Hl, Hp. reflexivity.
  - rewrite <- E. apply (min_round_range _ Hr).
  - intros Hd. rewrite <- E. apply percent_of_full; assumption.
Qed.

Lemma progress_value_published_witness :
  let w := setLogger (ProgressLogger (Fin (Q2Qc 10))) initial_world in
  let line := "frame=  300 fps= 25 q=28.0 size=  512kB time=00:00:12.48 bitrate= 336.1kbits/s" in
  progress_of_line (Fin (Q2Qc 10)) line = Some (num_of_Z 100)
  /\ published (engine_log line w) = (published w ++ [num_of_Z 100])%list
  /\ progress (st (engine_log line w)) = num_of_Z 100.
Proof.
  intros w line.
  destruct (progress_value_published (Q2Qc 10) line "00:00:12.48" w)
    as (A & B & C & _ & E); [reflexivity|reflexivity|reflexivity|].
  assert (H : num_le (Fin (Q2Qc 10)) (parseFfmpegTime "00:00:12.48"))
    by (vm_compute; reflexivity).
  rewrite (E H) in A, B, C. split; [exact A|]. split; [exact B|exact C].
Defined.

(** ** Invariants of the event loop *)

Lemma num_eqb_zero (p : number) :
  num_eqb p (num_of_Z 0) = true -> p = num_of_Z 0.
Proof.
  intros H. apply num_same_eq. destruct p; try discriminate H. exact H.
Qed.

Lemma stalled_current (w : World) :
  stalled w = true ->
  (isProcessing (st w), progress (st w)) = (true, num_of_Z 0).
Proof.
  unfold stalled. intros H. apply andb_true_iff in H as [H1 H2].
  now rewrite H1, (num_eqb_zero _ H2).
Qed.

Lemma deps_same_eq (a b : bool * number) : deps_same a b = true -> a = b.
Proof.
  destruct a as [a1 a2], b as [b1 b2]. unfold deps_same. simpl.
  intros H. apply andb_true_iff in H as [H1 H2].
  apply Bool.eqb_prop in H1. apply num_same_eq in H2. congruence.
Qed.

Lemma deps_same_refl (a : bool * number) : deps_same a a = true.
Proof.
  destruct a as [a1 a2]. unfold deps_same. simpl.
  now rewrite Bool.eqb_reflx, num_same_refl.
Qed.

Lemma commit_id (w : World) :
  deps w = (isProcessing (st w), progress (st w)) -> commit w = w.
Proof. intros H. unfold commit. now rewrite H, deps_same_refl. Qed.

Lemma commit_isProcessing (w : World) :
  isProcessing (st (commit w)) = isProcessing (st w).
Proof.
  unfold commit. destruct (deps_same _ _); [reflexivity|].
  unfold slow_effect. destruct (_ && _)%bool; reflexivity.
Qed.

Lemma commit_progress (w : World) : progress (st (commit w)) = progress (st w).
Proof.
  unfold commit. destruct (deps_same _ _); [reflexivity|].
  unfold slow_effect. destruct (_ && _)%bool; reflexivity.
Qed.

Lemma commit_done_timers (w : World) : done_timers (commit w) = done_timers w.
Proof.
  unfold commit. destruct (deps_same _ _); [reflexivity|].
  unfold slow_effect. destruct (_ && _)%bool; reflexivity.
Qed.

Lemma commit_message (w : World) : message (st (commit w)) = message (st w).
Proof.
  unfold commit. destruct (deps_same _ _); [reflexivity|].
  unfold slow_effect. destruct (_ && _)%bool; reflexivity.
Qed.

Lemma commit_error (w : World) : error (st (commit w)) = error (st w).
Proof.
  unfold commit. destruct (deps_same _ _); [reflexivity|].
  unfold slow_effect. destruct (_ && _)%bool; reflexivity.
Qed.

Lemma commit_videoFile (w : World) : videoFile (st (commit w)) = videoFile (st w).
Proof.
  unfold commit. destruct (deps_same _ _); [reflexivity|].
  unfold slow_effect. destruct (_ && _)%bool; reflexivity.
Qed.

Lemma commit_stalled (w : World) : stalled (commit w) = stalled w.
Proof. unfold stalled. now rewrite commit_isProcessing, commit_progress. Qed.

(** A render commit re-establishes the monitor invariant after a handler
    that leaves the timeout and the deps alone and that lowers [isSlow] only
    when it raises [isProcessing]. *)
Lemma commit_monitor (w0 w : World) :
  monitor_inv w0 ->
  slow_timer w = slow_timer w0 ->
  deps w = deps w0 ->
  (isSlow (st w) = isSlow (st w0)
   \/ (isProcessing (st w0) = false /\ isProcessing (st w) = true
       /\ isSlow (st w) = false)) ->
  monitor_inv (commit w).
Proof.
  intros [Hd Hm] Ht Hdeps Hs. unfold commit.
  destruct (deps_same (deps w) (isProcessing (st w), progress (st w))) eqn:E.
  - apply deps_same_eq in E. split; [exact E|].
    assert (Hc : (isProcessing (st w), progress (st w))
                 = (isProcessing (st w0), progress (st w0))) by congruence.
    injection Hc as Hp Hg.
    assert (Hst : stalled w = stalled w0) by (unfold stalled; now rewrite Hp, Hg).
    rewrite Hst, Ht.
    destruct Hs as [Hs | (Hf & Htr & _)]; [now rewrite Hs|congruence].
  - assert (Hslow : stalled w = true -> isSlow (st w) = false).
    { intros Hst. destruct (stalled w0) eqn:Hst0.
      - exfalso. apply stalled_current in Hst, Hst0.
        rewrite Hdeps, Hd, Hst0, Hst in E. discriminate E.
      - destruct Hm as [_ Hm]. destruct Hs as [Hs | (_ & _ & Hs)]; congruence. }
    unfold slow_effect. cbn [set_slow_timer set_deps st].
    fold (stalled w). destruct (stalled w) eqn:Hst.
    + split; [reflexivity|]. unfold stalled at 1. cbn. fold (stalled w). rewrite Hst.
      right. exists 5000%Z. repeat split; [lia|lia|]. now apply Hslow.
    + split; [reflexivity|]. unfold stalled at 1. cbn. fold (stalled w). rewrite Hst.
      split; reflexivity.
Qed.

Ltac case_conditions :=
  repeat match goal with
         | |- context [match ?c with _ => _ end] =>
             lazymatch c with
             | context [match _ with _ => _ end] => fail
             | _ => destruct c eqn:?
             end
         end.

Lemma handle_frame (e : Event) (w : World) :
  slow_timer (handle e w) = slow_timer w
  /\ deps (handle e w) = deps w
  /\ (isSlow (st (handle e w)) = isSlow (st w)
      \/ (isProcessing (st w) = false /\ isProcessing (st (handle e w)) = true
          /\ isSlow (st (handle e w)) = false)).
Proof.
  destruct e; cbn [handle];
    unfold init_load_settled, handleFileChange, handleLoadedMetadata,
      handleSliderChange, handleExport, export_after_load, export_after_fetch,
      export_after_run, export_catch, export_finally, engine_log, has_file;
    case_conditions; cbn; auto.
  all: split; [reflexivity|split; [reflexivity|right]].
  all: match goal with H : (_ && negb _)%bool = true |- _ =>
         apply andb_true_iff in H as [_ H]; apply negb_true_iff in H end.
  all: repeat split; assumption.
Qed.

Lemma tick_slow_monitor (w : World) : monitor_inv w -> monitor_inv (tick_slow w).
Proof.
  intros [Hd Hm]. unfold tick_slow.
  destruct (slow_timer w) as [r|] eqn:Ht; [|split; [exact Hd|now rewrite Ht]].
  destruct (stalled w) eqn:Hst.
  - destruct Hm as [[Hn _] | (r' & Hr & Hb & Hs)]; [discriminate|].
    injection Hr as <-.
    destruct (r <=? 1)%Z eqn:Hr1.
    + split; [exact Hd|]. unfold stalled. cbn. fold (stalled w). rewrite Hst.
      left. split; reflexivity.
    + apply Z.leb_gt in Hr1. split; [exact Hd|].
      unfold stalled. cbn. fold (stalled w). rewrite Hst.
      right. exists (r - 1)%Z. repeat split; [lia|lia|exact Hs].
  - destruct Hm as [Hn _]. discriminate.
Qed.

Lemma tick_slow_frame (w : World) :
  deps (tick_slow w) = deps w
  /\ isProcessing (st (tick_slow w)) = isProcessing (st w)
  /\ progress (st (tick_slow w)) = progress (st w)
  /\ pending (tick_slow w) = pending w
  /\ done_timers (tick_slow w) = done_timers w.
Proof.
  unfold tick_slow. destruct (slow_timer w); [|auto].
  destruct (_ <=? _)%Z; cbn; auto.
Qed.

Lemma tick_done_frame (w : World) :
  slow_timer (tick_done w) = slow_timer w
  /\ deps (tick_done w) = deps w
  /\ isSlow (st (tick_done w)) = isSlow (st w)
  /\ progress (st (tick_done w)) = progress (st w)
  /\ pending (tick_done w) = pending w.
Proof.
  unfold tick_done. destruct (filter _ _); cbn; auto.
Qed.

Lemma step_monitor (w : World) (e : Event) : monitor_inv w -> monitor_inv (step w e).
Proof.
  intros H. destruct e;
    try (cbn [step]; match goal with |- monitor_inv (commit (handle ?e w)) =>
           destruct (handle_frame e w) as (Ht & Hd & Hs);
           exact (commit_monitor w _ H Ht Hd Hs) end).
  cbn [step]. unfold tick.
  pose proof (tick_slow_monitor w H) as H1.
  assert (H2 : monitor_inv (commit (tick_slow w)))
    by (apply (commit_monitor _ _ H1); auto).
  destruct (tick_done_frame (commit (tick_slow w))) as (Ht & Hd & Hs & _).
  apply (commit_monitor _ _ H2 Ht Hd). left. exact Hs.
Qed.

Lemma commit_phase (w : World) : phase_inv w -> phase_inv (commit w).
Proof.
  unfold phase_inv. now rewrite commit_pending, commit_isProcessing, commit_done_timers.
Qed.

Lemma handle_phase (e : Event) (w : World) : phase_inv w -> phase_inv (handle e w).
Proof.
  unfold phase_inv.
  destruct e; cbn [handle];
    unfold init_load_settled, handleFileChange, handleLoadedMetadata,
      handleSliderChange, handleExport, export_after_load, export_after_fetch,
      export_after_run, export_catch, export_finally, engine_log, has_file;
    case_conditions; cbn; intros H;
    repeat match goal with
           | Hp : pending w = _ |- _ => rewrite ?Hp; revert Hp
           end; intros;
    try exact H.
  all: try match goal with
           | Hc : (_ && negb _)%bool = true |- _ =>
               apply andb_true_iff in Hc as [_ Hc]; apply negb_true_iff in Hc
           end.
  all: destruct H as [(Hp & Hi & Hd) | [(Hp & Hi & r0 & Hd & Hr) | (Hp & Hi & Hd)]];
    try congruence.
  all: try (left; split; [discriminate|split; [reflexivity|assumption]]).
  all: try (left; split; [discriminate|split; assumption]).
  all: right; left; split; [reflexivity|split; [assumption|]];
    exists 1000%Z; rewrite Hd; split; [reflexivity|lia].
Qed.

Lemma tick_done_phase (w : World) : phase_inv w -> phase_inv (tick_done w).
Proof.
  unfold phase_inv, tick_done.
  intros [(Hp & Hi & Hd) | [(Hp & Hi & r & Hd & Hr) | (Hp & Hi & Hd)]]; rewrite Hd.
  - cbn. left. auto.
  - cbn [filter]. destruct (r <=? 1)%Z eqn:E; cbn.
    + right; right. auto.
    + apply Z.leb_gt in E. right; left. repeat split; auto.
      exists (r - 1)%Z. split; [reflexivity|lia].
  - cbn. right; right. auto.
Qed.

Lemma step_phase (w : World) (e : Event) : phase_inv w -> phase_inv (step w e).
Proof.
  intros H. destruct e; try (cbn [step]; apply commit_phase, handle_phase, H).
  cbn [step]. unfold tick. apply commit_phase, tick_done_phase, commit_phase.
  destruct (tick_slow_frame w) as (_ & Hi & _ & Hp & Hd).
  unfold phase_inv. now rewrite Hi, Hp, Hd.
Qed.

Lemma initial_world_inv : world_inv initial_world.
Proof.
  split.
  - split; [reflexivity|]. cbn. split; reflexivity.
  - right; right. repeat split.
Qed.

Lemma step_inv (w : World) (e : Event) : world_inv w -> world_inv (step w e).
Proof. intros [Hm Hp]. split; [apply step_monitor, Hm|apply step_phase, Hp]. Qed.

Lemma run_inv (w : World) (es : list Event) : world_inv w -> world_inv (run w es).
Proof.
  revert w. induction es as [|e es IH]; intros w H; [exact H|].
  apply IH, step_inv, H.
Qed.

Lemma reachable_inv (w : World) : reachable w -> world_inv w.
Proof. intros [es ->]. apply run_inv, initial_world_inv. Qed.

(** ** The stall flag *)

Lemma step_stalled_timer (w : World) (e : Event) :
  monitor_inv w -> stalled w = true -> stalled (step w e) = true ->
  slow_timer (step w e)
  = match e with Tick => slow_timer (tick_slow w) | _ => slow_timer w end.
Proof.
  intros [Hd _] Hs Hs'. pose proof (stalled_current w Hs) as Hc.
  assert (Hstep : forall x : World,
             deps x = deps w -> stalled (commit x) = true -> commit x = x).
  { intros x Hx Hsx. rewrite commit_stalled in Hsx. apply commit_id.
    rewrite Hx, Hd, Hc. symmetry. now apply stalled_current. }
  destruct e;
    try (cbn [step] in *;
         match goal with |- context [commit (handle ?e w)] =>
           destruct (handle_frame e w) as (Ht & Hdp & _);
           rewrite (Hstep _ Hdp Hs'); exact Ht end).
  cbn [step] in *. unfold tick in *.
  destruct (tick_slow_frame w) as (Hd1 & Hi1 & Hp1 & _).
  assert (E1 : commit (tick_slow w) = tick_slow w).
  { apply commit_id. now rewrite Hd1, Hi1, Hp1. }
  rewrite E1 in *.
  destruct (tick_done_frame (tick_slow w)) as (Ht2 & Hd2 & _).
  rewrite (Hstep _ (eq_trans Hd2 Hd1) Hs'). exact Ht2.
Qed.

Lemma step_stalled_left (w : World) (e : Event) :
  monitor_inv w -> stalled w = true -> stalled (step w e) = true ->
  (slow_left (step w e)
   <= Z.max 0 (slow_left w - match e with Tick => 1 | _ => 0 end))%Z.
Proof.
  intros Hm Hs Hs'. unfold slow_left.
  rewrite (step_stalled_timer w e Hm Hs Hs').
  destruct Hm as [_ Hm]. rewrite Hs in Hm.
  destruct e; try (destruct (slow_timer w); lia).
  unfold tick_slow. destruct (slow_timer w) as [r|] eqn:Et; [|rewrite Et; lia].
  destruct (r <=? 1)%Z eqn:E; cbn; [lia|]. apply Z.leb_gt in E. lia.
Qed.

Lemma always_head (p : World -> bool) (w : World) (es : list Event) :
  always p w es = true -> p w = true.
Proof. destruct es; simpl; intros H; now apply andb_true_iff in H as [H _]. Qed.

Lemma always_tail (p : World -> bool) (w : World) (e : Event) (es : list Event) :
  always p w (e :: es) = true -> always p (step w e) es = true.
Proof. simpl. intros H. now apply andb_true_iff in H as [_ H]. Qed.

Lemma elapsed_nonneg (es : list Event) : (0 <= elapsed es)%Z.
Proof. induction es as [|e es IH]; [simpl; lia|]. destruct e; cbn [elapsed]; lia. Qed.

Lemma run_stalled_left (es : list Event) (w : World) :
  world_inv w -> always stalled w es = true ->
  (slow_left (run w es) <= Z.max 0 (slow_left w - elapsed es))%Z.
Proof.
  revert w. induction es as [|e es IH]; intros w Hw Ha.
  - simpl. lia.
  - pose proof (always_head _ _ _ Ha) as Hs.
    pose proof (always_tail _ _ _ _ Ha) as Ha'.
    pose proof (always_head _ _ _ Ha') as Hs'.
    pose proof (step_stalled_left w e (proj1 Hw) Hs Hs') as H1.
    pose proof (IH (step w e) (step_inv w e Hw) Ha') as H2.
    change (run w (e :: es)) with (run (step w e) es).
    pose proof (elapsed_nonneg es) as He.
    destruct e; cbn [elapsed]; cbv iota in H1; lia.
Qed.

Lemma encoding_stalled (w : World) :
  world_inv w -> encoding_at_zero w = true -> stalled w = true.
Proof.
  intros [_ Hp] H. unfold encoding_at_zero, encoding in H.
  apply andb_true_iff in H as [He Hz]. unfold stalled. rewrite Hz.
  destruct (pending w) eqn:E; try discriminate He.
  destruct Hp as [(_ & Hi & _) | [(Hp & _) | (Hp & _)]]; try congruence.
  now rewrite Hi.
Qed.

Lemma always_encoding_stalled (es : list Event) (w : World) :
  world_inv w -> always encoding_at_zero w es = true -> always stalled w es = true.
Proof.
  revert w. induction es as [|e es IH]; intros w Hw Ha.
  - simpl in *. apply andb_true_iff in Ha as [Ha _].
    now rewrite (encoding_stalled w Hw Ha).
  - pose proof (always_head _ _ _ Ha) as Hs.
    pose proof (always_tail _ _ _ _ Ha) as Ha'.
    cbn [always]. rewrite (encoding_stalled w Hw Hs).
    now rewrite (IH (step w e) (step_inv w e Hw) Ha').
Qed.

Lemma slow_left_bound (w : World) : monitor_inv w -> (slow_left w <= 5000)%Z.
Proof.
  intros [_ Hm]. unfold slow_left.
  destruct (stalled w); [destruct Hm as [[-> _] | (r & -> & Hr & _)]|destruct Hm as [-> _]]; lia.
Qed.

(** Five seconds of encoding at progress 0 raise the flag. *)
Lemma stall_raised (w : World) (es : list Event) :
  world_inv w -> always encoding_at_zero w es = true -> (5000 <= elapsed es)%Z ->
  isSlow (st (run w es)) = true.
Proof.
  intros Hw Ha He.
  pose proof (always_encoding_stalled es w Hw Ha) as Hs.
  pose proof (run_stalled_left es w Hw Hs) as Hl.
  pose proof (slow_left_bound w (proj1 Hw)) as Hb.
  pose proof (run_inv w es Hw) as [[_ Hm] _].
  assert (Hfin : stalled (run w es) = true).
  { clear - Hs. revert w Hs. induction es as [|e es IH]; intros w Hs.
    - now apply always_head in Hs.
    - apply (IH (step w e)). now apply always_tail in Hs. }
  rewrite Hfin in Hm. destruct Hm as [[_ H] | (r & Hr & Hrb & _)]; [exact H|].
  unfold slow_left at 1 in Hl. rewrite Hr in Hl. lia.
Qed.

Ltac unfold_world :=
  cbv beta iota zeta delta
    [handle tick_slow tick_done commit slow_effect init_load_settled
     handleFileChange handleLoadedMetadata handleSliderChange handleExport
     export_after_load export_after_fetch export_after_run export_catch
     export_finally engine_log has_file
     setReady setVideoFile setDuration setRange setIsProcessing setMessage
     setError setIsSlow setProgressRef setProgress setLogger
     with_st with_ffmpeg set_init_load set_pending set_deps set_slow_timer
     set_done_timers set_published set_downloads
     st_setReady st_setVideoFile st_setDuration st_setRange st_setProgress
     st_setIsProcessing st_setMessage st_setError st_setIsSlow st_setProgressRef
     eng_setLoaded eng_setLogger eng_setFS
     st ffmpeg init_load pending deps slow_timer done_timers published downloads
     ready videoFile duration range progress isProcessing message error isSlow
     progressRef loaded logger fs
     job_file safeInputName safeOutputName startTime endTime durationTime].

Ltac erase_slow_tac w :=
  destruct w as [[] [] ? ? ? ? ? ? ?];
  unfold_world; case_conditions; unfold_world; reflexivity.

(** No handler reads [isSlow]. *)
Lemma erase_slow_handle (e : Event) (w : World) :
  setIsSlow false (handle e (setIsSlow false w)) = setIsSlow false (handle e w).
Proof. destruct e; erase_slow_tac w. Qed.

Lemma erase_slow_commit (w : World) :
  setIsSlow false (commit (setIsSlow false w)) = setIsSlow false (commit w).
Proof. erase_slow_tac w. Qed.

Lemma erase_slow_tick_slow (w : World) :
  setIsSlow false (tick_slow (setIsSlow false w)) = setIsSlow false (tick_slow w).
Proof. erase_slow_tac w. Qed.

Lemma erase_slow_tick_done (w : World) :
  setIsSlow false (tick_done (setIsSlow false w)) = setIsSlow false (tick_done w).
Proof. erase_slow_tac w. Qed.

Lemma same_but_slow_lift (f : World -> World) :
  (forall w, setIsSlow false (f (setIsSlow false w)) = setIsSlow false (f w)) ->
  forall x y, same_but_slow x y -> same_but_slow (f x) (f y).
Proof.
  unfold same_but_slow. intros Hf x y H. now rewrite <- (Hf x), <- (Hf y), H.
Qed.

Lemma same_but_slow_step (x y : World) (e : Event) :
  same_but_slow x y -> same_but_slow (step x e) (step y e).
Proof.
  intros H.
  assert (Hh : forall e', same_but_slow (commit (handle e' x)) (commit (handle e' y))).
  { intros e'. apply (same_but_slow_lift _ erase_slow_commit).
    apply (same_but_slow_lift _ (erase_slow_handle e')), H. }
  destruct e; try apply Hh.
  cbn [step]. unfold tick.
  apply (same_but_slow_lift _ erase_slow_commit).
  apply (same_but_slow_lift _ erase_slow_tick_done).
  apply (same_but_slow_lift _ erase_slow_commit).
  apply (same_but_slow_lift _ erase_slow_tick_slow), H.
Qed.

Lemma same_but_slow_run (es : list Event) (x y : World) :
  same_but_slow x y -> same_but_slow (run x es) (run y es).
Proof.
  revert x y. induction es as [|e es IH]; intros x y H; [exact H|].
  apply IH, same_but_slow_step, H.
Qed.

Lemma tick_pending (w : World) : pending (tick w) = pending w.
Proof.
  unfold tick. rewrite commit_pending.
  destruct (tick_done_frame (commit (tick_slow w))) as (_ & _ & _ & _ & ->).
  rewrite commit_pending. now destruct (tick_slow_frame w) as (_ & _ & _ & -> & _).
Qed.
(** ** Termination of an export *)

Lemma termination_handle (e : Event) (w : World) :
  pending w <> PIdle -> pending (handle e w) = PIdle ->
  logger (ffmpeg (handle e w)) = NoopLogger
  /\ (succeeded (handle e w) \/ failed (handle e w))
  /\ done_timers (handle e w) = (done_timers w ++ [1000])%list.
Proof.
  unfold succeeded, failed. destruct w as [[] [] ? ? ? ? ? ? ?].
  destruct e; unfold_world; case_conditions; unfold_world; intros Hp Hq;
    try congruence.
  all: split; [reflexivity|split; [|reflexivity]].
  all: (left; split; reflexivity) || (right; split; reflexivity).
Qed.

Lemma termination_step (e : Event) (w : World) :
  pending w <> PIdle -> pending (step w e) = PIdle ->
  logger (ffmpeg (step w e)) = NoopLogger
  /\ (succeeded (step w e) \/ failed (step w e))
  /\ done_timers (step w e) = (done_timers w ++ [1000])%list.
Proof.
  intros Hp Hq.
  assert (Hh : forall e', pending (commit (handle e' w)) = PIdle ->
     logger (ffmpeg (commit (handle e' w))) = NoopLogger
     /\ (succeeded (commit (handle e' w)) \/ failed (commit (handle e' w)))
     /\ done_timers (commit (handle e' w)) = (done_timers w ++ [1000])%list).
  { intros e' Hq'. rewrite commit_pending in Hq'.
    destruct (termination_handle e' w Hp Hq') as (Hl & Ho & Hd).
    unfold succeeded, failed.
    rewrite commit_ffmpeg, commit_message, commit_progress, commit_error,
      commit_done_timers.
    auto. }
  destruct e; try (apply Hh; exact Hq).
  cbn [step] in Hq. rewrite tick_pending in Hq. contradiction.
Qed.

Lemma tick_done_timers (w : World) :
  done_timers (tick w)
  = map (fun r => (r - 1)%Z) (filter (fun r => negb (r <=? 1)%Z) (done_timers w)).
Proof.
  unfold tick. rewrite commit_done_timers.
  assert (E : done_timers (commit (tick_slow w)) = done_timers w).
  { rewrite commit_done_timers. now destruct (tick_slow_frame w) as (_ & _ & _ & _ & ->). }
  unfold tick_done. rewrite E. destruct (filter _ (done_timers w)); reflexivity.
Qed.

Lemma tick_isProcessing (w : World) :
  isProcessing (st (tick w))
  = match filter (fun r => (r <=? 1)%Z) (done_timers w) with
    | [] => isProcessing (st w)
    | _ :: _ => false
    end.
Proof.
  unfold tick. rewrite commit_isProcessing.
  assert (E : done_timers (commit (tick_slow w)) = done_timers w).
  { rewrite commit_done_timers. now destruct (tick_slow_frame w) as (_ & _ & _ & _ & ->). }
  assert (Ei : isProcessing (st (commit (tick_slow w))) = isProcessing (st w)).
  { rewrite commit_isProcessing. now destruct (tick_slow_frame w) as (_ & -> & _). }
  unfold tick_done. rewrite E. destruct (filter _ (done_timers w)); [exact Ei|reflexivity].
Qed.

Lemma tick_videoFile (w : World) : videoFile (st (tick w)) = videoFile (st w).
Proof.
  unfold tick. rewrite commit_videoFile.
  unfold tick_done. destruct (filter _ _); cbn; rewrite commit_videoFile;
    unfold tick_slow; destruct (slow_timer w) as [r|]; try reflexivity;
    destruct (r <=? 1)%Z; reflexivity.
Qed.

Lemma run_ticks_S (n : nat) (w : World) :
  run w (repeat Tick (S n)) = run (tick w) (repeat Tick n).
Proof. reflexivity. Qed.

Lemma ticks_keep_idle (n : nat) (w : World) :
  isProcessing (st w) = false -> isProcessing (st (run w (repeat Tick n))) = false.
Proof.
  revert w. induction n as [|n IH]; intros w H; [exact H|].
  rewrite run_ticks_S. apply IH. rewrite tick_isProcessing, H.
  destruct (filter _ _); reflexivity.
Qed.

(** A pending 1000 ms timeout clears [isProcessing] once its time has
    passed. *)
Lemma ticks_fire (n : nat) (w : World) (r : Z) :
  In r (done_timers w) -> (r <= Z.of_nat n)%Z -> (1 <= n)%nat ->
  isProcessing (st (run w (repeat Tick n))) = false.
Proof.
  revert w r. induction n as [|n IH]; intros w r Hin Hr Hn; [lia|].
  rewrite run_ticks_S. destruct (r <=? 1)%Z eqn:E.
  - apply ticks_keep_idle. rewrite tick_isProcessing.
    assert (Hf : In r (filter (fun r => (r <=? 1)%Z) (done_timers w)))
      by (apply filter_In; auto).
    destruct (filter _ _); [contradiction|reflexivity].
  - apply Z.leb_gt in E. apply (IH (tick w) (r - 1)%Z); [|lia|lia].
    rewrite tick_done_timers. apply in_map_iff. exists r. split; [reflexivity|].
    apply filter_In. split; [exact Hin|]. apply negb_true_iff. now apply Z.leb_gt.
Qed.

Lemma ticks_videoFile (n : nat) (w : World) :
  videoFile (st (run w (repeat Tick n))) = videoFile (st w).
Proof.
  revert w. induction n as [|n IH]; intros w; [reflexivity|].
  now rewrite run_ticks_S, IH, tick_videoFile.
Qed.

(** Before the timeout fires the job stays marked as in progress. *)
Lemma ticks_before (n : nat) (w : World) (r : Z) :
  done_timers w = [r] -> (Z.of_nat n < r)%Z ->
  isProcessing (st (run w (repeat Tick n))) = isProcessing (st w).
Proof.
  revert w r. induction n as [|n IH]; intros w r Hd Hr; [reflexivity|].
  rewrite run_ticks_S.
  assert (E : (r <=? 1)%Z = false) by (apply Z.leb_gt; lia).
  rewrite (IH (tick w) (r - 1)%Z).
  - rewrite tick_isProcessing, Hd. cbn [filter]. now rewrite E.
  - rewrite tick_done_timers, Hd. cbn [filter]. now rewrite E.
  - lia.
Qed.

Lemma export_click_starts (w : World) (f : File) :
  isProcessing (st w) = false -> videoFile (st w) = Some f ->
  exists j, pending_job (pending (step w ExportClick)) = Some j.
Proof.
  intros Hi Hf. cbn [step handle]. unfold has_file. rewrite Hf, Hi. cbn [andb negb].
  rewrite commit_pending.
  destruct (handleExport_job w f Hf) as (j & Hj & _). now exists j.
Qed.

Lemma run_app (w : World) (es1 es2 : list Event) :
  run w (es1 ++ es2) = run (run w es1) es2.
Proof. apply fold_left_app. Qed.

(** ** The stall flag

    The flag is a function of what the monitor has seen: it is down in every
    reachable world that is not marked as in progress. *)
Lemma idle_flag_down (w : World) :
  world_inv w -> isProcessing (st w) = false -> isSlow (st w) = false.
Proof.
  intros [[_ Hm] _] Hi. unfold stalled in Hm. rewrite Hi in Hm. apply Hm.
Qed.

(** C8, refuted as stated: when the run of the engine is rejected with the
    progress at 0 and the flag raised, the job has ended but the flag stays
    raised: for 999 ms more, until the mark of the job in progress is
    cleared. *)
Lemma stall_flag_counterexample :
  let es := [InitLoadSettled None;
             FileChange (Some (mkFile "talk.webm" 4096 []));
             ExportClick; FetchSettled None] in
  let w := run initial_world
               (es ++ repeat Tick 5000 ++ [RunSettled None (Some "exit 1")]) in
  pending w = PIdle
  /\ failed w
  /\ isSlow (st w) = true
  /\ isSlow (st (run w (repeat Tick 999))) = true
  /\ isSlow (st (run w (repeat Tick 1000))) = false.
Proof. vm_compute. repeat split. Qed.

(** C8, amended: for every reachable world, (1) five seconds that pass
    while the job is encoding with progress at exactly 0 leave the stall
    flag raised; (2) the flag is down whenever the job is not marked as in
    progress or progress is not 0, so it is lowered as soon as progress
    leaves 0; (3) 1000 ms after the step that ends the job the flag is
    down; (4) what the event loop does never depends on the flag, and the
    passing of time, the firing of the stall timeout included, leaves the
    running job where it is. *)
Theorem stall_flag_advisory (es : list Event) :
  (forall es2 : list Event,
      always encoding_at_zero (run initial_world es) es2 = true ->
      (5000 <= elapsed es2)%Z ->
      isSlow (st (run (run initial_world es) es2)) = true)
  /\ (isProcessing (st (run initial_world es)) = false
      \/ progress (st (run initial_world es)) <> num_of_Z 0 ->
      isSlow (st (run initial_world es)) = false)
  /\ (forall e : Event,
         pending (run initial_world es) <> PIdle ->
         pending (step (run initial_world es) e) = PIdle ->
         isSlow (st (run (step (run initial_world es) e) (repeat Tick 1000))) = false)
  /\ (forall (b : bool) (es' : list Event),
         same_but_slow (run (setIsSlow b (run initial_world es)) es')
                       (run (run initial_world es) es'))
  /\ pending (step (run initial_world es) Tick) = pending (run initial_world es).
Proof.
  pose proof (run_inv initial_world es initial_world_inv) as Hw.
  split; [|split; [|split; [|split]]].
  - intros es2 Ha He. now apply stall_raised.
  - intros H. destruct Hw as [[_ Hm] _].
    assert (Hs : stalled (run initial_world es) = false).
    { unfold stalled. destruct H as [-> | H]; [reflexivity|].
      destruct (num_eqb _ _) eqn:E; [|apply andb_false_r].
      apply num_eqb_zero in E. contradiction. }
    rewrite Hs in Hm. apply Hm.
  - intros e Hp Hq. destruct (termination_step e _ Hp Hq) as (_ & _ & Hd).
    apply idle_flag_down.
    + apply run_inv, step_inv, Hw.
    + apply (ticks_fire 1000 _ 1000%Z); [|lia|lia].
      rewrite Hd. apply in_or_app. right. left. reflexivity.
  - intros b es'. apply same_but_slow_run. reflexivity.
  - apply tick_pending.
Qed.

Lemma stall_flag_advisory_witness :
  let es := [InitLoadSettled None;
             FileChange (Some (mkFile "talk.webm" 4096 []));
             ExportClick; FetchSettled None] in
  isSlow (st (run (run initial_world es) (repeat Tick 5000))) = true
  /\ isSlow (st (run initial_world
                   (es ++ repeat Tick 5000 ++ [EngineLog "time=00:00:01.00"]))) = false
  /\ isSlow (st (run (step (run initial_world (es ++ repeat Tick 5000))
                           (RunSettled None (Some "exit 1")))
                     (repeat Tick 1000))) = false.
Proof.
  split; [|split].
  - apply (proj1 (stall_flag_advisory _)); vm_compute; [reflexivity|discriminate].
  - apply (proj1 (proj2 (stall_flag_advisory _))). right.
    intros E. apply (f_equal (fun x => num_same x (num_of_Z 0))) in E.
    vm_compute in E. discriminate E.
  - apply (proj1 (proj2 (proj2 (stall_flag_advisory _)))); vm_compute;
      [discriminate|reflexivity].
Defined.

(** ** The end of an export *)

Lemma terminal_of_end (w : World) (e : Event) :
  pending w <> PIdle -> pending (step w e) = PIdle -> terminal (step w e).
Proof.
  intros Hp Hq. destruct (termination_step e w Hp Hq) as (Hl & Ho & Hd).
  assert (Hin : In 1000%Z (done_timers (step w e))).
  { rewrite Hd. apply in_or_app. right. left. reflexivity. }
  assert (Hoff : isProcessing (st (run (step w e) (repeat Tick 1000))) = false).
  { apply (ticks_fire 1000 _ 1000%Z Hin); lia. }
  split; [exact Hq|]. split; [exact Ho|]. split; [exact Hl|]. split; [exact Hin|].
  split; [exact Hoff|].
  intros f Hf. rewrite run_app.
  apply (export_click_starts (run (step w e) (repeat Tick 1000)) f Hoff).
  now rewrite ticks_videoFile.
Qed.

(** Only the settlement of an awaited promise ends an export. *)
Lemma end_settles (w : World) (e : Event) :
  pending w <> PIdle -> pending (step w e) = PIdle -> settles e = true.
Proof.
  intros Hp Hq. destruct e; try reflexivity; exfalso; cbn [step] in Hq;
    rewrite ?tick_pending, ?commit_pending in Hq; try contradiction;
    revert Hq; cbn [handle];
    unfold init_load_settled, handleFileChange, handleLoadedMetadata,
      handleSliderChange, handleExport, engine_log, has_file;
    case_conditions; cbn; congruence.
Qed.

(** C9: an export handler that is suspended ends at the settlement of the
    promise it awaits, whenever that is a rejection or the last promise:
    a rejected [ffmpeg.load()], a rejected [fetchFile], a write to an
    engine that is not loaded and a rejected [ffmpeg.run] end it as a
    failure, a resolved [ffmpeg.run] ends it, as a success when the output
    is there; the other resolutions take it to the next promise.  At its
    end an outcome is shown, the logger is the one that does nothing, a
    1000 ms timeout is pending, after 1000 ms the job is no longer marked
    as in progress and a click on the export button starts a new job; in a
    reachable world the mark stays up until the 1000 ms have passed; and
    nothing but a settlement ends an export. *)
Theorem export_termination (w : World) (j : Job) :
  (pending w = PLoad j ->
   (forall msg : string,
       terminal (step w (LoadSettled (Some msg)))
       /\ failed (step w (LoadSettled (Some msg))))
   /\ pending (step w (LoadSettled None)) = PFetch j)
  /\ (pending w = PFetch j ->
      (forall msg : string,
          terminal (step w (FetchSettled (Some msg)))
          /\ failed (step w (FetchSettled (Some msg))))
      /\ (loaded (ffmpeg w) = true -> pending (step w (FetchSettled None)) = PRun j)
      /\ (loaded (ffmpeg w) = false ->
          terminal (step w (FetchSettled None)) /\ failed (step w (FetchSettled None))))
  /\ (pending w = PRun j ->
      (forall (out : option bytes) (msg : string),
          terminal (step w (RunSettled out (Some msg)))
          /\ failed (step w (RunSettled out (Some msg))))
      /\ (forall out : option bytes, terminal (step w (RunSettled out None)))
      /\ (forall b : bytes, succeeded (step w (RunSettled (Some b) None))))
  /\ (forall e : Event,
         pending w <> PIdle -> pending (step w e) = PIdle ->
         terminal (step w e) /\ settles e = true)
  /\ (reachable w ->
      forall (e : Event) (n : nat),
        pending w <> PIdle -> pending (step w e) = PIdle -> (n < 1000)%nat ->
        isProcessing (st (run (step w e) (repeat Tick n))) = true).
Proof.
  split; [|split; [|split; [|split]]].
  - intros Hj. assert (Hp : pending w <> PIdle) by (rewrite Hj; discriminate).
    split.
    + intros msg. split.
      * apply terminal_of_end; [exact Hp|].
        cbn [step handle]. now rewrite commit_pending, Hj.
      * unfold failed. cbn [step handle]. rewrite commit_error, commit_message, Hj.
        split; reflexivity.
    + cbn [step handle]. now rewrite commit_pending, Hj.
  - intros Hj. assert (Hp : pending w <> PIdle) by (rewrite Hj; discriminate).
    split; [|split].
    + intros msg. split.
      * apply terminal_of_end; [exact Hp|].
        cbn [step handle]. now rewrite commit_pending, Hj.
      * unfold failed. cbn [step handle]. rewrite commit_error, commit_message, Hj.
        split; reflexivity.
    + intros Hl. cbn [step handle]. rewrite commit_pending, Hj.
      unfold export_after_fetch. now rewrite Hl.
    + intros Hl. split.
      * apply terminal_of_end; [exact Hp|].
        cbn [step handle]. rewrite commit_pending, Hj.
        unfold export_after_fetch. now rewrite Hl.
      * unfold failed. cbn [step handle]. rewrite commit_error, commit_message, Hj.
        unfold export_after_fetch. rewrite Hl. split; reflexivity.
  - intros Hj. assert (Hp : pending w <> PIdle) by (rewrite Hj; discriminate).
    assert (He : forall out r, pending (step w (RunSettled out r)) = PIdle).
    { intros out r. cbn [step handle]. rewrite commit_pending, Hj.
      unfold export_after_run. destruct r; [reflexivity|].
      destruct (fs_read _ _); reflexivity. }
    split; [|split].
    + intros out msg. split; [apply terminal_of_end; [exact Hp|apply He]|].
      unfold failed. cbn [step handle]. rewrite commit_error, commit_message, Hj.
      unfold export_after_run, export_catch. destruct out; split; reflexivity.
    + intros out. apply terminal_of_end; [exact Hp|apply He].
    + intros b. unfold succeeded. cbn [step handle].
      rewrite commit_message, commit_progress, Hj.
      unfold export_after_run.
      cbn [with_ffmpeg eng_setFS fs ffmpeg setMessage with_st].
      unfold fs_write. cbn [fs_read]. rewrite String.eqb_refl. split; reflexivity.
  - intros e Hp Hq. split; [now apply terminal_of_end|now apply (end_settles w)].
  - intros Hr e n Hp Hq Hn. destruct (termination_step e w Hp Hq) as (_ & _ & Hd).
    pose proof (reachable_inv w Hr) as Hw.
    pose proof (step_inv w e Hw) as [_ Hph].
    destruct Hw as [_ [(_ & _ & Hd0) | [(Hp0 & _) | (Hp0 & _)]]]; try contradiction.
    rewrite Hd0 in Hd. cbn [app] in Hd.
    rewrite (ticks_before n _ 1000%Z Hd) by lia.
    destruct Hph as [(Hp1 & _) | [(_ & Hi & _) | (_ & _ & Hd1)]];
      [contradiction|exact Hi|congruence].
Qed.

Lemma export_termination_witness :
  let w := run initial_world
               [InitLoadSettled None;
                FileChange (Some (mkFile "talk.webm" 4096 []));
                ExportClick; FetchSettled None] in
  let e := RunSettled None (Some "ffmpeg exited with code 1") in
  terminal (step w e) /\ failed (step w e).
Proof.
  intros w e.
  destruct (export_termination w
              (job_of (run initial_world
                         [InitLoadSettled None;
                          FileChange (Some (mkFile "talk.webm" 4096 []))])
                      (mkFile "talk.webm" 4096 []))) as (_ & _ & H & _).
  destruct (H eq_refl) as (Hf & _). apply Hf.
Defined.

(** ** The size limit in the export pipeline *)

Lemma fs_read_write (n : string) (b : bytes) (f : FS) :
  fs_read n (fs_write n b f) = Some b.
Proof. unfold fs_write. cbn [fs_read]. now rewrite String.eqb_refl. Qed.

(** From a click on the enabled export button to the start of the engine:
    the bytes of the selected file are written under the safe input name,
    whatever the size of the file. *)
Lemma export_writes_source (w : World) (f : File) :
  videoFile (st w) = Some f ->
  isProcessing (st w) = false ->
  let es := if loaded (ffmpeg w)
            then [ExportClick; FetchSettled None]
            else [ExportClick; LoadSettled None; FetchSettled None] in
  fs_read (safe_input_name (name f)) (fs (ffmpeg (run w es))) = Some (content f)
  /\ encoding (run w es) = true.
Proof.
  intros Hf Hi.
  assert (Hc : handle ExportClick w = handleExport w).
  { cbn [handle]. unfold has_file. now rewrite Hf, Hi. }
  assert (Hfetch : forall (x : World) (j : Job),
             pending x = PFetch j -> loaded (ffmpeg x) = true ->
             job_file j = f -> safeInputName j = safe_input_name (name f) ->
             fs_read (safe_input_name (name f)) (fs (ffmpeg (step x (FetchSettled None))))
             = Some (content f)
             /\ encoding (step x (FetchSettled None)) = true).
  { intros x j Hp Hl Hjf Hjn. cbn [step handle]. unfold encoding.
    rewrite commit_ffmpeg, commit_pending, Hp. unfold export_after_fetch. rewrite Hl.
    cbn. rewrite Hjf, Hjn. split; [apply fs_read_write|reflexivity]. }
  destruct (loaded (ffmpeg w)) eqn:Hl; intros es; subst es;
    cbn [run fold_left]; cbn [step]; rewrite Hc.
  - apply (Hfetch _ {| job_file := f;
                       safeInputName := safe_input_name (name f);
                       safeOutputName := safe_output_name;
                       startTime := fst (range (st w));
                       endTime := snd (range (st w));
                       durationTime := num_sub (snd (range (st w))) (fst (range (st w))) |});
      try reflexivity.
    + rewrite commit_pending. unfold handleExport. rewrite Hf. cbn. now rewrite Hl.
    + rewrite commit_ffmpeg. unfold handleExport. rewrite Hf. cbn.
      rewrite Hl. cbn. exact Hl.
  - apply (Hfetch _ {| job_file := f;
                       safeInputName := safe_input_name (name f);
                       safeOutputName := safe_output_name;
                       startTime := fst (range (st w));
                       endTime := snd (range (st w));
                       durationTime := num_sub (snd (range (st w))) (fst (range (st w))) |});
      try reflexivity.
    + rewrite commit_pending. cbn [handle]. rewrite commit_pending.
      unfold handleExport. rewrite Hf. cbn. rewrite Hl. reflexivity.
    + rewrite commit_ffmpeg. cbn [handle]. rewrite commit_pending.
      unfold handleExport. rewrite Hf. cbn. rewrite Hl. reflexivity.
Qed.

(** C4, refuted as stated: an export of a source of 1 GiB + 1 byte writes
    its bytes to the virtual filesystem and starts the engine; no size
    check stands between the request and the write. *)
Lemma no_size_recheck_counterexample :
  let f := mkFile "big.mp4" (SIZE_LIMIT + 1) [Byte.x00] in
  let w := run (world_with_file f) [ExportClick; FetchSettled None] in
  (SIZE_LIMIT <? size f)%Z = true
  /\ fs_read "input_source.mp4" (fs (ffmpeg w)) = Some [Byte.x00]
  /\ (exists j, pending w = PRun j)
  /\ error (st w) = "".
Proof. repeat split. eexists. reflexivity. Qed.

(** C4, amended: the size limit is enforced at selection only.
    [handleFileChange] never stores a file above 1 GiB, and the export
    pipeline writes the bytes of whatever file is stored, of any size, under
    the safe input name and starts the engine. *)
Theorem size_checked_at_selection_only :
  (forall (w : World) (f : File),
      (SIZE_LIMIT < size f)%Z ->
      videoFile (st (handleFileChange (Some f) w)) = videoFile (st w))
  /\ (forall (w : World) (f : File),
         videoFile (st w) = Some f ->
         isProcessing (st w) = false ->
         fs_read (safe_input_name (name f))
           (fs (ffmpeg (run w (if loaded (ffmpeg w)
                               then [ExportClick; FetchSettled None]
                               else [ExportClick; LoadSettled None; FetchSettled None]))))
         = Some (content f)
         /\ encoding (run w (if loaded (ffmpeg w)
                             then [ExportClick; FetchSettled None]
                             else [ExportClick; LoadSettled None; FetchSettled None]))
            = true).
Proof.
  split.
  - intros w f H. unfold handleFileChange.
    apply Z.ltb_lt in H. rewrite H. reflexivity.
  - intros w f Hf Hi. apply (export_writes_source w f Hf Hi).
Qed.

Lemma size_checked_at_selection_only_witness :
  videoFile (st (handleFileChange (Some (mkFile "a.mp4" (SIZE_LIMIT + 5) []))
                   initial_world)) = None
  /\ fs_read "input_source.mp4"
       (fs (ffmpeg (run (world_with_file (mkFile "a.mp4" (SIZE_LIMIT + 5) [Byte.x01]))
                        [ExportClick; FetchSettled None])))
     = Some [Byte.x01].
Proof.
  destruct size_checked_at_selection_only as (Hsel & Hexp). split.
  - apply (Hsel initial_world (mkFile "a.mp4" (SIZE_LIMIT + 5) [])).
    vm_compute. reflexivity.
  - apply (Hexp (world_with_file (mkFile "a.mp4" (SIZE_LIMIT + 5) [Byte.x01]))
                (mkFile "a.mp4" (SIZE_LIMIT + 5) [Byte.x01])); reflexivity.
Defined.

(** ** A complete export *)

(** A 20 s source cut to [5, 15]: the engine is run with a seek of 5 and a
    duration of 10 on the safe names, the lines of the engine move the
    progress, and the run ends in a download and full progress. *)
Example export_end_to_end :
  let w0 := run initial_world
                [InitLoadSettled None;
                 FileChange (Some (mkFile "clip:weird name.mov" 2048 [Byte.x2a]));
                 LoadedMetadata (num_of_Z 20);
                 SliderChange (num_of_Z 5, num_of_Z 15);
                 ExportClick; FetchSettled None] in
  let w1 := run w0 [EngineLog "frame=   75 fps= 25 time=00:00:03.00 bitrate=N/A";
                    EngineLog "video:120kB audio:40kB";
                    EngineLog "frame=  200 fps= 25 time=00:00:08.00 bitrate=N/A";
                    RunSettled (Some [Byte.x2b]) None] in
  (exists j : Job,
      pending w0 = PRun j
      /\ startTime j = num_of_Z 5
      /\ durationTime j = num_of_Z 10
      /\ run_args j
         = [AStr "-ss"; ANum (startTime j); AStr "-i"; AStr "input_source.mov";
            AStr "-t"; ANum (durationTime j); AStr "-c:v"; AStr "libx264";
            AStr "-preset"; AStr "ultrafast"; AStr "-pix_fmt"; AStr "yuv420p";
            AStr "-c:a"; AStr "aac"; AStr "-movflags"; AStr "+faststart";
            AStr "-avoid_negative_ts"; AStr "make_zero";
            AStr "output_processed.mp4"])
  /\ published w1 = [num_of_Z 0; num_of_Z 30; num_of_Z 80; num_of_Z 100]
  /\ map dl_data (downloads w1) = [[Byte.x2b]]
  /\ fs (ffmpeg w1) = []
  /\ succeeded w1.
Proof.
  intros w0 w1. split; [|split; [|split; [|split]]].
  - exists {| job_file := mkFile "clip:weird name.mov" 2048 [Byte.x2a];
              safeInputName := "input_source.mov";
              safeOutputName := "output_processed.mp4";
              startTime := num_of_Z 5;
              endTime := num_of_Z 15;
              durationTime := num_sub (num_of_Z 15) (num_of_Z 5) |}.
    split; [vm_compute; reflexivity|].
    split; [apply num_same_eq; vm_compute; reflexivity|].
    split; [apply num_same_eq; vm_compute; reflexivity|reflexivity].
  - apply nums_same_eq. vm_compute. reflexivity.
  - vm_compute. reflexivity.
  - vm_compute. reflexivity.
  - split; [vm_compute; reflexivity|apply num_same_eq; vm_compute; reflexivity].
Qed.

(** * Further properties *)

(** ** The undo history *)

Section HistoryFacts.
Import History.
Local Open Scope list_scope.

Variable T : Type.
Variable strict_eq : T -> T -> bool.

Lemma canUndo_cons (h : HistoryState T) :
  canUndo h = true -> past h <> [].
Proof. unfold canUndo. destruct (past h); [discriminate|discriminate]. Qed.

Lemma undo1_effective (P : list T) (y p : T) (F : list T) :
  undo1 (mkHistory (P ++ [y]) p F) = mkHistory P y (p :: F).
Proof.
  unfold undo1, undo, canUndo. cbn [past present future].
  rewrite length_app, Nat.add_comm. cbn [List.length Nat.add Nat.ltb Nat.leb].
  now rewrite removelast_last, last_last.
Qed.

Lemma history_eta (h : HistoryState T) :
  h = mkHistory (past h) (present h) (future h).
Proof. now destruct h. Qed.

Lemma past_snoc (h : HistoryState T) :
  canUndo h = true -> exists P y, past h = P ++ [y].
Proof.
  intros H. apply canUndo_cons in H.
  exists (removelast (past h)), (last (past h) (present h)).
  now apply app_removelast_last.
Qed.

(** X1: an undo that has something to undo is reverted by the following
    redo, and a redo that has something to redo by the following undo. *)
Theorem history_undo_redo (h : HistoryState T) :
  (canUndo h = true -> redo1 (undo1 h) = h)
  /\ (canRedo h = true -> undo1 (redo1 h) = h).
Proof.
  split; intros H.
  - destruct (past_snoc h H) as (P & y & E).
    rewrite (history_eta h), E, undo1_effective. reflexivity.
  - unfold redo1, redo. rewrite H.
    rewrite undo1_effective. unfold canRedo in H.
    destruct h as [P p [|x F]]; [discriminate|reflexivity].
Qed.

(** X2: undo and redo only move the present along the timeline: the
    sequence of past, present and future states is the same before and
    after, whether or not there is something to undo or redo. *)
Theorem history_timeline (h : HistoryState T) :
  timeline (undo1 h) = timeline h /\ timeline (redo1 h) = timeline h.
Proof.
  split.
  - destruct (canUndo h) eqn:H.
    + destruct (past_snoc h H) as (P & y & E).
      rewrite (history_eta h), E, undo1_effective. unfold timeline. cbn.
      now rewrite <- app_assoc.
    + unfold undo1, undo. now rewrite H.
  - unfold redo1, redo, canRedo, timeline.
    destruct h as [P p [|x F]]; cbn; [reflexivity|]. now rewrite <- app_assoc.
Qed.

(** X3: committing a state that differs from the present empties the redo
    list and makes undo available; the following undo gives back the
    history from before the commit with the committed state as the only
    redo step, and a redo after that returns to the committed state. *)
Theorem history_commit_undo (h : HistoryState T) (x : T) :
  strict_eq x (present h) = false ->
  present (commit1 strict_eq h x) = x
  /\ canRedo (commit1 strict_eq h x) = false
  /\ canUndo (commit1 strict_eq h x) = true
  /\ undo1 (commit1 strict_eq h x) = mkHistory (past h) (present h) [x]
  /\ redo1 (undo1 (commit1 strict_eq h x)) = commit1 strict_eq h x.
Proof.
  intros H. unfold commit1, setState. rewrite H.
  assert (U : undo1 (mkHistory (past h ++ [present h]) x [])
              = mkHistory (past h) (present h) [x]) by apply undo1_effective.
  repeat split.
  - unfold canUndo. cbn. rewrite length_app, Nat.add_comm. reflexivity.
  - exact U.
  - rewrite U. reflexivity.
Qed.

Lemma commits_shape (xs : list T) (h : HistoryState T) (x : T) :
  changes strict_eq (present h) (x :: xs) = true ->
  exists ys y,
    (x :: xs = ys ++ [y])
    /\ fold_left (commit1 strict_eq) (x :: xs) h
       = mkHistory (past h ++ present h :: ys) y [].
Proof.
  revert h x. induction xs as [|x' xs IH]; intros h x H.
  - exists [], x. split; [reflexivity|].
    cbn in H. rewrite andb_true_r in H. apply negb_true_iff in H.
    cbn. unfold commit1, setState. now rewrite H.
  - cbn [changes] in H. apply andb_true_iff in H as [Hx H].
    apply negb_true_iff in Hx.
    assert (E : commit1 strict_eq h x = mkHistory (past h ++ [present h]) x [])
      by (unfold commit1, setState; now rewrite Hx).
    destruct (IH (commit1 strict_eq h x) x') as (ys & y & Hs & Hf).
    { rewrite E. exact H. }
    exists (x :: ys), y. split; [cbn; now rewrite Hs|].
    change (fold_left (commit1 strict_eq) (x :: x' :: xs) h)
      with (fold_left (commit1 strict_eq) (x' :: xs) (commit1 strict_eq h x)).
    rewrite Hf, E. cbn [past present]. now rewrite <- app_assoc.
Qed.

Lemma undos_shape (ys : list T) (P : list T) (p0 y : T) (F : list T) :
  Nat.iter (S (List.length ys)) undo1 (mkHistory (P ++ p0 :: ys) y F)
  = mkHistory P p0 (ys ++ y :: F).
Proof.
  revert y F. induction ys as [|z ys IH] using rev_ind; intros y F.
  - cbn. apply undo1_effective.
  - rewrite Nat.iter_succ_r.
    replace (P ++ p0 :: ys ++ [z]) with ((P ++ p0 :: ys) ++ [z])
      by (now rewrite <- app_assoc).
    rewrite undo1_effective, length_app, Nat.add_comm. cbn [List.length Nat.add].
    rewrite IH, <- app_assoc. reflexivity.
Qed.

Lemma redos_shape (ys : list T) (P : list T) (p0 y : T) (F : list T) :
  Nat.iter (S (List.length ys)) redo1 (mkHistory P p0 (ys ++ y :: F))
  = mkHistory (P ++ p0 :: ys) y F.
Proof.
  revert P p0. induction ys as [|z ys IH]; intros P p0.
  - reflexivity.
  - cbn [List.length]. rewrite Nat.iter_succ_r.
    change (redo1 (mkHistory P p0 ((z :: ys) ++ y :: F)))
      with (mkHistory (P ++ [p0]) z (ys ++ y :: F)).
    rewrite IH, <- app_assoc. reflexivity.
Qed.

(** X4: after any number of commits, each of a state that differs from
    the one before it, as many undos lead back to the present and the past
    of the start, with the committed states as the redo list, and as many
    redos after that lead to the last committed state again. *)
Theorem history_commits_undone (h : HistoryState T) (x : T) (xs : list T) :
  changes strict_eq (present h) (x :: xs) = true ->
  Nat.iter (List.length (x :: xs)) undo1 (fold_left (commit1 strict_eq) (x :: xs) h)
  = mkHistory (past h) (present h) (x :: xs)
  /\ Nat.iter (List.length (x :: xs)) redo1
       (mkHistory (past h) (present h) (x :: xs))
     = fold_left (commit1 strict_eq) (x :: xs) h.
Proof.
  intros H. destruct (commits_shape xs h x H) as (ys & y & Hs & Hf).
  assert (Hl : List.length (x :: xs) = S (List.length ys)).
  { rewrite Hs, length_app, Nat.add_comm. reflexivity. }
  rewrite Hf, Hl, Hs. split.
  - rewrite undos_shape. reflexivity.
  - replace (ys ++ [y]) with (ys ++ y :: []) by reflexivity.
    apply redos_shape.
Qed.

Lemma last_cons (vs : list T) (v d : T) : last (v :: vs) d = last vs v.
Proof.
  revert v d. induction vs as [|w vs IH]; intros v d; [reflexivity|].
  change (last (v :: w :: vs) d) with (last (w :: vs) d).
  now rewrite (IH w d), (IH w v).
Qed.

(** X5: updates that do not commit cannot be undone.  After any number of
    them the undo and redo lists are as before: each of them replaces the
    present without recording it, so the entry shown before the first of
    them is gone; the present is the last value passed; and committing the
    value that is shown records nothing. *)
Theorem history_transient (h : HistoryState T) (vs : list T) :
  let h' := fold_left (transient1 strict_eq) vs h in
  past h' = past h
  /\ future h' = future h
  /\ ((forall a b : T, strict_eq a b = true -> a = b) ->
      present h' = last vs (present h))
  /\ (strict_eq (present h') (present h') = true ->
      forall b : bool, setState strict_eq (present h') b h' h' = h').
Proof.
  revert h. induction vs as [|v vs IH]; intros h.
  - cbn. repeat split. intros H b. unfold setState. now rewrite H.
  - cbn [fold_left]. destruct (IH (transient1 strict_eq h v)) as (P & F & L & C).
    assert (E : past (transient1 strict_eq h v) = past h
                /\ future (transient1 strict_eq h v) = future h
                /\ ((forall a b : T, strict_eq a b = true -> a = b) ->
                    present (transient1 strict_eq h v) = v)).
    { unfold transient1, setState. destruct (strict_eq v (present h)) eqn:Ev.
      - repeat split. intros Heq. symmetry. now apply Heq.
      - repeat split. }
    destruct E as (E1 & E2 & E3).
    split; [now rewrite P|]. split; [now rewrite F|]. split; [|exact C].
    intros Heq. rewrite (L Heq), (E3 Heq). symmetry. apply last_cons.
Qed.

End HistoryFacts.

Lemma history_undo_redo_witness :
  History.redo1 (History.undo1 (History.mkHistory [1; 2]%nat 3%nat []))
  = History.mkHistory [1; 2]%nat 3%nat []
  /\ History.undo1 (History.redo1 (History.mkHistory [1]%nat 2%nat [3]%nat))
     = History.mkHistory [1]%nat 2%nat [3]%nat.
Proof.
  split.
  - apply (proj1 (history_undo_redo nat _)). reflexivity.
  - apply (proj2 (history_undo_redo nat _)). reflexivity.
Defined.

Lemma history_commit_undo_witness :
  History.undo1 (History.commit1 Nat.eqb (History.mkHistory [1]%nat 2%nat [9]%nat) 5%nat)
  = History.mkHistory [1]%nat 2%nat [5]%nat.
Proof.
  apply (history_commit_undo nat Nat.eqb (History.mkHistory [1]%nat 2%nat [9]%nat) 5%nat).
  reflexivity.
Defined.

Lemma history_commits_undone_witness :
  Nat.iter 3 History.undo1
    (fold_left (History.commit1 Nat.eqb) [4; 5; 4]%nat (History.init 0%nat))
  = History.mkHistory [] 0%nat [4; 5; 4]%nat.
Proof.
  apply (history_commits_undone nat Nat.eqb (History.init 0%nat) 4%nat [5; 4]%nat).
  reflexivity.
Defined.

Lemma history_transient_witness :
  let h' := fold_left (History.transient1 Nat.eqb) [5; 6; 7]%nat
              (History.mkHistory [1]%nat 2%nat [3]%nat) in
  History.present h' = 7%nat
  /\ History.setState Nat.eqb (History.present h') true h' h' = h'.
Proof.
  intros h'.
  destruct (history_transient nat Nat.eqb (History.mkHistory [1]%nat 2%nat [3]%nat)
              [5; 6; 7]%nat) as (_ & _ & L & C).
  split.
  - apply L. intros a b H. now apply Nat.eqb_eq.
  - apply C. reflexivity.
Defined.

(** ** Invariants of the user interface *)

Lemma commit_st_frame (w : World) :
  ready (st (commit w)) = ready (st w)
  /\ duration (st (commit w)) = duration (st w)
  /\ range (st (commit w)) = range (st w)
  /\ progressRef (st (commit w)) = progressRef (st w)
  /\ init_load (commit w) = init_load w
  /\ downloads (commit w) = downloads w.
Proof.
  unfold commit. destruct (deps_same _ _); [repeat split|].
  unfold slow_effect. destruct (_ && _)%bool; repeat split.
Qed.

Lemma commit_ui (w : World) : ui_inv w -> ui_inv (commit w).
Proof.
  unfold ui_inv. destruct (commit_st_frame w) as (Hr & _ & _ & _ & Hi & _).
  now rewrite commit_videoFile, commit_ffmpeg, commit_pending, Hr, Hi.
Qed.

Lemma tick_done_ui (w : World) : ui_inv w -> ui_inv (tick_done w).
Proof. unfold ui_inv, tick_done. destruct (filter _ _); cbn; auto. Qed.

Lemma tick_slow_ui (w : World) : ui_inv w -> ui_inv (tick_slow w).
Proof.
  unfold ui_inv, tick_slow. destruct (slow_timer w) as [r|]; [|auto].
  destruct (r <=? 1)%Z; cbn; auto.
Qed.

Lemma safe_names_differ (n : string) : safe_input_name n <> safe_output_name.
Proof. discriminate. Qed.

Ltac ui_finish :=
  repeat match goal with
         | H : _ /\ _ |- _ => destruct H
         | H : (_ && _)%bool = true |- _ => apply andb_true_iff in H
         | H : negb _ = true |- _ => apply negb_true_iff in H
         | H : (_ <? _)%Z = false |- _ => apply Z.ltb_ge in H
         | H : Some _ = Some _ |- _ => injection H as H
         | Hf : forall f, ?v = Some f -> _, H : ?v = Some _ |- _ =>
             destruct (Hf _ H); clear Hf
         | Hf : forall f, Some ?g = Some f -> _ |- _ =>
             destruct (Hf _ eq_refl); clear Hf
         | Hr : ?a = true -> _, H : ?a = true |- _ => specialize (Hr H)
         | Hr : true = true -> _ |- _ => specialize (Hr eq_refl)
         end;
  subst; cbn in *;
  try contradiction; try discriminate; try assumption; try reflexivity;
  try lia; try congruence.

Lemma handle_ui (e : Event) (w : World) : ui_inv w -> ui_inv (handle e w).
Proof.
  unfold ui_inv, job_ok, SIZE_LIMIT. destruct w as [[] [] ? ? ? ? ? ? ?].
  destruct e; unfold_world; case_conditions; unfold_world;
    intros (Hf & Hr & Hp); repeat (split || intro); ui_finish.
  all: try (rewrite String.eqb_refl; reflexivity).
  all: match goal with Hp : forall d0, _ <> ProgressLogger d0 |- False =>
         exact (Hp _ eq_refl) end.
Qed.

Lemma step_ui (w : World) (e : Event) : ui_inv w -> ui_inv (step w e).
Proof.
  intros H. destruct e; try (cbn [step]; apply commit_ui, handle_ui, H).
  cbn [step]. unfold tick.
  apply commit_ui, tick_done_ui, commit_ui, tick_slow_ui, H.
Qed.

Lemma initial_ui : ui_inv initial_world.
Proof. repeat split; try discriminate. Qed.

Lemma run_ui (es : list Event) (w : World) : ui_inv w -> ui_inv (run w es).
Proof.
  revert w. induction es as [|e es IH]; intros w H; [exact H|].
  apply IH, step_ui, H.
Qed.

Lemma reachable_ui (w : World) : reachable w -> ui_inv w.
Proof. intros [es ->]. apply run_ui, initial_ui. Qed.

Lemma run_world_inv (es : list Event) : world_inv (run initial_world es).
Proof. apply run_inv, initial_world_inv. Qed.

Lemma run_initial_ui (es : list Event) : ui_inv (run initial_world es).
Proof. apply run_ui, initial_ui. Qed.

Lemma reachable_commit_id (w : World) : world_inv w -> commit w = w.
Proof. intros [[Hd _] _]. now apply commit_id. Qed.

(** X6: whatever the user and the engine do, a selected file and the file
    of a running export are never larger than 1 GiB. *)
Theorem reachable_size_limit (es : list Event) :
  (forall f : File,
      videoFile (st (run initial_world es)) = Some f -> (size f <= 1024 ^ 3)%Z)
  /\ (forall j : Job,
         pending_job (pending (run initial_world es)) = Some j ->
         (size (job_file j) <= 1024 ^ 3)%Z).
Proof.
  destruct (run_initial_ui es) as (Hf & _ & Hp). split.
  - intros f H. apply (Hf f H).
  - intros j H. destruct (pending (run initial_world es)); cbn in H;
      try discriminate; try contradiction; injection H as <-; apply Hp.
Qed.

Lemma reachable_size_limit_witness :
  (size (mkFile "talk.webm" 4096 []) <= 1024 ^ 3)%Z.
Proof.
  apply (proj1 (reachable_size_limit
                  [InitLoadSettled None; FileChange (Some (mkFile "talk.webm" 4096 []))])).
  reflexivity.
Defined.

(** X7: a file can be selected and an export can run only with the engine
    loaded, so [handleExport] never waits for [ffmpeg.load()] and its write
    to the virtual filesystem never finds the engine unloaded. *)
Theorem reachable_engine_loaded (es : list Event) :
  (forall j : Job, pending (run initial_world es) <> PLoad j)
  /\ (has_file (run initial_world es) = true
      \/ pending (run initial_world es) <> PIdle ->
      ready (st (run initial_world es)) = true
      /\ loaded (ffmpeg (run initial_world es)) = true).
Proof.
  destruct (run_initial_ui es) as (Hf & Hr & Hp).
  set (w := run initial_world es) in *. split.
  - intros j E. rewrite E in Hp. exact Hp.
  - assert (R : has_file w = true \/ pending w <> PIdle -> ready (st w) = true).
    { intros [H | H].
      - unfold has_file in H. destruct (videoFile (st w)) as [f|] eqn:E;
          [apply (Hf f eq_refl)|discriminate].
      - destruct (pending w); try contradiction; apply Hp. }
    intros H. split; [apply R, H|apply Hr, R, H].
Qed.

Lemma reachable_engine_loaded_witness :
  let w := run initial_world
               [InitLoadSettled None; FileChange (Some (mkFile "talk.webm" 4096 []));
                ExportClick] in
  ready (st w) = true /\ loaded (ffmpeg w) = true.
Proof.
  intros w. apply (proj2 (reachable_engine_loaded _)). left. reflexivity.
Defined.

Lemma handle_load_failed (msg : string) (e : Event) (w : World) :
  load_failed msg w -> handle e w = w.
Proof.
  unfold load_failed. intros (Hr & Hi & _ & Hl & Hv & Hp & _).
  destruct e; cbn [handle]; unfold has_file, handleFileChange, engine_log;
    rewrite ?Hr, ?Hi, ?Hv, ?Hp, ?Hl; reflexivity.
Qed.

Lemma commit_load_failed (msg : string) (w : World) :
  load_failed msg w -> load_failed msg (commit w).
Proof.
  unfold load_failed. destruct (commit_st_frame w) as (Hr & _ & _ & _ & Hi & Hd).
  now rewrite commit_videoFile, commit_ffmpeg, commit_pending, commit_isProcessing,
    commit_error, commit_published, Hr, Hi, Hd.
Qed.

Lemma tick_done_load_failed (msg : string) (w : World) :
  load_failed msg w -> load_failed msg (tick_done w).
Proof.
  unfold load_failed, tick_done. destruct (filter _ _); cbn; [auto|].
  intros (? & ? & ? & ? & ? & ? & ? & ? & ? & ? & ?). repeat split; assumption.
Qed.

Lemma tick_slow_load_failed (msg : string) (w : World) :
  load_failed msg w -> load_failed msg (tick_slow w).
Proof.
  unfold load_failed, tick_slow. destruct (slow_timer w) as [r|]; [|auto].
  destruct (r <=? 1)%Z; cbn; auto.
Qed.

Lemma load_failed_step (msg : string) (w : World) (e : Event) :
  load_failed msg w -> load_failed msg (step w e).
Proof.
  intros H. destruct e; cbn [step];
    try (rewrite (handle_load_failed msg _ w H); apply commit_load_failed, H).
  unfold tick.
  apply commit_load_failed, tick_done_load_failed, commit_load_failed,
    tick_slow_load_failed, H.
Qed.

(** X8: when the engine fails to load at start-up, the load error is shown
    and stays: no file can be selected, no export starts, nothing is
    published, downloaded or written, whatever happens afterwards. *)
Theorem load_failure_is_final (msg : string) (es : list Event) :
  load_failed msg (run initial_world (InitLoadSettled (Some msg) :: es)).
Proof.
  change (run initial_world (InitLoadSettled (Some msg) :: es))
    with (run (step initial_world (InitLoadSettled (Some msg))) es).
  assert (H : load_failed msg (step initial_world (InitLoadSettled (Some msg))))
    by (repeat split).
  revert H. generalize (step initial_world (InitLoadSettled (Some msg))).
  induction es as [|e es IH]; intros w H; [exact H|].
  apply IH, load_failed_step, H.
Qed.

(** X9: outside a running export the engine's log lines change nothing:
    the progress logger is installed only while [handleExport] is
    suspended. *)
Theorem log_outside_job_ignored (es : list Event) (line : string) :
  pending (run initial_world es) = PIdle ->
  step (run initial_world es) (EngineLog line) = run initial_world es.
Proof.
  intros H. destruct (run_initial_ui es) as (_ & _ & Hp). rewrite H in Hp.
  cbn [step handle]. unfold engine_log.
  destruct (logger (ffmpeg (run initial_world es))) eqn:E;
    try apply reachable_commit_id, run_world_inv.
  exfalso. exact (Hp _ eq_refl).
Qed.

Lemma log_outside_job_ignored_witness :
  let es := [InitLoadSettled None; FileChange (Some (mkFile "talk.webm" 4096 []));
             ExportClick; FetchSettled None; RunSettled None (Some "exit 1")] in
  step (run initial_world es) (EngineLog "frame=  10 time=00:00:04.00 bitrate=N/A")
  = run initial_world es.
Proof. intros es. apply log_outside_job_ignored. reflexivity. Defined.

(** X10: while an export is suspended or still marked as in progress, a
    click on the export button changes nothing, so at most one
    [handleExport] is under way. *)
Theorem export_click_inert (es : list Event) :
  pending (run initial_world es) <> PIdle
  \/ isProcessing (st (run initial_world es)) = true ->
  step (run initial_world es) ExportClick = run initial_world es.
Proof.
  intros H. pose proof (run_world_inv es) as Hw.
  set (w := run initial_world es) in *.
  assert (Hi : isProcessing (st w) = true).
  { destruct H as [H | H]; [|exact H].
    destruct Hw as [_ [(_ & Hi & _) | [(Hp & _) | (Hp & _)]]];
      [exact Hi|contradiction|contradiction]. }
  cbn [step handle]. rewrite Hi, andb_false_r. apply reachable_commit_id, Hw.
Qed.

Lemma export_click_inert_witness :
  let es := [InitLoadSettled None; FileChange (Some (mkFile "talk.webm" 4096 []));
             ExportClick; FetchSettled None] in
  step (run initial_world es) ExportClick = run initial_world es.
Proof. intros es. apply export_click_inert. left. vm_compute. discriminate. Defined.

(** ** The export from click to download *)

Lemma fs_read_unlink (n : string) (f : FS) : fs_read n (fs_unlink n f) = None.
Proof.
  induction f as [|[k v] f IH]; [reflexivity|]. cbn [fs_unlink].
  destruct (String.eqb k n) eqn:E; [exact IH|]. cbn [fs_read]. now rewrite E.
Qed.

Lemma fs_read_unlink_other (n m : string) (f : FS) :
  n <> m -> fs_read m (fs_unlink n f) = fs_read m f.
Proof.
  intros H. induction f as [|[k v] f IH]; [reflexivity|]. cbn [fs_unlink fs_read].
  destruct (String.eqb k n) eqn:E.
  - apply String.eqb_eq in E. subst k.
    apply String.eqb_neq in H. now rewrite H.
  - cbn [fs_read]. now rewrite IH.
Qed.

Lemma fs_read_write_other (n m : string) (b : bytes) (f : FS) :
  n <> m -> fs_read m (fs_write n b f) = fs_read m f.
Proof.
  intros H. unfold fs_write. cbn [fs_read].
  rewrite (proj2 (String.eqb_neq n m) H). now apply fs_read_unlink_other.
Qed.

#[local] Arguments fs_write : simpl never.
#[local] Arguments fs_unlink : simpl never.
#[local] Arguments fs_read : simpl never.
#[local] Arguments export_cleanup : simpl never.

Lemma click_facts (w : World) (f : File) :
  videoFile (st w) = Some f -> isProcessing (st w) = false ->
  loaded (ffmpeg w) = true ->
  let x := step w ExportClick in
  pending x = PFetch (job_of w f)
  /\ published x = (published w ++ [num_of_Z 0])%list
  /\ ffmpeg x = mkEngine true (ProgressLogger (durationTime (job_of w f))) (fs (ffmpeg w))
  /\ downloads x = downloads w.
Proof.
  intros Hf Hi Hl x. subst x. cbn [step handle]. unfold has_file.
  rewrite Hf, Hi. cbn [andb negb].
  destruct (commit_st_frame (handleExport w)) as (_ & _ & _ & _ & _ & ->).
  rewrite commit_pending, commit_published, commit_ffmpeg.
  unfold handleExport. rewrite Hf. cbn. rewrite Hl. cbn. repeat split.
  unfold eng_setLogger. now rewrite Hl.
Qed.

Lemma fetch_facts (x : World) (j : Job) :
  pending x = PFetch j -> loaded (ffmpeg x) = true ->
  let y := step x (FetchSettled None) in
  pending y = PRun j
  /\ published y = published x
  /\ ffmpeg y = mkEngine true (logger (ffmpeg x))
                  (fs_write (safeInputName j) (content (job_file j)) (fs (ffmpeg x)))
  /\ downloads y = downloads x.
Proof.
  intros Hp Hl y. subst y. cbn [step handle]. rewrite Hp.
  destruct (commit_st_frame (export_after_fetch j None x)) as (_ & _ & _ & _ & _ & ->).
  rewrite commit_pending, commit_published, commit_ffmpeg.
  unfold export_after_fetch. rewrite Hl. cbn. repeat split.
  unfold eng_setFS. now rewrite Hl.
Qed.

Lemma fetch_rejected_facts (x : World) (j : Job) (msg : string) :
  pending x = PFetch j ->
  let y := step x (FetchSettled (Some msg)) in
  failed y /\ pending y = PIdle /\ logger (ffmpeg y) = NoopLogger
  /\ published y = published x /\ fs (ffmpeg y) = fs (ffmpeg x)
  /\ downloads y = downloads x.
Proof.
  intros Hp y. subst y. cbn [step handle]. rewrite Hp. unfold failed.
  destruct (commit_st_frame (export_after_fetch j (Some msg) x))
    as (_ & _ & _ & _ & _ & ->).
  rewrite commit_pending, commit_published, commit_ffmpeg, commit_error, commit_message.
  repeat split.
Qed.

Lemma lines_facts (x : World) (lines : list string) :
  let y := run x (map EngineLog lines) in
  pending y = pending x /\ ffmpeg y = ffmpeg x /\ downloads y = downloads x.
Proof.
  revert x. induction lines as [|l lines IH]; intros x; [repeat split|].
  cbn [map run fold_left]. fold (run (step x (EngineLog l)) (map EngineLog lines)).
  destruct (IH (step x (EngineLog l))) as (-> & -> & ->).
  cbn [step handle].
  destruct (commit_st_frame (engine_log l x)) as (_ & _ & _ & _ & _ & ->).
  rewrite commit_pending, commit_ffmpeg, engine_log_ffmpeg.
  unfold engine_log. destruct (logger (ffmpeg x)); try (repeat split; fail).
  destruct (progress_of_line _ _); repeat split.
Qed.

Lemma run_resolved_facts (x : World) (j : Job) (c out : bytes) :
  pending x = PRun j -> safeInputName j <> safeOutputName j ->
  fs_read (safeInputName j) (fs (ffmpeg x)) = Some c ->
  let y := step x (RunSettled (Some out) None) in
  downloads y = (downloads x ++ [mkDownload out (startTime j) (endTime j)])%list
  /\ published y = (published x ++ [num_of_Z 100])%list
  /\ succeeded y /\ pending y = PIdle /\ logger (ffmpeg y) = NoopLogger
  /\ fs_read (safeInputName j) (fs (ffmpeg y)) = None
  /\ fs_read (safeOutputName j) (fs (ffmpeg y)) = None.
Proof.
  intros Hp Hn Hc y. subst y. cbn [step handle]. rewrite Hp. unfold succeeded.
  destruct (commit_st_frame (export_after_run j (Some out) None x))
    as (_ & _ & _ & _ & _ & ->).
  rewrite commit_pending, commit_published, commit_ffmpeg, commit_message,
    commit_progress.
  unfold export_after_run. cbn. rewrite fs_read_write. cbn.
  assert (Hn' : safeOutputName j <> safeInputName j) by congruence.
  assert (Hcl : export_cleanup j (fs_write (safeOutputName j) out (fs (ffmpeg x)))
                = fs_unlink (safeOutputName j)
                    (fs_unlink (safeInputName j)
                       (fs_write (safeOutputName j) out (fs (ffmpeg x))))).
  { unfold export_cleanup.
    rewrite (fs_read_write_other _ _ _ _ Hn'), Hc.
    now rewrite (fs_read_unlink_other _ _ _ Hn), fs_read_write. }
  rewrite Hcl. repeat split.
  - now rewrite (fs_read_unlink_other _ _ _ Hn'), fs_read_unlink.
  - apply fs_read_unlink.
Qed.

Lemma run_rejected_facts (x : World) (j : Job) (c : bytes) (output : option bytes)
    (msg : string) :
  pending x = PRun j -> safeInputName j <> safeOutputName j ->
  fs_read (safeInputName j) (fs (ffmpeg x)) = Some c ->
  let y := step x (RunSettled output (Some msg)) in
  failed y /\ pending y = PIdle /\ logger (ffmpeg y) = NoopLogger
  /\ published y = published x /\ downloads y = downloads x
  /\ fs_read (safeInputName j) (fs (ffmpeg y)) = Some c.
Proof.
  intros Hp Hn Hc y. subst y. cbn [step handle]. rewrite Hp. unfold failed.
  destruct (commit_st_frame (export_after_run j output (Some msg) x))
    as (_ & _ & _ & _ & _ & ->).
  rewrite commit_pending, commit_published, commit_ffmpeg, commit_error, commit_message.
  assert (Hn' : safeOutputName j <> safeInputName j) by congruence.
  unfold export_after_run. destruct output as [b|]; cbn; repeat split;
    [now rewrite (fs_read_write_other _ _ _ _ Hn')|exact Hc].
Qed.

Lemma selected_file_ready (es : list Event) (f : File) :
  videoFile (st (run initial_world es)) = Some f ->
  loaded (ffmpeg (run initial_world es)) = true.
Proof.
  intros Hf. destruct (run_initial_ui es) as (H1 & H2 & _).
  apply H2, (H1 f Hf).
Qed.

(** X11: an export that goes through.  From any state the application can
    reach with a file selected and no export in progress: click, the file
    is read, the engine logs any lines and resolves leaving an output.
    Exactly one download is added, holding the bytes of the output and
    the range selected at the click; what was published is 0, then the
    values of the log lines for the duration selected at the click, then
    100; the success message shows, the logger is silenced, and the input
    and the output are gone from the virtual filesystem. *)
Theorem export_success (es : list Event) (f : File) (lines : list string) (out : bytes) :
  let w := run initial_world es in
  videoFile (st w) = Some f ->
  isProcessing (st w) = false ->
  let w' := run w ([ExportClick; FetchSettled None] ++ map EngineLog lines
                   ++ [RunSettled (Some out) None])%list in
  downloads w'
  = (downloads w ++ [mkDownload out (fst (range (st w))) (snd (range (st w)))])%list
  /\ published w'
     = (published w ++ [num_of_Z 0]
        ++ sink_outputs (num_sub (snd (range (st w))) (fst (range (st w)))) lines
        ++ [num_of_Z 100])%list
  /\ succeeded w'
  /\ pending w' = PIdle
  /\ logger (ffmpeg w') = NoopLogger
  /\ fs_read (safe_input_name (name f)) (fs (ffmpeg w')) = None
  /\ fs_read safe_output_name (fs (ffmpeg w')) = None.
Proof.
  intros w Hf Hi w'. subst w'.
  pose proof (selected_file_ready es f Hf) as Hl. fold w in Hl.
  destruct (click_facts w f Hf Hi Hl) as (P1 & B1 & E1 & D1).
  set (w1 := step w ExportClick) in *.
  assert (L1 : loaded (ffmpeg w1) = true) by now rewrite E1.
  destruct (fetch_facts w1 _ P1 L1) as (P2 & B2 & E2 & D2).
  set (w2 := step w1 (FetchSettled None)) in *.
  destruct (lines_facts w2 lines) as (P3 & E3 & D3).
  assert (B3 := run_lines_published (durationTime (job_of w f)) lines w2).
  set (w3 := run w2 (map EngineLog lines)) in *.
  rewrite P2 in P3. rewrite E2 in E3. rewrite E1 in E3. cbn in E3.
  assert (C3 : fs_read (safeInputName (job_of w f)) (fs (ffmpeg w3)) = Some (content f)).
  { rewrite E3. cbn [fs]. apply fs_read_write. }
  destruct (run_resolved_facts w3 _ _ out P3 (safe_names_differ (name f)) C3)
    as (D4 & B4 & S4 & P4 & N4 & I4 & O4).
  change (run w ([ExportClick; FetchSettled None] ++ map EngineLog lines
                 ++ [RunSettled (Some out) None])%list)
    with (run w2 (map EngineLog lines ++ [RunSettled (Some out) None])%list).
  rewrite run_app. fold w3. cbn [run fold_left].
  repeat split; try assumption.
  - rewrite D4, D3, D2, D1. reflexivity.
  - rewrite B4, B3, B2, B1; [now rewrite <- !app_assoc|].
    rewrite E2, E1. reflexivity.
  - apply S4.
  - apply S4.
Qed.

Lemma export_success_witness :
  succeeded
    (run (run initial_world
            [InitLoadSettled None;
             FileChange (Some (mkFile "Clip.MOV" 3 [Byte.x01; Byte.x02; Byte.x03]));
             LoadedMetadata (num_of_Z 8)])
         ([ExportClick; FetchSettled None]
          ++ map EngineLog ["frame=  12 time=00:00:04.00 bitrate=N/A"]
          ++ [RunSettled (Some [Byte.x09]) None])%list).
Proof.
  apply (export_success
           [InitLoadSettled None;
            FileChange (Some (mkFile "Clip.MOV" 3 [Byte.x01; Byte.x02; Byte.x03]));
            LoadedMetadata (num_of_Z 8)]
           (mkFile "Clip.MOV" 3 [Byte.x01; Byte.x02; Byte.x03])
           ["frame=  12 time=00:00:04.00 bitrate=N/A"] [Byte.x09]);
    vm_compute; reflexivity.
Defined.

(** X12: exports that fail.  From any reachable state with a file selected
    and no export in progress: if reading the file is rejected, nothing is
    written; if the engine's run is rejected, after any log lines and with
    or without an output, the source bytes stay on the virtual filesystem
    under the input name.  Either way the export error shows, no download
    is added, the logger is silenced, and what was published is 0 followed
    by the values of the log lines and nothing else: the 100 that ends a
    success is not added. *)
Theorem export_failure (es : list Event) (f : File) (lines : list string)
    (output : option bytes) (msg : string) :
  let w := run initial_world es in
  videoFile (st w) = Some f ->
  isProcessing (st w) = false ->
  let d := num_sub (snd (range (st w))) (fst (range (st w))) in
  let w1 := run w [ExportClick; FetchSettled (Some msg)] in
  let w2 := run w ([ExportClick; FetchSettled None] ++ map EngineLog lines
                   ++ [RunSettled output (Some msg)])%list in
  (failed w1 /\ pending w1 = PIdle /\ logger (ffmpeg w1) = NoopLogger
   /\ downloads w1 = downloads w
   /\ published w1 = (published w ++ [num_of_Z 0])%list
   /\ fs (ffmpeg w1) = fs (ffmpeg w))
  /\ (failed w2 /\ pending w2 = PIdle /\ logger (ffmpeg w2) = NoopLogger
      /\ downloads w2 = downloads w
      /\ published w2 = (published w ++ [num_of_Z 0] ++ sink_outputs d lines)%list
      /\ fs_read (safe_input_name (name f)) (fs (ffmpeg w2)) = Some (content f)).
Proof.
  intros w Hf Hi d w1 w2. subst d w1 w2.
  pose proof (selected_file_ready es f Hf) as Hl. fold w in Hl.
  destruct (click_facts w f Hf Hi Hl) as (P1 & B1 & E1 & D1).
  set (x1 := step w ExportClick) in *.
  assert (L1 : loaded (ffmpeg x1) = true) by now rewrite E1.
  split.
  - destruct (fetch_rejected_facts x1 _ msg P1) as (F & P & N & B & E & D).
    change (run w [ExportClick; FetchSettled (Some msg)])
      with (step x1 (FetchSettled (Some msg))).
    repeat split; try assumption; try apply F.
    + now rewrite D.
    + now rewrite B.
    + now rewrite E, E1.
  - destruct (fetch_facts x1 _ P1 L1) as (P2 & B2 & E2 & D2).
    set (x2 := step x1 (FetchSettled None)) in *.
    destruct (lines_facts x2 lines) as (P3 & E3 & D3).
    assert (B3 := run_lines_published (durationTime (job_of w f)) lines x2).
    set (x3 := run x2 (map EngineLog lines)) in *.
    rewrite P2 in P3. rewrite E2 in E3. rewrite E1 in E3. cbn in E3.
    assert (C3 : fs_read (safeInputName (job_of w f)) (fs (ffmpeg x3))
                 = Some (content f)).
    { rewrite E3. cbn [fs]. apply fs_read_write. }
    destruct (run_rejected_facts x3 _ _ output msg P3 (safe_names_differ (name f)) C3)
      as (F4 & P4 & N4 & B4 & D4 & I4).
    change (run w ([ExportClick; FetchSettled None] ++ map EngineLog lines
                   ++ [RunSettled output (Some msg)])%list)
      with (run x2 (map EngineLog lines ++ [RunSettled output (Some msg)])%list).
    rewrite run_app. fold x3. cbn [run fold_left].
    repeat split; try assumption; try apply F4.
    + rewrite D4, D3, D2, D1. reflexivity.
    + rewrite B4, B3, B2, B1; [now rewrite <- !app_assoc|].
      rewrite E2, E1. reflexivity.
Qed.

Lemma export_failure_witness :
  let w := run initial_world
               [InitLoadSettled None;
                FileChange (Some (mkFile "Clip.MOV" 3 [Byte.x01; Byte.x02; Byte.x03]))] in
  let w2 := run w ([ExportClick; FetchSettled None] ++ map EngineLog []
                   ++ [RunSettled None (Some "exit 1")])%list in
  failed w2
  /\ fs_read "input_source.mov" (fs (ffmpeg w2))
     = Some [Byte.x01; Byte.x02; Byte.x03].
Proof.
  intros w w2.
  destruct (export_failure
              [InitLoadSettled None;
               FileChange (Some (mkFile "Clip.MOV" 3 [Byte.x01; Byte.x02; Byte.x03]))]
              (mkFile "Clip.MOV" 3 [Byte.x01; Byte.x02; Byte.x03])
              [] None "exit 1" eq_refl eq_refl) as (_ & F & _ & _ & _ & _ & R).
  split; [exact F|exact R].
Defined.

(** ** The stall flag is not raised early *)

Lemma handle_quiet (k : Z) (e : Event) (w : World) :
  quiet_for k w -> quiet_for k (handle e w).
Proof.
  intros [Hs Ht]. destruct (handle_frame e w) as (E1 & _ & [E2 | (_ & _ & E2)]);
    split; rewrite ?E1, ?E2; first [assumption|reflexivity].
Qed.

Lemma commit_quiet (k : Z) (w : World) :
  (k <= 5000)%Z -> quiet_for k w -> quiet_for k (commit w).
Proof.
  intros Hk [Hs Ht]. unfold commit. destruct (deps_same _ _); [now split|].
  unfold slow_effect. destruct (_ && _)%bool; cbn; split; try assumption;
    try reflexivity; intros r H; [injection H as <-; exact Hk|discriminate].
Qed.

Lemma tick_done_quiet (k : Z) (w : World) :
  quiet_for k w -> quiet_for k (tick_done w).
Proof.
  intros [Hs Ht]. destruct (tick_done_frame w) as (E1 & _ & E2 & _).
  split; rewrite ?E1, ?E2; assumption.
Qed.

Lemma tick_slow_quiet (k : Z) (w : World) :
  (2 <= k)%Z -> quiet_for k w -> quiet_for (k - 1) (tick_slow w).
Proof.
  intros Hk [Hs Ht]. unfold tick_slow. destruct (slow_timer w) as [r|] eqn:E.
  - specialize (Ht r eq_refl). destruct (r <=? 1)%Z eqn:Hr; [apply Z.leb_le in Hr; lia|].
    split; [exact Hs|]. cbn. intros r' H. injection H as <-. lia.
  - split; [exact Hs|]. rewrite E. discriminate.
Qed.

Lemma step_quiet (k : Z) (w : World) (e : Event) :
  (elapsed [e] < k <= 5000)%Z -> quiet_for k w ->
  quiet_for (k - elapsed [e]) (step w e).
Proof.
  intros Hk H.
  destruct e; cbn [elapsed] in *; rewrite ?Z.sub_0_r;
    try (cbn [step]; apply commit_quiet; [lia|]; apply handle_quiet, H).
  replace (k - (1 + 0))%Z with (k - 1)%Z by lia. cbn [step]. unfold tick.
  apply commit_quiet; [lia|]. apply tick_done_quiet. apply commit_quiet; [lia|].
  apply tick_slow_quiet; [lia|exact H].
Qed.

Lemma run_quiet (es : list Event) (k : Z) (w : World) :
  (elapsed es < k <= 5000)%Z -> quiet_for k w -> isSlow (st (run w es)) = false.
Proof.
  revert k w. induction es as [|e es IH]; intros k w Hk H; [apply H|].
  pose proof (elapsed_nonneg es) as Hn.
  assert (He : elapsed (e :: es) = (elapsed [e] + elapsed es)%Z)
    by (destruct e; cbn [elapsed]; lia).
  assert (H1 : (0 <= elapsed [e])%Z) by apply elapsed_nonneg.
  cbn [run fold_left]. fold (run (step w e) es).
  apply (IH (k - elapsed [e])%Z); [lia|]. apply step_quiet; [lia|exact H].
Qed.

(** X13: the stall flag is never raised early.  From any reachable state
    with no export in progress, whatever happens next - a click on export,
    log lines, settlements - the flag is down as long as less than 5000 ms
    have passed. *)
Theorem stall_flag_not_early (es es' : list Event) :
  isProcessing (st (run initial_world es)) = false ->
  (elapsed es' < 5000)%Z ->
  isSlow (st (run (run initial_world es) es')) = false.
Proof.
  intros Hi He. apply (run_quiet es' 5000); [lia|].
  destruct (run_world_inv es) as [[_ Hm] _]. unfold stalled in Hm.
  rewrite Hi in Hm. cbn in Hm. destruct Hm as [Ht Hs].
  split; [exact Hs|]. rewrite Ht. discriminate.
Qed.

Lemma stall_flag_not_early_witness :
  isSlow (st (run (run initial_world
                     [InitLoadSettled None;
                      FileChange (Some (mkFile "Clip.MOV" 3 []))])
                  (ExportClick :: FetchSettled None :: repeat Tick 4999))) = false.
Proof.
  apply stall_flag_not_early; vm_compute; reflexivity.
Defined.

(** ** The default trim range *)

Lemma Qle_bool_total (a b : Q) : Qle_bool a b = false -> Qle_bool b a = true.
Proof.
  intros H. apply Qle_bool_iff. destruct (Qlt_le_dec b a) as [L|L].
  - apply Qlt_le_weak, L.
  - apply Qle_bool_iff in L. congruence.
Qed.

(** X14: when the metadata of a media of positive duration arrives - the
    duration may be infinite, as for a stream - the trim range becomes
    [0, min(duration, 10)]: it starts at 0, ends at the duration or at 10,
    is not empty and lies within the media. *)
Theorem metadata_default_range (w : World) (dur : number) :
  num_ltb (num_of_Z 0) dur = true ->
  let w' := handleLoadedMetadata dur w in
  duration (st w') = dur
  /\ fst (range (st w')) = num_of_Z 0
  /\ (snd (range (st w')) = dur \/ snd (range (st w')) = num_of_Z 10)
  /\ num_ltb (num_of_Z 0) (snd (range (st w'))) = true
  /\ num_le (snd (range (st w'))) dur
  /\ num_le (snd (range (st w'))) (num_of_Z 10).
Proof.
  intros H w'. subst w'. unfold handleLoadedMetadata.
  cbn [range duration st setRange setDuration with_st st_setRange st_setDuration
       fst snd].
  split; [reflexivity|]. split; [reflexivity|].
  destruct dur as [| |q|]; try discriminate H.
  - cbn [Math_min num_of_Z]. destruct (Qle_bool q _) eqn:E.
    + split; [now left|]. split; [exact H|]. split; [|exact E].
      apply Qle_bool_iff, Qle_refl.
    + split; [now right|]. split; [reflexivity|]. split.
      * apply Qle_bool_total, E.
      * apply Qle_bool_iff, Qle_refl.
  - cbn [Math_min num_of_Z]. split; [now right|]. repeat split.
Qed.

Lemma metadata_default_range_witness :
  let w' := handleLoadedMetadata (num_of_Z 7) initial_world in
  duration (st w') = num_of_Z 7
  /\ fst (range (st w')) = num_of_Z 0
  /\ (snd (range (st w')) = num_of_Z 7 \/ snd (range (st w')) = num_of_Z 10)
  /\ num_ltb (num_of_Z 0) (snd (range (st w'))) = true
  /\ num_le (snd (range (st w'))) (num_of_Z 7)
  /\ num_le (snd (range (st w'))) (num_of_Z 10).
Proof. apply (metadata_default_range initial_world (num_of_Z 7)). reflexivity. Defined.

(** ** The extension of the input name *)

Lemma lower_char_not_dot (c : ascii) :
  Ascii.eqb (lower_char c) "." = Ascii.eqb c ".".
Proof. destruct c as [[] [] [] [] [] [] [] []]; reflexivity. Qed.

Lemma lower_char_idem (c : ascii) : lower_char (lower_char c) = lower_char c.
Proof. destruct c as [[] [] [] [] [] [] [] []]; reflexivity. Qed.

Lemma toLowerCase_idem (s : string) : toLowerCase (toLowerCase s) = toLowerCase s.
Proof.
  induction s as [|c s IH]; [reflexivity|]. cbn [toLowerCase].
  now rewrite lower_char_idem, IH.
Qed.

Lemma toLowerCase_no_dot (s : string) :
  after_last_dot s = None -> after_last_dot (toLowerCase s) = None.
Proof.
  induction s as [|c s IH]; [reflexivity|]. cbn [after_last_dot toLowerCase].
  rewrite lower_char_not_dot.
  destruct (after_last_dot s); [discriminate|]. rewrite (IH eq_refl).
  destruct (Ascii.eqb c "."); [discriminate|reflexivity].
Qed.

Lemma after_last_dot_no_dot (s e : string) :
  after_last_dot s = Some e -> after_last_dot e = None.
Proof.
  revert e. induction s as [|c s IH]; intros e; [discriminate|].
  cbn [after_last_dot]. destruct (after_last_dot s) as [e'|] eqn:E.
  - intros H. injection H as <-. now apply IH.
  - destruct (Ascii.eqb c "."); [|discriminate]. intros H. now injection H as <-.
Qed.

Lemma after_last_dot_ascii (s e : string) :
  after_last_dot s = Some e -> ascii_only s = true -> ascii_only e = true.
Proof.
  revert e. induction s as [|c s IH]; intros e; [discriminate|].
  cbn [after_last_dot ascii_only]. intros H Ha.
  apply andb_true_iff in Ha as [_ Ha].
  destruct (after_last_dot s) as [e'|] eqn:E.
  - injection H as <-. now apply IH.
  - destruct (Ascii.eqb c "."); [|discriminate]. now injection H as <-.
Qed.

(** X16: the extension of the input name, for every file name of ASCII
    characters: it is never empty, is ASCII text, and contains no dot and
    no upper-case letter; for a non-empty name without a dot it is the
    whole name in lower case, so [README] is stored as
    [input_source.readme]. *)
Theorem input_extension_shape (fileName : string) :
  ascii_only fileName = true ->
  safe_input_name fileName = "input_source." ++ extension_of fileName
  /\ extension_of fileName <> ""
  /\ ascii_only (extension_of fileName) = true
  /\ after_last_dot (extension_of fileName) = None
  /\ toLowerCase (extension_of fileName) = extension_of fileName
  /\ (after_last_dot fileName = None -> fileName <> "" ->
      extension_of fileName = toLowerCase fileName).
Proof.
  intros Ha. split; [reflexivity|]. unfold extension_of. rewrite pop_split_dot.
  destruct (after_last_dot fileName) as [e|] eqn:E.
  - pose proof (after_last_dot_no_dot _ _ E) as He.
    pose proof (after_last_dot_ascii _ _ E Ha) as Hae.
    destruct e as [|c e]; cbn [or_default].
    + repeat split; discriminate.
    + split; [discriminate|]. split; [now apply toLowerCase_ascii|].
      split; [now apply toLowerCase_no_dot|].
      split; [apply toLowerCase_idem|discriminate].
  - destruct fileName as [|c s]; cbn [or_default].
    + repeat split; try discriminate. intros _ H. now contradiction H.
    + split; [discriminate|]. split; [now apply toLowerCase_ascii|].
      split; [now apply toLowerCase_no_dot|].
      split; [apply toLowerCase_idem|reflexivity].
Qed.

Lemma input_extension_shape_witness :
  extension_of "README" = "readme" /\ safe_input_name "README" = "input_source.readme".
Proof.
  destruct (input_extension_shape "README" eq_refl) as (H1 & _ & _ & _ & _ & H2).
  split; [apply H2; [reflexivity|discriminate]|].
  rewrite H1, H2; [reflexivity|reflexivity|discriminate].
Defined.

(** ** Where the progress pattern matches *)

Lemma take_digits_app (s : string) :
  s = fst (take_digits s) ++ snd (take_digits s)
  /\ match snd (take_digits s) with
     | String c _ => is_digit c = false
     | EmptyString => True
     end.
Proof.
  induction s as [|c s IH]; [split; [reflexivity|exact I]|].
  cbn [take_digits]. destruct (is_digit c) eqn:Hc.
  - destruct (take_digits s) as [d r]. cbn [fst snd] in *.
    destruct IH as [IH1 IH2]. split; [|exact IH2]. cbn. now rewrite <- IH1.
  - cbn [fst snd]. split; [reflexivity|exact Hc].
Qed.

Lemma match_time_here_sound (s cap : string) :
  match_time_here s = Some cap ->
  exists post : string,
    s = "time=" ++ cap ++ post
    /\ match post with String c _ => is_digit c = false | EmptyString => True end.
Proof.
  unfold match_time_here. intros H.
  repeat match type of H with
         | match ?x with _ => _ end = _ =>
             is_var x; destruct x; try discriminate H
         end.
  destruct (_ && _)%bool; [|discriminate H].
  match type of H with
  | context [take_digits ?r] =>
      destruct (take_digits_app r) as [E P];
      destruct (take_digits r) as [[|f frac] post]; [discriminate H|]
  end.
  cbn [fst snd] in E, P. injection H as <-. exists post. split; [|exact P].
  cbn. now rewrite E.
Qed.

(** X17: where the pattern matches.  When a capture is taken from a log
    line, the line is some text, then [time=], the capture and the rest;
    the rest does not begin with a digit, so the fraction is captured
    whole; and the pattern matches at no earlier position of the line. *)
Theorem match_time_position (line cap : string) :
  match_time line = Some cap ->
  exists pre post : string,
    line = pre ++ "time=" ++ cap ++ post
    /\ match post with String c _ => is_digit c = false | EmptyString => True end
    /\ forall pre1 pre2 : string,
         pre = pre1 ++ pre2 -> pre2 <> "" ->
         match_time_here (pre2 ++ "time=" ++ cap ++ post) = None.
Proof.
  induction line as [|c line IH]; [discriminate|].
  cbn [match_time]. destruct (match_time_here (String c line)) as [cap'|] eqn:E.
  - intros H. injection H as ->.
    destruct (match_time_here_sound _ _ E) as (post & Hs & Hp).
    exists "", post. split; [exact Hs|]. split; [exact Hp|].
    intros pre1 pre2 H Hn. destruct pre1, pre2; try discriminate H. now contradiction Hn.
  - intros H. destruct (IH H) as (pre & post & Hs & Hp & Hl).
    exists (String c pre), post. split; [cbn; now rewrite Hs|]. split; [exact Hp|].
    intros pre1 pre2 H1 Hn. destruct pre1 as [|a pre1].
    + cbn in H1. subst pre2. cbn [append]. cbn [append] in Hs. rewrite <- Hs. exact E.
    + cbn in H1. injection H1 as _ H1. now apply (Hl pre1 pre2).
Qed.

Lemma match_time_position_witness :
  exists pre post : string,
    "frame= 3 time=00:00:04.25 bitrate=N/A" = pre ++ "time=" ++ "00:00:04.25" ++ post
    /\ match post with String c _ => is_digit c = false | EmptyString => True end
    /\ forall pre1 pre2 : string,
         pre = pre1 ++ pre2 -> pre2 <> "" ->
         match_time_here (pre2 ++ "time=" ++ "00:00:04.25" ++ post) = None.
Proof.
  apply (match_time_position "frame= 3 time=00:00:04.25 bitrate=N/A" "00:00:04.25").
  reflexivity.
Defined.

(** ** Numbers: values that are not rounded *)

Section Exact.

Local Open Scope Q_scope.

(** A value [m * 2^e] with a significand of at most 53 bits is a binary64
    value: rounding leaves it as it is. *)
Lemma rnd_exact (m e : Z) :
  (0 < m < 2 ^ 53)%Z -> (-1074 <= e <= 971)%Z ->
  rnd (inject_Z m * pow2 e) = Fin (Q2Qc (inject_Z m * pow2 e)).
Proof.
  intros Hm He. set (q := inject_Z m * pow2 e).
  assert (Hq : 0 < q).
  { apply Qmult_lt_0_compat; [|apply pow2_pos].
    replace 0 with (inject_Z 0) by reflexivity. rewrite <- Zlt_Qlt. lia. }
  assert (Hup : q < pow2 (53 + e)).
  { rewrite pow2_add. unfold q. apply Qmult_lt_compat_r; [apply pow2_pos|].
    rewrite <- (pow2_Z 53) by lia. rewrite <- Zlt_Qlt. lia. }
  destruct (ilog2_spec q Hq) as [Hl _].
  assert (HL : (ilog2 q - 52 <= e)%Z).
  { destruct (Z_le_gt_dec (53 + e) (ilog2 q)) as [C|C]; [|lia].
    apply pow2_le in C. exfalso.
    apply (Qlt_irrefl q). eapply Qlt_le_trans; [exact Hup|].
    eapply Qle_trans; [exact C|exact Hl]. }
  assert (Hu : (ulp_exp q <= e)%Z) by (unfold ulp_exp; lia).
  assert (Hd : q / pow2 (ulp_exp q) == inject_Z (m * 2 ^ (e - ulp_exp q))).
  { rewrite inject_Z_mult, (pow2_Z (e - ulp_exp q)) by lia.
    rewrite pow2_sub. unfold q. field.
    apply Qnot_eq_sym, Qlt_not_eq, pow2_pos. }
  assert (Hv : rnd_val q == q).
  { unfold rnd_val. rewrite (rhe_comp _ _ Hd), rhe_Z.
    rewrite inject_Z_mult, (pow2_Z (e - ulp_exp q)) by lia.
    rewrite pow2_sub. unfold q. field.
    apply Qnot_eq_sym, Qlt_not_eq, pow2_pos. }
  unfold rnd. rewrite (proj1 (Qgt_alt q 0) Hq). unfold rnd_pos.
  destruct (Qle_bool (pow2 1024) (rnd_val q)) eqn:O.
  - apply Qle_bool_iff in O. rewrite Hv in O. exfalso.
    apply (Qlt_irrefl q). eapply Qlt_le_trans; [exact Hup|].
    eapply Qle_trans; [|exact O]. apply pow2_le. lia.
  - f_equal. now apply Q2Qc_eq_iff.
Qed.

(** A natural number below [2^53] is a binary64 value. *)
Lemma rnd_int (n : Z) : (0 <= n < 2 ^ 53)%Z -> rnd (inject_Z n) = num_of_Z n.
Proof.
  intros H. destruct (Z.eq_dec n 0) as [->|N].
  - apply num_same_eq. vm_compute. reflexivity.
  - rewrite (rnd_comp _ (inject_Z n * pow2 0)).
    + rewrite rnd_exact by lia. unfold num_of_Z. f_equal. apply Q2Qc_eq_iff.
      unfold pow2. cbn [Qpower]. ring.
    + unfold pow2. cbn [Qpower]. ring.
Qed.

Lemma mul_int (a b : Z) :
  (0 <= a * b < 2 ^ 53)%Z -> num_mul (num_of_Z a) (num_of_Z b) = num_of_Z (a * b).
Proof.
  intros H. unfold num_of_Z at 1 2. cbn [num_mul].
  rewrite (rnd_comp _ (inject_Z (a * b))); [now apply rnd_int|].
  rewrite !this_Q2Qc. now rewrite inject_Z_mult.
Qed.

Lemma add_int (a b : Z) :
  (0 <= a + b < 2 ^ 53)%Z -> num_add (num_of_Z a) (num_of_Z b) = num_of_Z (a + b).
Proof.
  intros H. unfold num_of_Z at 1 2. cbn [num_add].
  rewrite (rnd_comp _ (inject_Z (a + b))); [now apply rnd_int|].
  rewrite !this_Q2Qc. now rewrite inject_Z_plus.
Qed.

(** Adding a number between two integers to an integer. *)
Lemma add_int_between (a lo hi : Z) (x : number) :
  (0 <= a + lo)%Z -> (a + hi < 2 ^ 53)%Z ->
  num_le (num_of_Z lo) x -> num_le x (num_of_Z hi) ->
  num_le (num_of_Z (a + lo)) (num_add (num_of_Z a) x)
  /\ num_le (num_add (num_of_Z a) x) (num_of_Z (a + hi)).
Proof.
  intros H0 H1 Hlo Hhi.
  destruct x as [| |q|]; try discriminate Hlo; try discriminate Hhi.
  unfold num_of_Z in Hlo, Hhi. apply num_le_Fin in Hlo, Hhi.
  rewrite this_Q2Qc in Hlo, Hhi.
  assert (lo <= hi)%Z by (rewrite Zle_Qle; eapply Qle_trans; eassumption).
  unfold num_of_Z at 2 3. cbn [num_add]. split.
  - rewrite <- (rnd_int (a + lo)) by lia. apply rnd_mono.
    rewrite this_Q2Qc, inject_Z_plus. lra.
  - rewrite <- (rnd_int (a + hi)) by lia. apply rnd_mono.
    rewrite this_Q2Qc, inject_Z_plus. lra.
Qed.

End Exact.

(** ** Captured timestamps *)

Lemma digits_val_acc (s : string) (acc : Z) :
  digits_val acc s = (acc * 10 ^ Z.of_nat (String.length s) + digits_val 0 s)%Z.
Proof.
  revert acc. induction s as [|c s IH]; intros acc.
  - cbn. lia.
  - cbn [digits_val String.length]. rewrite IH, (IH (10 * 0 + digit_val c)%Z).
    rewrite Nat2Z.inj_succ, Z.pow_succ_r by lia. ring.
Qed.

Lemma digit_val_range (c : ascii) : is_digit c = true -> (0 <= digit_val c <= 9)%Z.
Proof.
  unfold is_digit, digit_val. intros H. apply andb_true_iff in H as [H1 H2].
  apply N.leb_le in H1, H2. lia.
Qed.

Lemma digits_val_bound (s : string) :
  all_digits s = true -> (0 <= digits_val 0 s < 10 ^ Z.of_nat (String.length s))%Z.
Proof.
  induction s as [|c s IH]; intros H.
  - cbn. lia.
  - cbn [all_digits] in H. apply andb_true_iff in H as [Hc H].
    specialize (IH H). pose proof (digit_val_range c Hc).
    cbn [digits_val String.length]. rewrite digits_val_acc.
    rewrite Nat2Z.inj_succ, Z.pow_succ_r by lia. nia.
Qed.

Lemma take_digits_whole (s : string) :
  all_digits s = true -> take_digits s = (s, EmptyString).
Proof.
  induction s as [|c s IH]; [reflexivity|]. cbn [all_digits take_digits].
  intros H. apply andb_true_iff in H as [-> H]. now rewrite (IH H).
Qed.

Lemma append_length (a b : string) :
  String.length (a ++ b) = (String.length a + String.length b)%nat.
Proof. induction a as [|c a IH]; [reflexivity|]. cbn. now rewrite IH. Qed.

(** Two digits parse to their value. *)
Lemma parseFloat_pair (c1 c2 : ascii) :
  is_digit c1 = true -> is_digit c2 = true ->
  parseFloat (String c1 (String c2 EmptyString))
  = num_of_Z (digits_val 0 (String c1 (String c2 EmptyString))).
Proof.
  intros D1 D2. destruct (digit_cases c1 D1) as (_ & _ & _ & ->).
  unfold parse_unsigned. cbn [take_digits]. rewrite D1, D2.
  cbn [parse_exponent String.length Z.of_nat Z.sub append].
  pose proof (digit_val_range c1 D1). pose proof (digit_val_range c2 D2).
  rewrite (rnd_comp _ (inject_Z (digits_val 0 (String c1 (String c2 EmptyString))))).
  - apply rnd_int. cbn [digits_val]. lia.
  - change (0 - 0)%Z with 0%Z. cbn [Qpower]. ring.
Qed.

(** Two digits and a fraction parse to a number between the value of the
    two digits and one more. *)
Lemma parseFloat_seconds (c1 c2 : ascii) (frac : string) :
  is_digit c1 = true -> is_digit c2 = true -> all_digits frac = true ->
  num_le (num_of_Z (digits_val 0 (String c1 (String c2 EmptyString))))
         (parseFloat (String c1 (String c2 (String "." frac))))
  /\ num_le (parseFloat (String c1 (String c2 (String "." frac))))
            (num_of_Z (digits_val 0 (String c1 (String c2 EmptyString)) + 1)).
Proof.
  intros D1 D2 Df. destruct (digit_cases c1 D1) as (_ & _ & _ & ->).
  unfold parse_unsigned. cbn [take_digits]. rewrite D1, D2.
  replace (is_digit ".") with false by reflexivity.
  rewrite (take_digits_whole frac Df).
  cbn [parse_exponent append]. rewrite Z.sub_0_l.
  set (S := digits_val 0 (String c1 (String c2 EmptyString))).
  set (n := Z.of_nat (String.length frac)).
  assert (HS : (0 <= S <= 99)%Z).
  { pose proof (digit_val_range c1 D1). pose proof (digit_val_range c2 D2).
    unfold S. cbn [digits_val]. lia. }
  assert (Hv : digits_val 0 (String c1 (String c2 frac))
               = (S * 10 ^ n + digits_val 0 frac)%Z).
  { unfold S, n. cbn [digits_val]. now rewrite digits_val_acc. }
  pose proof (digits_val_bound frac Df) as HF. fold n in HF.
  assert (Hn : (0 <= n)%Z) by (unfold n; lia).
  assert (Hp : (0 < 10 ^ n)%Z) by (apply Z.pow_pos_nonneg; lia).
  assert (E10 : (10 ^ (- n))%Q == / inject_Z (10 ^ n)).
  { rewrite Qpower_opp. apply Qinv_comp. now rewrite Zpower_Qpower. }
  assert (P10 : (0 < inject_Z (10 ^ n))%Q).
  { replace 0%Q with (inject_Z 0) by reflexivity. now rewrite <- Zlt_Qlt. }
  fold n. rewrite Hv. split.
  - rewrite <- (rnd_int S) by lia. apply rnd_mono. rewrite E10.
    apply (Qmult_le_r _ _ (inject_Z (10 ^ n))); [exact P10|].
    rewrite <- Qmult_assoc, (Qmult_comm (/ _)), Qmult_inv_r, Qmult_1_r
      by (apply Qnot_eq_sym, Qlt_not_eq, P10).
    rewrite <- inject_Z_mult, <- Zle_Qle. lia.
  - rewrite <- (rnd_int (S + 1)) by lia. apply rnd_mono. rewrite E10.
    apply (Qmult_le_r _ _ (inject_Z (10 ^ n))); [exact P10|].
    rewrite <- Qmult_assoc, (Qmult_comm (/ _)), Qmult_inv_r, Qmult_1_r
      by (apply Qnot_eq_sym, Qlt_not_eq, P10).
    rewrite <- inject_Z_mult, <- Zle_Qle. lia.
Qed.

(** A timestamp [HH:MM:SS.frac] parses to its whole seconds or up to one
    second more. *)
Lemma timestamp_window (h1 h2 m1 m2 s1 s2 : ascii) (frac : string) :
  is_digit h1 = true -> is_digit h2 = true ->
  is_digit m1 = true -> is_digit m2 = true ->
  is_digit s1 = true -> is_digit s2 = true ->
  all_digits frac = true ->
  let cap := String h1 (String h2 (String ":" (String m1 (String m2 (String ":"
               (String s1 (String s2 (String "." frac)))))))) in
  num_le (num_of_Z (whole_seconds cap)) (parseFfmpegTime cap)
  /\ num_le (parseFfmpegTime cap) (num_of_Z (whole_seconds cap + 1))
  /\ (0 <= whole_seconds cap <= 362439)%Z.
Proof.
  intros D1 D2 D3 D4 D5 D6 Df cap. subst cap.
  unfold parseFfmpegTime. rewrite (capture_split _ _ _ _ _ _ _ D1 D2 D3 D4 D5 D6 Df).
  unfold whole_seconds. cbn [substring].
  set (hh := digits_val 0 (String h1 (String h2 EmptyString))).
  set (mm := digits_val 0 (String m1 (String m2 EmptyString))).
  set (ss := digits_val 0 (String s1 (String s2 EmptyString))).
  assert (Hh : (0 <= hh <= 99)%Z).
  { pose proof (digit_val_range h1 D1). pose proof (digit_val_range h2 D2).
    unfold hh. cbn [digits_val]. lia. }
  assert (Hm : (0 <= mm <= 99)%Z).
  { pose proof (digit_val_range m1 D3). pose proof (digit_val_range m2 D4).
    unfold mm. cbn [digits_val]. lia. }
  assert (Hs : (0 <= ss <= 99)%Z).
  { pose proof (digit_val_range s1 D5). pose proof (digit_val_range s2 D6).
    unfold ss. cbn [digits_val]. lia. }
  rewrite (parseFloat_pair h1 h2 D1 D2), (parseFloat_pair m1 m2 D3 D4).
  fold hh mm. rewrite (mul_int hh 3600), (mul_int mm 60), add_int by lia.
  destruct (parseFloat_seconds s1 s2 frac D5 D6 Df) as [Lo Hi]. fold ss in Lo, Hi.
  destruct (add_int_between (hh * 3600 + mm * 60) ss (ss + 1) _
              ltac:(lia) ltac:(lia) Lo Hi) as [A B].
  replace (3600 * hh + 60 * mm + ss)%Z with (hh * 3600 + mm * 60 + ss)%Z by ring.
  split; [exact A|]. split; [|lia].
  replace (hh * 3600 + mm * 60 + ss + 1)%Z with (hh * 3600 + mm * 60 + (ss + 1))%Z by ring.
  exact B.
Qed.

(** A captured timestamp is a finite number, not below 0. *)
Lemma capture_time_finite (line cap : string) :
  match_time line = Some cap ->
  exists q : Qc, parseFfmpegTime cap = Fin q /\ (0 <= q)%Q.
Proof.
  intros H. pose proof (capture_time_nonneg line cap H) as Hn.
  destruct (match_time_shape line cap H)
    as (_ & h1 & h2 & m1 & m2 & s1 & s2 & frac & -> & D1 & D2 & D3 & D4 & D5 & D6 & Df & _).
  destruct (timestamp_window h1 h2 m1 m2 s1 s2 frac D1 D2 D3 D4 D5 D6 Df)
    as (_ & Hu & _).
  destruct (parseFfmpegTime _) as [| |q|]; try discriminate Hn; try discriminate Hu.
  exists q. split; [reflexivity|]. now apply num_le_Fin in Hn.
Qed.

(** X15: a captured timestamp parses to its whole seconds or up to one
    second more: the result is a finite number, never NaN, between the
    value the digit pairs denote and that value plus one, so at most
    362440. *)
Theorem captured_time_bounds (line cap : string) :
  match_time line = Some cap ->
  (exists q : Qc, parseFfmpegTime cap = Fin q)
  /\ num_le (num_of_Z (whole_seconds cap)) (parseFfmpegTime cap)
  /\ num_le (parseFfmpegTime cap) (num_of_Z (whole_seconds cap + 1))
  /\ (0 <= whole_seconds cap <= 362439)%Z.
Proof.
  intros H. split.
  - destruct (capture_time_finite line cap H) as (q & E & _). now exists q.
  - destruct (match_time_shape line cap H)
      as (_ & h1 & h2 & m1 & m2 & s1 & s2 & frac & -> & D1 & D2 & D3 & D4 & D5 & D6 & Df & _).
    now apply timestamp_window.
Qed.

Lemma captured_time_bounds_witness :
  num_le (num_of_Z 3723) (parseFfmpegTime "01:02:03.75")
  /\ num_le (parseFfmpegTime "01:02:03.75") (num_of_Z 3724).
Proof.
  destruct (captured_time_bounds "size= 12kB time=01:02:03.75 bitrate=N/A"
              "01:02:03.75" eq_refl) as (_ & A & B & _).
  split; [exact A|exact B].
Defined.

(** ** An empty trim range *)

Lemma sub_self (x : Qc) : num_sub (Fin x) (Fin x) = Fin 0%Qc.
Proof.
  unfold num_sub. cbn [num_neg num_add].
  rewrite (rnd_comp _ 0%Q); [reflexivity|].
  change (this (- x)%Qc) with (Qred (- this x)). rewrite Qred_correct. ring.
Qed.

(** X18: with an empty trim range (start = end) the requested duration is
    0 and the logger divides by it: a captured timestamp of 0 publishes
    NaN as the progress, every later timestamp publishes 100. *)
Theorem empty_range_progress (x : Qc) (line cap : string) (w : World) :
  match_time line = Some cap ->
  logger (ffmpeg w) = ProgressLogger (num_sub (Fin x) (Fin x)) ->
  progress (st (engine_log line w))
  = (if num_eqb (parseFfmpegTime cap) (num_of_Z 0) then NaN else num_of_Z 100)
  /\ published (engine_log line w)
     = (published w
        ++ [if num_eqb (parseFfmpegTime cap) (num_of_Z 0) then NaN else num_of_Z 100])%list.
Proof.
  intros Hm Hl.
  assert (E : progress_of_line (num_sub (Fin x) (Fin x)) line
              = Some (if num_eqb (parseFfmpegTime cap) (num_of_Z 0)
                      then NaN else num_of_Z 100)).
  { rewrite (progress_of_line_match _ line cap Hm), sub_self. f_equal.
    destruct (capture_time_finite line cap Hm) as (q & -> & Hn).
    unfold percent_of. cbn [num_div num_eqb num_of_Z].
    replace (Qeq_bool 0%Qc 0) with true by reflexivity. cbn [num_sgn].
    destruct (Qeq_bool q (Q2Qc (inject_Z 0))) eqn:Q.
    - apply Qeq_bool_iff in Q. assert (Qnum q = 0%Z) as ->.
      { destruct q as [[a b] c]. unfold Qeq in Q. cbn in *. lia. }
      reflexivity.
    - assert (0 < Qnum q)%Z as P.
      { apply Q_num_pos. destruct (Qle_lt_or_eq _ _ Hn) as [L|L]; [exact L|].
        apply Qeq_sym, Qeq_bool_iff in L. cbn in L, Q. congruence. }
      destruct (Qnum q); try lia. reflexivity. }
  unfold engine_log. rewrite Hl, E. split; reflexivity.
Qed.

Lemma empty_range_progress_witness :
  let w := run initial_world
               [InitLoadSettled None; FileChange (Some (mkFile "a.mp4" 1 []));
                SliderChange (num_of_Z 3, num_of_Z 3); ExportClick; FetchSettled None] in
  progress (st (engine_log "frame=0 time=00:00:00.00 bitrate=N/A" w)) = NaN.
Proof.
  intros w.
  apply (empty_range_progress (Q2Qc (inject_Z 3)) "frame=0 time=00:00:00.00 bitrate=N/A"
           "00:00:00.00" w); reflexivity.
Defined.

(** ** An export in flight and the user interface *)

Lemma tick_ffmpeg_downloads (w : World) :
  ffmpeg (tick w) = ffmpeg w /\ downloads (tick w) = downloads w.
Proof.
  unfold tick.
  destruct (commit_st_frame (tick_done (commit (tick_slow w)))) as (_ & _ & _ & _ & _ & ->).
  rewrite commit_ffmpeg.
  assert (A : forall x, ffmpeg (tick_done x) = ffmpeg x /\ downloads (tick_done x) = downloads x).
  { intros x. unfold tick_done. destruct (filter _ _); split; reflexivity. }
  assert (B : forall x, ffmpeg (tick_slow x) = ffmpeg x /\ downloads (tick_slow x) = downloads x).
  { intros x. unfold tick_slow. destruct (slow_timer x) as [r|]; [|split; reflexivity].
    destruct (r <=? 1)%Z; split; reflexivity. }
  destruct (A (commit (tick_slow w))) as [-> ->].
  destruct (commit_st_frame (tick_slow w)) as (_ & _ & _ & _ & _ & ->).
  rewrite commit_ffmpeg. apply B.
Qed.

Lemma step_keeps_job (w : World) (j : Job) (e : Event) :
  world_inv w -> ui_inv w -> pending w = PRun j -> settles e = false ->
  pending (step w e) = PRun j /\ ffmpeg (step w e) = ffmpeg w
  /\ downloads (step w e) = downloads w.
Proof.
  intros [_ Hph] (_ & Hr & Hp) Hj He. rewrite Hj in Hp.
  destruct Hp as (_ & Hready & _). destruct (Hr Hready) as (_ & Hinit).
  assert (Hi : isProcessing (st w) = true).
  { destruct Hph as [(_ & Hi & _) | [(C & _) | (C & _)]]; [exact Hi| |];
      rewrite Hj in C; discriminate C. }
  destruct e; try discriminate He; cbn [step].
  all: try (rewrite commit_pending, commit_ffmpeg;
            match goal with
            | |- context [commit (handle ?e ?x)] =>
                destruct (commit_st_frame (handle e x)) as (_ & _ & _ & _ & _ & ->)
            end;
            cbn [handle]; unfold has_file, handleFileChange, handleLoadedMetadata,
              handleSliderChange, engine_log;
            rewrite ?Hinit, ?Hi, ?andb_false_r;
            repeat match goal with
                   | |- context [match ?c with _ => _ end] => destruct c
                   | |- context [if ?c then _ else _] => destruct c
                   end;
            repeat split; assumption).
  rewrite tick_pending. destruct (tick_ffmpeg_downloads w) as [-> ->].
  repeat split; assumption.
Qed.

Lemma run_keeps_job (es es2 : list Event) (j : Job) :
  pending (run initial_world es) = PRun j ->
  forallb (fun e => negb (settles e)) es2 = true ->
  pending (run (run initial_world es) es2) = PRun j
  /\ ffmpeg (run (run initial_world es) es2) = ffmpeg (run initial_world es)
  /\ downloads (run (run initial_world es) es2) = downloads (run initial_world es).
Proof.
  revert es. induction es2 as [|e es2 IH]; intros es Hj Hs; [repeat split; exact Hj|].
  cbn [forallb] in Hs. apply andb_true_iff in Hs as [He Hs]. apply negb_true_iff in He.
  destruct (step_keeps_job _ j e (run_world_inv es) (run_initial_ui es) Hj He)
    as (P & F & D).
  assert (E1 : run initial_world (es ++ [e]) = step (run initial_world es) e)
    by (rewrite run_app; reflexivity).
  assert (E : run (run initial_world es) (e :: es2)
              = run (run initial_world (es ++ [e])) es2)
    by (rewrite E1; reflexivity).
  rewrite E. rewrite <- E1 in P, F, D.
  destruct (IH (es ++ [e])%list P Hs) as (-> & -> & ->).
  repeat split; assumption.
Qed.

(** X21: an export in flight does not depend on the user interface.  While
    the engine runs, clearing the selection, selecting another file, moving
    the slider, clicking export, log lines and the passing of time leave
    the job, the virtual filesystem and the downloads as they are; when the
    run resolves with an output, the download holds that output and the
    range selected at the click, and the success message shows, whatever
    is selected by then. *)
Theorem export_isolated (es es2 : list Event) (j : Job) (out : bytes) :
  let w := run initial_world es in
  pending w = PRun j ->
  forallb (fun e => negb (settles e)) es2 = true ->
  let w2 := run w es2 in
  pending w2 = PRun j /\ ffmpeg w2 = ffmpeg w /\ downloads w2 = downloads w
  /\ downloads (step w2 (RunSettled (Some out) None))
     = (downloads w ++ [mkDownload out (startTime j) (endTime j)])%list
  /\ succeeded (step w2 (RunSettled (Some out) None))
  /\ pending (step w2 (RunSettled (Some out) None)) = PIdle.
Proof.
  intros w Hj Hs w2. destruct (run_keeps_job es es2 j Hj Hs) as (P & F & D).
  fold w in P, F, D. fold w2 in P, F, D.
  split; [exact P|]. split; [exact F|]. split; [exact D|].
  destruct (run_initial_ui es) as (_ & _ & Hp). fold w in Hp. rewrite Hj in Hp.
  destruct Hp as ((_ & Ein & Eout) & _ & _ & Hfs).
  assert (Hn : safeInputName j <> safeOutputName j)
    by (rewrite Ein, Eout; apply safe_names_differ).
  rewrite <- F in Hfs.
  destruct (run_resolved_facts w2 j _ out P Hn Hfs) as (D4 & _ & S4 & P4 & _).
  rewrite D4, D. repeat split; try assumption; apply S4.
Qed.

Lemma export_isolated_witness :
  let es := [InitLoadSettled None; FileChange (Some (mkFile "a.MOV" 2 [Byte.x01; Byte.x02]));
             ExportClick; FetchSettled None] in
  let es2 := [ClearFile; FileChange (Some (mkFile "b.mp4" 1 [Byte.x07]));
              SliderChange (num_of_Z 2, num_of_Z 5); ExportClick; Tick] in
  downloads (step (run (run initial_world es) es2) (RunSettled (Some [Byte.x09]) None))
  = [mkDownload [Byte.x09] (num_of_Z 0) (num_of_Z 10)].
Proof.
  intros es es2.
  destruct (export_isolated es es2
              (job_of (run initial_world
                         [InitLoadSettled None;
                          FileChange (Some (mkFile "a.MOV" 2 [Byte.x01; Byte.x02]))])
                      (mkFile "a.MOV" 2 [Byte.x01; Byte.x02]))
              [Byte.x09] eq_refl eq_refl) as (_ & _ & _ & D & _).
  exact D.
Defined.

(** ** Numbers to strings *)

(** On sample values [Number_toString] gives the strings JavaScript gives:
    shortest digits that round back, positional notation up to [1e21] and
    down to [1e-6], exponents beyond, the least and the greatest finite
    numbers. *)
Lemma toString_conforms :
  Number_toString (num_div (num_of_Z 1) (num_of_Z 10)) = "0.1"
  /\ Number_toString (num_div (num_of_Z 1) (num_of_Z 3)) = "0.3333333333333333"
  /\ Number_toString (num_add (num_div (num_of_Z 1) (num_of_Z 10))
                              (num_div (num_of_Z 2) (num_of_Z 10)))
     = "0.30000000000000004"
  /\ Number_toString (num_neg (num_div (num_of_Z 3) (num_of_Z 2))) = "-1.5"
  /\ Number_toString (num_of_Z 100) = "100"
  /\ Number_toString (num_of_Z (2 ^ 60)) = "1152921504606847000"
  /\ Number_toString (num_of_Z (10 ^ 21)) = "1e+21"
  /\ Number_toString (num_mul (num_of_Z (10 ^ 21)) (num_of_Z 12345)) = "1.2345e+25"
  /\ Number_toString (num_div (num_of_Z 1) (num_of_Z (10 ^ 6))) = "0.000001"
  /\ Number_toString (num_div (num_of_Z 1) (num_of_Z (10 ^ 7))) = "1e-7"
  /\ Number_toString (rnd (pow2 (-1074))) = "5e-324"
  /\ Number_toString (rnd ((2 - pow2 (-52)) * pow2 1023)%Q) = "1.7976931348623157e+308"
  /\ Number_toString NaN = "NaN"
  /\ Number_toString (num_div (num_of_Z (-1)) (num_of_Z 0)) = "-Infinity".
Proof. vm_compute. repeat split. Qed.

(** [formatTime] on sample values, the edge cases included. *)
Lemma formatTime_conforms :
  formatTime (num_of_Z 0) = "0:00"
  /\ formatTime (num_div (num_of_Z 754) (num_of_Z 10)) = "1:15"
  /\ formatTime (num_of_Z 3600) = "60:00"
  /\ formatTime NaN = "NaN:NaN"
  /\ formatTime PosInf = "Infinity:NaN"
  /\ formatTime (num_neg (num_div (num_of_Z 1) (num_of_Z 2))) = "-1:-1".
Proof. vm_compute. repeat split. Qed.

(** ** Numbers to strings: natural numbers *)

Section Decimal.

Local Open Scope Z_scope.

Lemma digit_char_digit (d : Z) : 0 <= d <= 9 -> is_digit (digit_char d) = true.
Proof.
  intros H. assert (d = 0 \/ d = 1 \/ d = 2 \/ d = 3 \/ d = 4 \/ d = 5 \/ d = 6
                    \/ d = 7 \/ d = 8 \/ d = 9) as C by lia.
  repeat destruct C as [-> | C]; try subst d; reflexivity.
Qed.

Lemma digit_char_val (d : Z) : 0 <= d <= 9 -> digit_val (digit_char d) = d.
Proof.
  intros H. assert (d = 0 \/ d = 1 \/ d = 2 \/ d = 3 \/ d = 4 \/ d = 5 \/ d = 6
                    \/ d = 7 \/ d = 8 \/ d = 9) as C by lia.
  repeat destruct C as [-> | C]; try subst d; reflexivity.
Qed.

Lemma pow10_S (k : nat) : 10 ^ Z.of_nat (S k) = 10 * 10 ^ Z.of_nat k.
Proof. rewrite Nat2Z.inj_succ, Z.pow_succ_r by lia. reflexivity. Qed.

Lemma pow10_gt0 (k : Z) : 0 <= k -> 0 < 10 ^ k.
Proof. intros H. apply Z.pow_pos_nonneg; lia. Qed.

Lemma leading_digit (k : nat) (s : Z) :
  0 <= s < 10 ^ Z.of_nat (S k) -> 0 <= s / 10 ^ Z.of_nat k <= 9.
Proof.
  intros H. rewrite pow10_S in H. pose proof (pow10_gt0 (Z.of_nat k) ltac:(lia)) as P.
  split; [apply Z.div_pos; lia|].
  assert (s / 10 ^ Z.of_nat k < 10); [|lia].
  apply Z.div_lt_upper_bound; lia.
Qed.

Lemma digits_of_length (k : nat) (s : Z) : String.length (digits_of k s) = k.
Proof. revert s. induction k as [|k IH]; intros s; [reflexivity|]. cbn. now rewrite IH. Qed.

Lemma digits_of_all (k : nat) (s : Z) :
  0 <= s < 10 ^ Z.of_nat k -> all_digits (digits_of k s) = true.
Proof.
  revert s. induction k as [|k IH]; intros s H; [reflexivity|].
  cbn [digits_of all_digits]. rewrite digit_char_digit by now apply leading_digit.
  apply IH, Z.mod_pos_bound, pow10_gt0. lia.
Qed.

Lemma digits_of_val (k : nat) (s : Z) :
  0 <= s < 10 ^ Z.of_nat k -> digits_val 0 (digits_of k s) = s.
Proof.
  revert s. induction k as [|k IH]; intros s H.
  - cbn in *. lia.
  - cbn [digits_of digits_val]. rewrite digits_val_acc, digits_of_length.
    pose proof (pow10_gt0 (Z.of_nat k) ltac:(lia)) as P.
    rewrite IH by (apply Z.mod_pos_bound, P).
    rewrite digit_char_val by now apply leading_digit.
    rewrite (Z.div_mod s (10 ^ Z.of_nat k)) at 3 by lia. ring.
Qed.

(** The digits of [s * 10^z] are those of [s] followed by [z] zeros. *)
Lemma digits_of_zero (z : nat) : digits_of z 0 = zeros z.
Proof.
  induction z as [|z IH]; [reflexivity|]. cbn [digits_of zeros].
  rewrite Z.div_0_l, Z.mod_0_l, IH by (pose proof (pow10_gt0 (Z.of_nat z)); lia).
  reflexivity.
Qed.

Lemma digits_of_shift (k z : nat) (s : Z) :
  0 <= s < 10 ^ Z.of_nat k ->
  (digits_of k s ++ zeros z)%string = digits_of (k + z) (s * 10 ^ Z.of_nat z).
Proof.
  revert s. induction k as [|k IH]; intros s H.
  - cbn in H. assert (s = 0) as -> by lia. cbn. symmetry. apply digits_of_zero.
  - cbn [digits_of append Nat.add].
    pose proof (pow10_gt0 (Z.of_nat k) ltac:(lia)) as P.
    pose proof (pow10_gt0 (Z.of_nat z) ltac:(lia)) as Pz.
    rewrite IH by (apply Z.mod_pos_bound, P).
    rewrite Nat2Z.inj_add, Z.pow_add_r by lia.
    rewrite Z.div_mul_cancel_r by lia.
    rewrite Z.mul_mod_distr_r by lia. reflexivity.
Qed.

Lemma digits_of_lead (k : nat) (s : Z) :
  10 ^ Z.of_nat k <= s < 10 ^ Z.of_nat (S k) ->
  prefix "0" (digits_of (S k) s) = false.
Proof.
  intros H. cbn [digits_of prefix].
  pose proof (pow10_gt0 (Z.of_nat k) ltac:(lia)) as P.
  assert (1 <= s / 10 ^ Z.of_nat k) by (apply Z.div_le_lower_bound; lia).
  pose proof (leading_digit k s ltac:(lia)) as L.
  assert (s / 10 ^ Z.of_nat k = 1 \/ s / 10 ^ Z.of_nat k = 2 \/ s / 10 ^ Z.of_nat k = 3
          \/ s / 10 ^ Z.of_nat k = 4 \/ s / 10 ^ Z.of_nat k = 5 \/ s / 10 ^ Z.of_nat k = 6
          \/ s / 10 ^ Z.of_nat k = 7 \/ s / 10 ^ Z.of_nat k = 8 \/ s / 10 ^ Z.of_nat k = 9)
    as C by lia.
  repeat destruct C as [-> | C]; try rewrite C; reflexivity.
Qed.

End Decimal.

Section ShortestInt.

Local Open Scope Q_scope.

Lemma Q2Qc_int (n : Z) : this (Q2Qc (inject_Z n)) = inject_Z n.
Proof.
  cbn [this Q2Qc]. unfold Qred, inject_Z.
  pose proof (Z.ggcd_gcd n 1) as G. pose proof (Z.ggcd_correct_divisors n 1) as D.
  destruct (Z.ggcd n 1) as [g [a b]]. cbn [fst] in G. rewrite Z.gcd_1_r in G.
  subst g. destruct D as [Da Db]. rewrite Z.mul_1_l in Da, Db. now subst a b.
Qed.

Lemma pow10_Q (p : Z) : (0 <= p)%Z -> 10 ^ p == inject_Z (10 ^ p).
Proof. intros H. now rewrite Zpower_Qpower. Qed.

Lemma Qfloor_int_div (a b : Z) :
  (0 < b)%Z -> Qfloor (inject_Z a / inject_Z b) = (a / b)%Z.
Proof.
  intros H. destruct b as [|pb|pb]; try lia.
  unfold Qdiv, Qinv, Qmult, Qfloor, inject_Z. cbn. now rewrite Z.mul_1_r.
Qed.

Lemma Qfloor_div_pow10 (a p : Z) :
  (0 <= p)%Z -> Qfloor (inject_Z a / 10 ^ p) = (a / 10 ^ p)%Z.
Proof.
  intros H. rewrite <- Qfloor_int_div by (apply Z.pow_pos_nonneg; lia).
  apply Qfloor_comp. now rewrite pow10_Q.
Qed.

Lemma int_times_pow10 (s p : Z) :
  (0 <= p)%Z -> inject_Z s * 10 ^ p == inject_Z (s * 10 ^ p).
Proof. intros H. now rewrite pow10_Q, inject_Z_mult. Qed.

Lemma num_same_int (a b : Z) : num_same (num_of_Z a) (num_of_Z b) = (a =? b)%Z.
Proof.
  unfold num_of_Z. cbn [num_same]. rewrite !Q2Qc_int.
  destruct (Z.eqb_spec a b) as [->|N].
  - apply Qeq_bool_iff. reflexivity.
  - destruct (Qeq_bool (inject_Z a) (inject_Z b)) eqn:E; [|reflexivity].
    apply Qeq_bool_iff in E. unfold Qeq in E. cbn in E. lia.
Qed.

(** Rounding a natural number gives the natural number [n < 2^53 - 1]
    only when it is [n]. *)
Lemma int_test (v n : Z) :
  (0 <= v)%Z -> (0 <= n < 2 ^ 53 - 1)%Z ->
  num_same (rnd (inject_Z v)) (num_of_Z n) = (v =? n)%Z.
Proof.
  intros Hv Hn. destruct (Z_lt_le_dec v (2 ^ 53)) as [L|L].
  - rewrite rnd_int by lia. apply num_same_int.
  - assert (M : num_le (num_of_Z (2 ^ 53 - 1)) (rnd (inject_Z v))).
    { rewrite <- (rnd_int (2 ^ 53 - 1)) by lia. apply rnd_mono.
      rewrite <- Zle_Qle. lia. }
    rewrite (proj2 (Z.eqb_neq v n)) by lia.
    destruct (rnd (inject_Z v)) as [| |r|]; try discriminate M; try reflexivity.
    unfold num_of_Z in *. apply num_le_Fin in M. cbn [num_same].
    rewrite Q2Qc_int in *. destruct (Qeq_bool r (inject_Z n)) eqn:E; [|reflexivity].
    apply Qeq_bool_iff in E. rewrite E in M. rewrite <- Zle_Qle in M. lia.
Qed.

(** The decimal exponent of a natural number. *)
Lemma ilog10_up_spec (fuel : nat) (q : Q) (e : Z) :
  (0 <= e)%Z -> 10 ^ e <= q -> q < 10 ^ (e + Z.of_nat fuel) ->
  10 ^ (ilog10_up fuel q e) <= q /\ q < 10 ^ (ilog10_up fuel q e + 1)
  /\ (e <= ilog10_up fuel q e)%Z.
Proof.
  revert e. induction fuel as [|f IH]; intros e He Lo Hi.
  - cbn [ilog10_up]. rewrite Z.add_0_r in Hi. exfalso.
    apply (Qlt_irrefl q). eapply Qlt_le_trans; eassumption.
  - cbn [ilog10_up]. destruct (Qle_bool (10 ^ (e + 1)) q) eqn:C.
    + apply Qle_bool_iff in C.
      destruct (IH (e + 1)%Z ltac:(lia) C) as (A & B & D).
      * replace (e + 1 + Z.of_nat f)%Z with (e + Z.of_nat (S f))%Z by lia. exact Hi.
      * repeat split; try assumption. lia.
    + split; [exact Lo|]. split; [|lia].
      destruct (Qlt_le_dec q (10 ^ (e + 1))) as [L|L]; [exact L|].
      apply Qle_bool_iff in L. congruence.
Qed.

Lemma ilog10_int (n : Z) :
  (1 <= n)%Z ->
  (0 <= ilog10 (inject_Z n))%Z
  /\ (10 ^ ilog10 (inject_Z n) <= n < 10 ^ (ilog10 (inject_Z n) + 1))%Z.
Proof.
  intros H. unfold ilog10.
  assert (Qle_bool 1 (inject_Z n) = true) as ->.
  { apply Qle_bool_iff. change 1 with (inject_Z 1). rewrite <- Zle_Qle. lia. }
  cbn [Qnum inject_Z].
  destruct (ilog10_up_spec (S (Z.to_nat (Z.log2 n))) (inject_Z n) 0 ltac:(lia))
    as (A & B & C).
  - change (10 ^ 0) with (inject_Z 1). rewrite <- Zle_Qle. lia.
  - rewrite pow10_Q by lia. rewrite <- Zlt_Qlt.
    pose proof (Z.log2_spec n ltac:(lia)) as [_ L].
    pose proof (Z.log2_nonneg n).
    replace (0 + Z.of_nat (S (Z.to_nat (Z.log2 n))))%Z with (Z.succ (Z.log2 n)) by lia.
    eapply Z.lt_le_trans; [exact L|]. apply Z.pow_le_mono_l. lia.
  - set (e := ilog10_up _ _ _) in *. split; [exact C|].
    rewrite pow10_Q in A, B by lia. rewrite <- Zle_Qle in A. rewrite <- Zlt_Qlt in B.
    lia.
Qed.

End ShortestInt.

Section ShortestSearch.

Local Open Scope Z_scope.

(** A positive natural number is a number not divisible by 10 followed by
    zeros. *)
Lemma trailing_zeros (n : Z) :
  1 <= n -> exists z s : Z, 0 <= z /\ n = s * 10 ^ z /\ s mod 10 <> 0.
Proof.
  intros H. assert (0 <= n) as Hn by lia. revert H.
  pattern n. apply Z_lt_induction; [|exact Hn].
  clear n Hn. intros n IH H1.
  destruct (Z.eq_dec (n mod 10) 0) as [E|E].
  - destruct (IH (n / 10)) as (z & s & Hz & Hs & Hm).
    + split; [apply Z.div_pos; lia|apply Z.div_lt; lia].
    + apply Z.div_le_lower_bound; [lia|].
      pose proof (Z.div_mod n 10 ltac:(lia)). lia.
    + exists (z + 1), s. split; [lia|]. split; [|exact Hm].
      rewrite Z.pow_add_r by lia. rewrite (Z.div_mod n 10) at 1 by lia.
      rewrite E, Hs. ring.
  - exists 0, n. split; [lia|]. split; [ring|exact E].
Qed.

Variable n : Z.
Hypothesis n_pos : 1 <= n.
Hypothesis n_small : n < 2 ^ 53 - 1.

Let e : Z := ilog10 (inject_Z n).

Lemma shortest_at_int (k : Z) :
  1 <= k <= e + 1 ->
  shortest_at (num_of_Z n) (inject_Z n) e k
  = if (n / 10 ^ (e + 1 - k) * 10 ^ (e + 1 - k) =? n)
    then Some (n / 10 ^ (e + 1 - k), e + 1) else None.
Proof.
  intros Hk. destruct (ilog10_int n n_pos) as (He & Lo & Hi). fold e in He, Lo, Hi.
  set (p := e + 1 - k). assert (0 <= p) as Hp by (unfold p; lia).
  pose proof (pow10_gt0 p Hp) as Pp.
  unfold shortest_at. fold p. rewrite (Qfloor_div_pow10 n p Hp).
  set (lo := n / 10 ^ p).
  assert (0 <= lo) as Hlo by (apply Z.div_pos; lia).
  rewrite (rnd_comp _ _ (int_times_pow10 lo p Hp)).
  rewrite (rnd_comp _ _ (int_times_pow10 (lo + 1) p Hp)).
  rewrite !int_test by nia.
  assert (n < (lo + 1) * 10 ^ p) as Hhi.
  { unfold lo. pose proof (Z.mul_succ_div_gt n (10 ^ p) Pp). lia. }
  rewrite (proj2 (Z.eqb_neq ((lo + 1) * 10 ^ p) n)) by lia.
  assert (lo < 10 ^ k) as Hlt.
  { unfold lo. apply Z.div_lt_upper_bound; [lia|].
    rewrite <- Z.pow_add_r by lia. replace (p + k) with (e + 1) by (unfold p; lia).
    lia. }
  rewrite (proj2 (Z.eqb_neq lo (10 ^ k))) by lia.
  destruct (lo * 10 ^ p =? n); reflexivity.
Qed.

Lemma shortest_steps (fuel : nat) (k k0 s : Z) :
  1 <= k <= k0 -> k0 <= e + 1 -> k0 - k < Z.of_nat fuel ->
  (forall k' : Z, k <= k' < k0 ->
                  n / 10 ^ (e + 1 - k') * 10 ^ (e + 1 - k') <> n) ->
  n / 10 ^ (e + 1 - k0) * 10 ^ (e + 1 - k0) = n ->
  shortest fuel (num_of_Z n) (inject_Z n) e k = (n / 10 ^ (e + 1 - k0), e + 1, k0).
Proof.
  revert k. induction fuel as [|f IH]; intros k Hk H0 Hf Hno Hyes; [lia|].
  cbn [shortest]. rewrite shortest_at_int by lia.
  destruct (Z.eq_dec k k0) as [->|Hne].
  - now rewrite (proj2 (Z.eqb_eq _ _) Hyes).
  - rewrite (proj2 (Z.eqb_neq _ _) (Hno k ltac:(lia))).
    apply IH; try lia. intros k' Hk'. apply Hno. lia.
Qed.

Lemma exponent_small : 0 <= e < 16.
Proof.
  destruct (ilog10_int n n_pos) as (He & Lo & _). fold e in He, Lo.
  split; [exact He|]. destruct (Z_lt_le_dec e 16) as [L|L]; [exact L|].
  assert (10 ^ 16 <= 10 ^ e) by (apply Z.pow_le_mono_r; lia).
  assert (2 ^ 53 < 10 ^ 16) by reflexivity. lia.
Qed.

(** [Number::toString] of a natural number gives its decimal digits. *)
Lemma toString_pos_int :
  Number_toString (num_of_Z n) = digits_of (Z.to_nat (e + 1)) n.
Proof.
  destruct (ilog10_int n n_pos) as (He & Lo & Hi). fold e in He, Lo, Hi.
  pose proof exponent_small as Hsmall.
  destruct (trailing_zeros n n_pos) as (z & s & Hz & Hs & Hm).
  assert (1 <= s) as Hs1.
  { pose proof (pow10_gt0 z Hz). destruct (Z_lt_le_dec s 1); [nia|lia]. }
  assert (z <= e) as Hze.
  { destruct (Z_lt_le_dec e z) as [L|L]; [|exact L].
    assert (10 ^ (e + 1) <= 10 ^ z) by (apply Z.pow_le_mono_r; lia).
    pose proof (pow10_gt0 z Hz). nia. }
  assert (Hdiv : n / 10 ^ z = s).
  { rewrite Hs. apply Z.div_mul. pose proof (pow10_gt0 z Hz). lia. }
  unfold Number_toString, num_of_Z. rewrite Q2Qc_int.
  assert ((inject_Z n ?= 0)%Q = Gt) as ->.
  { apply Qgt_alt. change 0%Q with (inject_Z 0). rewrite <- Zlt_Qlt. lia. }
  unfold pos_toString. fold (num_of_Z n). fold e.
  rewrite (shortest_steps 17 1 (e + 1 - z) s); try lia.
  - replace (e + 1 - (e + 1 - z)) with z by lia. rewrite Hdiv.
    assert ((e + 1 - z <=? e + 1) = true) as -> by (apply Z.leb_le; lia).
    assert ((e + 1 <=? 21) = true) as -> by (apply Z.leb_le; lia).
    cbn [andb]. replace (e + 1 - (e + 1 - z)) with z by lia.
    rewrite digits_of_shift.
    + rewrite <- Z2Nat.inj_add by lia. rewrite Z2Nat.id by lia.
      replace (e + 1 - z + z) with (e + 1) by lia. now rewrite <- Hs.
    + rewrite Z2Nat.id by lia. split; [lia|].
      assert (s * 10 ^ z < 10 ^ (e + 1 - z) * 10 ^ z); [|pose proof (pow10_gt0 z Hz); nia].
      rewrite <- Z.pow_add_r by lia. replace (e + 1 - z + z) with (e + 1) by lia. lia.
  - intros k' Hk' C. set (p := e + 1 - k') in *.
    assert (p = z + 1 + (p - z - 1)) as Ep by lia.
    assert (0 <= p - z - 1) by (unfold p; lia).
    rewrite Ep, !Z.pow_add_r in C by lia.
    pose proof (pow10_gt0 z Hz) as Pz.
    rewrite Hs in C at 2.
    assert (s = n / (10 ^ z * 10 ^ 1 * 10 ^ (p - z - 1)) * 10 ^ (p - z - 1) * 10) as Es by nia.
    apply Hm. rewrite Es. apply Z.mod_mul. lia.
  - replace (e + 1 - (e + 1 - z)) with z by lia. rewrite Hdiv. now symmetry.
Qed.

End ShortestSearch.

(** The string of a natural number below [2^53 - 1]: its decimal digits,
    without leading zeros. *)
Lemma toString_nat (n : Z) :
  (0 <= n < 2 ^ 53 - 1)%Z ->
  all_digits (Number_toString (num_of_Z n)) = true
  /\ digits_val 0 (Number_toString (num_of_Z n)) = n
  /\ (n = 0%Z -> Number_toString (num_of_Z n) = "0")
  /\ (n <> 0%Z -> prefix "0" (Number_toString (num_of_Z n)) = false)
  /\ Z.of_nat (String.length (Number_toString (num_of_Z n)))
     = (if (n =? 0)%Z then 1 else ilog10 (inject_Z n) + 1)%Z.
Proof.
  intros H. destruct (Z.eq_dec n 0) as [->|N].
  - repeat split; try reflexivity. intros C. now contradiction C.
  - assert (1 <= n)%Z as H1 by lia.
    rewrite (toString_pos_int n H1 ltac:(lia)).
    destruct (ilog10_int n H1) as (He & Lo & Hi).
    set (e := ilog10 (inject_Z n)) in *.
    assert (Hb : (0 <= n < 10 ^ Z.of_nat (Z.to_nat (e + 1)))%Z)
      by (rewrite Z2Nat.id by lia; lia).
    split; [now apply digits_of_all|]. split; [now apply digits_of_val|].
    split; [intros C; now contradiction N|]. split.
    + intros _. replace (Z.to_nat (e + 1)) with (S (Z.to_nat e)) by lia.
      apply digits_of_lead. rewrite Nat2Z.inj_succ, Z2Nat.id by lia.
      unfold Z.succ. lia.
    + rewrite digits_of_length, Z2Nat.id by lia.
      now rewrite (proj2 (Z.eqb_neq n 0) N).
Qed.

(** ** Time display *)

Section FormatTime.

Local Open Scope Q_scope.

Lemma Qfloor_unique (k : Z) (r : Q) :
  inject_Z k <= r -> r < inject_Z (k + 1) -> Qfloor r = k.
Proof.
  intros Lo Hi. apply Z.le_antisymm.
  - assert (Qfloor r < k + 1)%Z; [|lia]. rewrite Zlt_Qlt.
    eapply Qle_lt_trans; [apply Qfloor_le|exact Hi].
  - rewrite <- (Qfloor_Z k). now apply Qfloor_resp_le.
Qed.

Lemma floor_int (n : Z) : Math_floor (num_of_Z n) = num_of_Z n.
Proof. unfold num_of_Z, Math_floor. now rewrite Q2Qc_int, Qfloor_Z. Qed.

(** The floor of a number between [k] and a binary64 value below [k + 1]. *)
Lemma floor_between (k : Z) (x : number) (r : Q) :
  num_le (num_of_Z k) x -> num_le x (Fin (Q2Qc r)) -> r < inject_Z (k + 1) ->
  Math_floor x = num_of_Z k.
Proof.
  intros Lo Hi Hr. destruct x as [| |q|]; try discriminate Lo; try discriminate Hi.
  unfold num_of_Z in *. apply num_le_Fin in Lo, Hi. rewrite Q2Qc_int in Lo.
  rewrite this_Q2Qc in Hi. cbn [Math_floor]. do 3 f_equal.
  apply Qfloor_unique; [exact Lo|]. eapply Qle_lt_trans; eassumption.
Qed.

(** Whole minutes of whole seconds: the rounded quotient has the floor of
    the exact one. *)
Lemma minutes_whole (n : Z) :
  (0 <= n < 2 ^ 50)%Z ->
  Math_floor (num_div (num_of_Z n) (num_of_Z 60)) = num_of_Z (n / 60).
Proof.
  intros H. set (k := (n / 60)%Z).
  assert (Hk : (0 <= k /\ 60 * k <= n <= 60 * k + 59)%Z).
  { unfold k. pose proof (Z.div_mod n 60 ltac:(lia)).
    pose proof (Z.mod_pos_bound n 60 ltac:(lia)).
    split; [apply Z.div_pos; lia|lia]. }
  assert (Hq : inject_Z k <= inject_Z n / inject_Z 60
               /\ inject_Z n / inject_Z 60 <= inject_Z (64 * k + 63) * pow2 (-6)).
  { assert (inject_Z (60 * k) <= inject_Z n /\ inject_Z n <= inject_Z (60 * k + 59)) as [A B]
      by (rewrite <- !Zle_Qle; lia).
    rewrite inject_Z_mult in A. rewrite inject_Z_plus, inject_Z_mult in B.
    rewrite inject_Z_plus, inject_Z_mult.
    change (inject_Z 60) with 60 in *. change (inject_Z 59) with 59 in *.
    change (inject_Z 64) with 64. change (inject_Z 63) with 63.
    change (pow2 (-6)) with (1 # 64).
    split.
    - apply Qle_shift_div_l; [reflexivity|]. lra.
    - apply Qle_shift_div_r; [reflexivity|]. lra. }
  unfold num_of_Z at 1 2. cbn [num_div]. rewrite !Q2Qc_int.
  replace (Qeq_bool (inject_Z 60) 0) with false by reflexivity.
  apply (floor_between k _ (inject_Z (64 * k + 63) * pow2 (-6))).
  - rewrite <- (rnd_int k) by lia. apply rnd_mono, Hq.
  - rewrite <- rnd_exact by lia. apply rnd_mono, Hq.
  - rewrite inject_Z_plus, inject_Z_plus, inject_Z_mult.
    change (inject_Z 64) with 64. change (inject_Z 63) with 63.
    change (inject_Z 1) with 1. change (pow2 (-6)) with (1 # 64). lra.
Qed.

Lemma Qtrunc_nonneg (a b : Z) :
  (0 <= a)%Z -> (0 < b)%Z -> Qtrunc (inject_Z a / inject_Z b) = (a / b)%Z.
Proof.
  intros Ha Hb. destruct b as [|pb|pb]; try lia.
  unfold Qtrunc, Qdiv, Qinv, Qmult, inject_Z. cbn. rewrite Z.mul_1_r.
  apply Z.quot_div_nonneg; lia.
Qed.

(** Seconds past the minute of whole seconds. *)
Lemma seconds_whole (n : Z) :
  (0 <= n < 2 ^ 53)%Z ->
  Math_floor (num_rem (num_of_Z n) (num_of_Z 60)) = num_of_Z (n mod 60).
Proof.
  intros H. unfold num_of_Z at 1 2. cbn [num_rem]. rewrite !Q2Qc_int.
  replace (Qeq_bool (inject_Z 60) 0) with false by reflexivity.
  rewrite Qtrunc_nonneg by lia.
  pose proof (Z.mod_pos_bound n 60 ltac:(lia)).
  rewrite (rnd_comp _ (inject_Z (n mod 60))).
  - rewrite rnd_int by lia. apply floor_int.
  - rewrite Z.mod_eq by lia. unfold Z.sub.
    rewrite inject_Z_plus, inject_Z_opp, inject_Z_mult. ring.
Qed.

Lemma pad2_table :
  forallb (fun i : nat =>
             String.eqb (padStart 2 "0" (Number_toString (num_of_Z (Z.of_nat i))))
                        (digits_of 2 (Z.of_nat i)))
          (seq 0 60) = true.
Proof. vm_compute. reflexivity. Qed.

(** The seconds field: two digits. *)
Lemma pad2_seconds (s : Z) :
  (0 <= s < 60)%Z -> padStart 2 "0" (Number_toString (num_of_Z s)) = digits_of 2 s.
Proof.
  intros H. pose proof pad2_table as T. rewrite forallb_forall in T.
  specialize (T (Z.to_nat s)). rewrite Z2Nat.id in T by lia.
  apply String.eqb_eq, T, in_seq. lia.
Qed.

End FormatTime.

(** X19: the display of a whole number of seconds below [2^50]:
    [formatTime] gives the minutes in decimal, without leading zeros, then
    a colon, then the seconds past the minute as exactly two digits. *)
Theorem formatTime_whole_seconds (n : Z) :
  (0 <= n < 2 ^ 50)%Z ->
  exists M SS : string,
    formatTime (num_of_Z n) = M ++ ":" ++ SS
    /\ all_digits M = true /\ digits_val 0 M = (n / 60)%Z
    /\ (n < 60 -> M = "0")%Z
    /\ (60 <= n -> prefix "0" M = false)%Z
    /\ String.length SS = 2%nat /\ all_digits SS = true
    /\ digits_val 0 SS = (n mod 60)%Z.
Proof.
  intros H. pose proof (Z.mod_pos_bound n 60 ltac:(lia)) as Hs.
  assert (Hm : (0 <= n / 60 < 2 ^ 53 - 1)%Z).
  { split; [apply Z.div_pos; lia|].
    apply Z.div_lt_upper_bound; [lia|].
    assert (2 ^ 50 <= 60 * (2 ^ 53 - 1))%Z by (vm_compute; discriminate). lia. }
  destruct (toString_nat (n / 60) Hm) as (A & V & Z0 & L & _).
  exists (Number_toString (num_of_Z (n / 60))), (digits_of 2 (n mod 60)).
  unfold formatTime. rewrite (minutes_whole n H), (seconds_whole n) by lia.
  rewrite (pad2_seconds _ Hs).
  split; [reflexivity|]. split; [exact A|]. split; [exact V|]. split.
  - intros C. apply Z0. apply Z.div_small. lia.
  - split.
    + intros C. apply L. assert (1 <= n / 60)%Z; [|lia].
      apply Z.div_le_lower_bound; lia.
    + split; [apply digits_of_length|].
      split; [apply digits_of_all|apply digits_of_val]; cbn; lia.
Qed.

Lemma formatTime_whole_seconds_witness :
  exists M SS : string,
    formatTime (num_of_Z 754) = M ++ ":" ++ SS
    /\ all_digits M = true /\ digits_val 0 M = (754 / 60)%Z
    /\ (754 < 60 -> M = "0")%Z
    /\ (60 <= 754 -> prefix "0" M = false)%Z
    /\ String.length SS = 2%nat /\ all_digits SS = true
    /\ digits_val 0 SS = (754 mod 60)%Z.
Proof. apply (formatTime_whole_seconds 754). lia. Defined.

(** ** Time display: seconds with a fraction *)

Section Doubles.

Local Open Scope Q_scope.

(** A positive binary64 value is a natural multiple of its unit in the
    last place, with a significand below [2^53]. *)
Lemma double_form (x : Qc) :
  is_double x -> 0 < x ->
  exists j : Z, x == inject_Z j * pow2 (ulp_exp x) /\ (0 < j < 2 ^ 53)%Z.
Proof.
  unfold is_double. intros H Hx. unfold rnd in H.
  rewrite (proj1 (Qgt_alt x 0) Hx) in H. unfold rnd_pos in H.
  destruct (Qle_bool _ _); [discriminate H|]. injection H as H.
  assert (E : rnd_val x == x) by (rewrite <- H at 2; symmetry; apply this_Q2Qc).
  unfold rnd_val in E. set (u := ulp_exp x) in *.
  set (j := rhe (x / pow2 u)) in *. exists j. split; [now symmetry|].
  pose proof (pow2_pos u) as Pu. split.
  - destruct (Z_lt_le_dec 0 j) as [L|L]; [exact L|]. exfalso.
    apply (Qlt_irrefl 0). eapply Qlt_le_trans; [exact Hx|]. rewrite <- E.
    assert (inject_Z j <= 0) by (change 0 with (inject_Z 0); now rewrite <- Zle_Qle).
    setoid_replace 0 with (0 * pow2 u) by ring.
    apply Qmult_le_compat_r; [assumption|now apply Qlt_le_weak].
  - destruct (ilog2_spec x Hx) as [_ Hi].
    assert (Hu : (ilog2 x + 1 <= u + 53)%Z) by (unfold u, ulp_exp; lia).
    rewrite Zlt_Qlt, (pow2_Z 53) by lia.
    apply (Qmult_lt_r _ _ (pow2 u) Pu). rewrite E, <- pow2_add.
    eapply Qlt_le_trans; [exact Hi|]. apply pow2_le. lia.
Qed.

(** Below the middle between a binary64 value and its successor, rounding
    does not go beyond the value. *)
Lemma rnd_below_mid (m w : Z) (y : Q) :
  (2 ^ 52 <= m < 2 ^ 53)%Z -> (-1074 <= w <= 970)%Z ->
  y < (inject_Z m + (1 # 2)) * pow2 w ->
  num_le (rnd y) (Fin (Q2Qc (inject_Z m * pow2 w))).
Proof.
  intros Hm Hw Hy. pose proof (pow2_pos w) as Pw.
  destruct (Qlt_le_dec (inject_Z m * pow2 w) y) as [L|L].
  - assert (Hpos : 0 < y).
    { eapply Qle_lt_trans; [|exact L]. apply Qmult_le_0_compat;
        [|now apply Qlt_le_weak]. change 0 with (inject_Z 0). rewrite <- Zle_Qle. lia. }
    assert (Hlog : ilog2 y = (w + 52)%Z).
    { apply ilog2_unique.
      - apply Qlt_le_weak. eapply Qle_lt_trans; [|exact L].
        replace (w + 52)%Z with (52 + w)%Z by lia. rewrite pow2_add.
        apply Qmult_le_compat_r; [|now apply Qlt_le_weak].
        rewrite <- (pow2_Z 52) by lia. rewrite <- Zle_Qle. lia.
      - eapply Qlt_le_trans; [exact Hy|].
        replace (w + 52 + 1)%Z with (53 + w)%Z by lia. rewrite pow2_add.
        apply Qmult_le_compat_r; [|now apply Qlt_le_weak].
        rewrite <- (pow2_Z 53) by lia.
        assert (inject_Z m + 1 <= inject_Z (2 ^ 53)).
        { change 1 with (inject_Z 1). rewrite <- inject_Z_plus, <- Zle_Qle. lia. }
        lra. }
    assert (Hu : ulp_exp y = w) by (unfold ulp_exp; rewrite Hlog; lia).
    assert (Hdiv : inject_Z m < y / pow2 w /\ y / pow2 w < inject_Z m + (1 # 2)).
    { split.
      - apply Qlt_shift_div_l; assumption.
      - apply Qlt_shift_div_r; assumption. }
    set (d := y / pow2 w) in *.
    assert (Hf : Qfloor d = m).
    { apply Qfloor_unique; [apply Qlt_le_weak, Hdiv|].
      rewrite inject_Z_plus. change (inject_Z 1) with 1. lra. }
    assert (Hr : rhe d = m).
    { unfold rhe. rewrite Hf.
      assert ((d - inject_Z m ?= 1 # 2) = Lt) as ->; [|reflexivity].
      apply (proj1 (Qlt_alt _ _)). destruct Hdiv. lra. }
    unfold d in Hr. unfold rnd. rewrite (proj1 (Qgt_alt y 0) Hpos). unfold rnd_pos, rnd_val.
    rewrite Hu, Hr.
    destruct (Qle_bool (pow2 1024) (inject_Z m * pow2 w)) eqn:O.
    + exfalso. apply Qle_bool_iff in O. apply (Qlt_irrefl (pow2 1024)).
      eapply Qle_lt_trans; [exact O|].
      eapply Qlt_le_trans; [|apply (pow2_le (53 + w) 1024); lia].
      rewrite pow2_add. apply Qmult_lt_compat_r; [exact Pw|].
      rewrite <- (pow2_Z 53) by lia. rewrite <- Zlt_Qlt. lia.
    + apply num_le_refl. discriminate.
  - rewrite <- (rnd_exact m w) by lia. now apply rnd_mono.
Qed.

End Doubles.

Section DoubleSeconds.

Local Open Scope Q_scope.

Variable x : Qc.
Hypothesis x_double : is_double x.
Hypothesis x_pos : 0 < x.
Hypothesis x_small : x < inject_Z (2 ^ 50).

Let N : Z := Qfloor x.
Let K : Z := (N / 60)%Z.
Let u : Z := ulp_exp x.

Lemma seconds_floor : (0 <= N < 2 ^ 50)%Z /\ inject_Z N <= x /\ x < inject_Z N + 1.
Proof.
  pose proof (Qfloor_le x) as A. pose proof (Qlt_floor x) as B. fold N in A, B.
  rewrite inject_Z_plus in B. change (inject_Z 1) with 1 in B.
  split; [|split; assumption]. split.
  - unfold N. rewrite <- (Qfloor_Z 0). apply Qfloor_resp_le. now apply Qlt_le_weak.
  - rewrite Zlt_Qlt. eapply Qle_lt_trans; [exact A|exact x_small].
Qed.

Lemma minutes_bounds :
  (0 <= K)%Z /\ (60 * K <= N <= 60 * K + 59)%Z
  /\ inject_Z (60 * K) <= x /\ x < inject_Z (60 * (K + 1)).
Proof.
  destruct seconds_floor as ((N0 & _) & A & B).
  pose proof (Z.div_mod N 60 ltac:(lia)) as D.
  pose proof (Z.mod_pos_bound N 60 ltac:(lia)) as M. fold K in D.
  assert (0 <= K)%Z by (apply Z.div_pos; lia).
  split; [assumption|]. split; [lia|]. split.
  - eapply Qle_trans; [|exact A]. rewrite <- Zle_Qle. lia.
  - eapply Qlt_le_trans; [exact B|]. change 1 with (inject_Z 1).
    rewrite <- inject_Z_plus, <- Zle_Qle. lia.
Qed.

Lemma ulp_small : (-1074 <= u <= -3)%Z /\ (ilog2 x - 52 <= u)%Z.
Proof.
  destruct (ilog2_spec x x_pos) as [Lo _].
  assert (ilog2 x < 50)%Z.
  { apply (Qpower_lt_compat_l_inv 2); [|reflexivity].
    eapply Qle_lt_trans; [exact Lo|]. eapply Qlt_le_trans; [exact x_small|].
    rewrite (pow2_Z 50) by lia. apply Qle_refl. }
  unfold u, ulp_exp. lia.
Qed.

(** The quotient by 60 has the floor of the exact one. *)
Lemma quotient_floor : Qfloor (x / inject_Z 60) = K.
Proof.
  destruct minutes_bounds as (_ & _ & A & B).
  rewrite inject_Z_mult in A, B. change (inject_Z 60) with 60 in *.
  apply Qfloor_unique.
  - apply Qle_shift_div_l; [reflexivity|]. lra.
  - apply Qlt_shift_div_r; [reflexivity|]. lra.
Qed.

(** A binary64 value below [60 (K + 1)] is below it by at least one unit
    in the last place. *)
Lemma below_next_minute : x + pow2 u <= inject_Z (60 * (K + 1)).
Proof.
  destruct (double_form x x_double x_pos) as (j & Ej & Hj). fold u in Ej.
  destruct minutes_bounds as (K0 & _ & _ & B). destruct ulp_small as (Hu & _).
  pose proof (pow2_pos u) as Pu. pose proof (pow2_pos (- u)) as Pn.
  assert (E1 : pow2 u * pow2 (- u) == 1).
  { rewrite <- pow2_add. replace (u + - u)%Z with 0%Z by lia. reflexivity. }
  assert (Hlt : (j < 60 * (K + 1) * 2 ^ (- u))%Z).
  { rewrite Zlt_Qlt, inject_Z_mult, (pow2_Z (- u)) by lia.
    setoid_replace (inject_Z j) with (x * pow2 (- u)).
    - apply Qmult_lt_compat_r; assumption.
    - rewrite Ej, <- Qmult_assoc, E1. ring. }
  assert (Hle : inject_Z (j + 1) <= inject_Z (60 * (K + 1)) * pow2 (- u)).
  { rewrite <- (pow2_Z (- u)) by lia. rewrite <- inject_Z_mult, <- Zle_Qle. lia. }
  rewrite inject_Z_plus in Hle. change (inject_Z 1) with 1 in Hle.
  apply (Qmult_le_r _ _ (pow2 (- u)) Pn).
  rewrite Qmult_plus_distr_l, E1, Ej, <- Qmult_assoc, E1. lra.
Qed.

Lemma minutes_double :
  Math_floor (num_div (Fin x) (num_of_Z 60)) = num_of_Z K.
Proof.
  destruct seconds_floor as ((N0 & N1) & NA & NB).
  destruct minutes_bounds as (K0 & KN & A & B).
  destruct ulp_small as (Hu & Hul).
  pose proof below_next_minute as Hnext.
  rewrite inject_Z_mult in A, B, Hnext. rewrite inject_Z_plus in B, Hnext.
  change (inject_Z 60) with 60 in *. change (inject_Z 1) with 1 in *.
  unfold num_of_Z at 1. cbn [num_div]. rewrite Q2Qc_int.
  replace (Qeq_bool (inject_Z 60) 0) with false by reflexivity.
  change (inject_Z 60) with 60.
  assert (Lo : num_le (num_of_Z K) (rnd (x / 60))).
  { rewrite <- (rnd_int K).
    - apply rnd_mono. apply Qle_shift_div_l; [reflexivity|]. lra.
    - split; [exact K0|]. assert (2 ^ 50 < 2 ^ 53)%Z by reflexivity. lia. }
  destruct (Qlt_le_dec x 32) as [C|C].
  - (* the first half minute *)
    assert (N < 32)%Z.
    { rewrite Zlt_Qlt. eapply Qle_lt_trans; [exact NA|exact C]. }
    assert (K = 0%Z) as EK by lia. rewrite EK in *.
    apply (floor_between 0 _ (inject_Z 3 * pow2 (-2))); [exact Lo| |reflexivity].
    rewrite <- rnd_exact by lia. apply rnd_mono.
    change (inject_Z 3 * pow2 (-2)) with ((3 # 1) * (1 # 4)).
    apply Qle_shift_div_r; [reflexivity|]. lra.
  - set (T := (K + 1)%Z). set (a := Z.log2 (2 * T - 1)).
    assert (Ha0 : (0 <= a)%Z) by apply Z.log2_nonneg.
    destruct (Z.log2_spec (2 * T - 1) ltac:(unfold T; lia)) as [La Ua]. fold a in La, Ua.
    assert (HaN : (2 ^ (a + 4) <= N)%Z).
    { destruct (Z.eq_dec a 0) as [E0|E0].
      - rewrite E0. change (2 ^ (0 + 4))%Z with 16%Z.
        assert (32 <= N)%Z; [|lia].
        unfold N. rewrite <- (Qfloor_Z 32). now apply Qfloor_resp_le.
      - replace (a + 4)%Z with (5 + (a - 1))%Z by lia.
        replace a with (1 + (a - 1))%Z in La by lia.
        rewrite Z.pow_add_r in * by lia.
        change (2 ^ 5)%Z with 32%Z. change (2 ^ 1)%Z with 2%Z in La.
        assert (0 < 2 ^ (a - 1))%Z by (apply Z.pow_pos_nonneg; lia).
        unfold T in La. lia. }
    assert (HaL : (a + 4 <= ilog2 x)%Z).
    { destruct (ilog2_spec x x_pos) as [_ Hi].
      assert (a + 4 < ilog2 x + 1)%Z; [|lia].
      apply (Qpower_lt_compat_l_inv 2); [|reflexivity].
      eapply Qle_lt_trans; [|exact Hi]. fold (pow2 (a + 4)).
      rewrite <- (pow2_Z (a + 4)) by lia.
      eapply Qle_trans; [|exact NA]. now rewrite <- Zle_Qle. }
    assert (Ha52 : (a <= 45)%Z) by lia.
    set (w := (a - 53)%Z). set (m := (T * 2 ^ (53 - a) - 1)%Z).
    assert (Hm : (2 ^ 52 <= m < 2 ^ 53)%Z).
    { unfold m. replace (53 - a)%Z with (1 + (52 - a))%Z by lia.
      rewrite Z.pow_add_r by lia. change (2 ^ 1)%Z with 2%Z.
      assert (E52 : (2 ^ a * 2 ^ (52 - a) = 2 ^ 52)%Z).
      { rewrite <- Z.pow_add_r by lia. f_equal. lia. }
      assert (E53 : (2 ^ 53 = 2 * 2 ^ 52)%Z) by reflexivity.
      assert (0 < 2 ^ (52 - a))%Z by (apply (Z.pow_pos_nonneg 2 (52 - a)); lia).
      rewrite Z.pow_succ_r in Ua by lia. nia. }
    assert (Emw : inject_Z m * pow2 w == inject_Z T - pow2 w).
    { unfold m, w. unfold Z.sub at 1. rewrite inject_Z_plus, inject_Z_mult.
      rewrite (pow2_Z (53 - a)) by lia. change (inject_Z (- (1))) with (- (1)).
      assert (E : pow2 (53 - a) * pow2 (a - 53) == 1).
      { rewrite <- pow2_add. replace (53 - a + (a - 53))%Z with 0%Z by lia. reflexivity. }
      rewrite Qmult_plus_distr_l, <- Qmult_assoc, E. ring. }
    pose proof (pow2_pos w) as Pw.
    assert (Hwu : 32 * pow2 w <= pow2 u).
    { change 32 with (pow2 5). rewrite <- pow2_add. apply pow2_le. unfold w. lia. }
    apply (floor_between K _ (inject_Z m * pow2 w)); [exact Lo| |].
    + apply rnd_below_mid; [exact Hm|unfold w; lia|].
      rewrite Qmult_plus_distr_l, Emw. unfold T. rewrite inject_Z_plus.
      change (inject_Z 1) with 1.
      apply Qlt_shift_div_r; [reflexivity|]. lra.
    + rewrite Emw. unfold T. lra.
Qed.

Lemma Qtrunc_floor (q : Q) : 0 <= q -> Qtrunc q = Qfloor q.
Proof.
  intros H. unfold Qtrunc, Qfloor. destruct q as [a b].
  apply Z.quot_div_nonneg; [|lia]. unfold Qle in H. cbn in *. lia.
Qed.

Lemma seconds_double :
  Math_floor (num_rem (Fin x) (num_of_Z 60)) = num_of_Z (N mod 60).
Proof.
  destruct seconds_floor as ((N0 & N1) & NA & NB).
  destruct minutes_bounds as (K0 & KN & A & B).
  destruct ulp_small as (Hu & Hul).
  destruct (double_form x x_double x_pos) as (j & Ej & Hj). fold u in Ej.
  unfold num_of_Z at 1. cbn [num_rem]. rewrite Q2Qc_int.
  replace (Qeq_bool (inject_Z 60) 0) with false by reflexivity.
  rewrite Qtrunc_floor, quotient_floor.
  2:{ apply Qle_shift_div_l; [reflexivity|]. rewrite Qmult_0_l. now apply Qlt_le_weak. }
  set (r := x - inject_Z 60 * inject_Z K).
  assert (ES : (N mod 60 = N - 60 * K)%Z) by (unfold K; rewrite Z.mod_eq; lia).
  assert (Hr : inject_Z (N mod 60) <= r /\ r < inject_Z (N mod 60 + 1)).
  { rewrite ES. unfold r, Z.sub. rewrite !inject_Z_plus, inject_Z_opp, inject_Z_mult.
    change (inject_Z 1) with 1. split; lra. }
  pose proof (pow2_pos u) as Pu.
  assert (E60 : inject_Z 60 * inject_Z K == inject_Z (60 * K * 2 ^ (- u)) * pow2 u).
  { rewrite (inject_Z_mult (60 * K)), (pow2_Z (- u)), <- Qmult_assoc, <- pow2_add by lia.
    replace (- u + u)%Z with 0%Z by lia. rewrite inject_Z_mult.
    change (pow2 0) with 1. ring. }
  assert (Er : r == inject_Z (j - 60 * K * 2 ^ (- u)) * pow2 u).
  { unfold r. rewrite E60, Ej. unfold Z.sub. rewrite inject_Z_plus, inject_Z_opp. ring. }
  assert (H0r : 0 <= r).
  { eapply Qle_trans; [|apply Hr]. change 0 with (inject_Z 0). rewrite <- Zle_Qle.
    apply Z.mod_pos_bound. lia. }
  assert (Hj' : (0 <= j - 60 * K * 2 ^ (- u) <= j)%Z).
  { split.
    - rewrite Zle_Qle. apply (Qmult_le_r _ _ (pow2 u) Pu).
      rewrite <- Er. change (inject_Z 0) with 0. now rewrite Qmult_0_l.
    - assert (0 <= 2 ^ (- u))%Z by (apply Z.pow_nonneg; lia). nia. }
  apply (floor_between _ _ r); [| |apply Hr].
  - rewrite <- (rnd_int (N mod 60)).
    + apply rnd_mono, Hr.
    + pose proof (Z.mod_pos_bound N 60 ltac:(lia)).
      assert (60 < 2 ^ 53)%Z by reflexivity. lia.
  - destruct (Z.eq_dec (j - 60 * K * 2 ^ (- u)) 0) as [Z0|Z0].
    + rewrite (rnd_comp r 0) by (rewrite Er, Z0; apply Qmult_0_l).
      apply num_le_Fin. rewrite (this_Q2Qc r). exact H0r.
    + rewrite (rnd_comp _ _ Er), rnd_exact by lia.
      rewrite (proj2 (Q2Qc_eq_iff _ _) Er). apply num_le_refl. discriminate.
Qed.

End DoubleSeconds.

(** X20: the display drops the fraction.  For every binary64 number of
    seconds from 0 to below [2^50], [formatTime] shows the same as for the
    whole seconds below it: the rounded quotient by 60 never reaches the
    next minute. *)
Theorem formatTime_drops_fraction (x : Qc) :
  is_double x -> (0 <= x)%Q -> (x < inject_Z (2 ^ 50))%Q ->
  formatTime (Fin x) = formatTime (num_of_Z (Qfloor x)).
Proof.
  intros Hd H0 H1. destruct (Qle_lt_or_eq _ _ H0) as [Hp|Hz].
  - destruct (seconds_floor x Hp H1) as (HN & _).
    unfold formatTime.
    rewrite (minutes_double x Hd Hp H1), (seconds_double x Hd Hp H1).
    assert (2 ^ 50 < 2 ^ 53)%Z by reflexivity.
    rewrite minutes_whole, seconds_whole by lia. reflexivity.
  - assert (x = 0%Qc) as -> by (apply Qc_is_canon; now symmetry).
    reflexivity.
Qed.

Lemma formatTime_drops_fraction_witness :
  formatTime (Fin (Q2Qc (inject_Z 8430175552484147 * pow2 (-47))))
  = formatTime (num_of_Z (Qfloor (Q2Qc (inject_Z 8430175552484147 * pow2 (-47))))).
Proof.
  apply formatTime_drops_fraction.
  - unfold is_double. apply num_same_eq. vm_compute. reflexivity.
  - vm_compute. discriminate.
  - vm_compute. reflexivity.
Defined.
